(** * auto_commit_app: commit scheduling and repository lifecycle

    A shallow embedding of
      - [utils/human_patterns.py]    (CommitPatternGenerator),
      - [utils/scheduler_manager.py] (SchedulerManager),
      - [agents/github_agent.py]     (GitHubAgent: setup, create_initial_commit,
                                      pull_latest, commit_and_push, create_file,
                                      generate_commit_message, execute),
      - [agents/base_agent.py]       (initialize),
      - [llm/manager.py]             (LLMManager: generate, test_connection),
      - [main.py]                    (run_scheduled_commits),
    followed by the properties established about them.

    Conventions.
      - A [datetime] is an exact rational number of seconds; a [timedelta]
        is a rational number of seconds.  Binary floating point and the
        microsecond resolution of [datetime] are abstracted: arithmetic on
        times is exact.  The one place where they are written out is
        [even_schedule_float], the deterministic schedule as the
        interpreter computes it, with [generate_commit_schedule_float].
      - The [random] module is an oracle [rnd : nat -> Q]; the k-th call of
        the run consumes [rnd k], which stands for [random.random()].
      - [datetime.now()] is an explicit argument [now].
      - Python exceptions are values of [exn]; a function that may raise
        returns a [result]. *)

From Stdlib Require Import ZArith QArith Qround Qpower List Bool String Ascii Lia Lqa.
Import ListNotations.

Local Open Scope Z_scope.

(* ================================================================= *)
(** ** Python preliminaries *)

Inductive exn : Type :=
| ZeroDivisionError
| ValueError
| IndexError
| CancelledError
| Exception (msg : string).

Inductive result (A : Type) : Type :=
| Ok (a : A)
| Raise (e : exn).
Arguments Ok {A} a.
Arguments Raise {A} e.

Definition datetime := Q.
Definition timedelta := Q.

Definition timedelta_seconds (s : Q) : timedelta := s.
Definition timedelta_hours (h : Z) : timedelta := inject_Z (h * 3600).

Definition Qlt_bool (a b : Q) : bool := negb (Qle_bool b a).

(** [len(xs)] as a Python int. *)
Definition len {A : Type} (xs : list A) : Z := Z.of_nat (List.length xs).

(** [range(n)]: empty when [n <= 0]. *)
Definition range (n : Z) : list Z := map Z.of_nat (seq 0 (Z.to_nat n)).

(** [xs[:n]] with Python's treatment of a negative bound. *)
Definition slice_to {A : Type} (xs : list A) (n : Z) : list A :=
  if 0 <=? n then firstn (Z.to_nat n) xs
  else firstn (Z.to_nat (len xs + n)) xs.

(** [xs[i]] with Python's treatment of a negative index. *)
Definition py_index {A : Type} (xs : list A) (i : Z) : result A :=
  let j := if 0 <=? i then i else len xs + i in
  if (0 <=? j) && (j <? len xs) then
    match nth_error xs (Z.to_nat j) with
    | Some x => Ok x
    | None => Raise IndexError
    end
  else Raise IndexError.

(** [list.sort()] on times: a stable insertion sort. *)
Fixpoint insert_time (t : datetime) (xs : list datetime) : list datetime :=
  match xs with
  | [] => [t]
  | x :: xs' => if Qle_bool t x then t :: x :: xs' else x :: insert_time t xs'
  end.

Fixpoint sort_times (xs : list datetime) : list datetime :=
  match xs with
  | [] => []
  | x :: xs' => insert_time x (sort_times xs')
  end.

(** Ascending order of a list of times. *)
Fixpoint sortedb (xs : list datetime) : bool :=
  match xs with
  | [] => true
  | x :: xs' =>
      match xs' with
      | [] => true
      | y :: _ => Qle_bool x y && sortedb xs'
      end
  end.

(* ================================================================= *)
(** ** The [random] module *)

Section Random.

Variable rnd : nat -> Q.

(** [random.random()] *)
Definition random_random (k : nat) : Q * nat := (rnd k, S k).

(** [random.uniform(a, b)] is [a + (b - a) * random()]. *)
Definition random_uniform (a b : Q) (k : nat) : Q * nat :=
  ((a + (b - a) * rnd k)%Q, S k).

(** [random.randint(a, b)]: an integer of [a .. b]; [ValueError] on an
    empty range. *)
Definition random_randint (a b : Z) (k : nat) : result Z * nat :=
  if b <? a then (Raise ValueError, k)
  else (Ok (a + Qfloor (rnd k * inject_Z (b - a + 1))), S k).

End Random.

(* ================================================================= *)
(** ** utils/human_patterns.py *)

Record CommitPatternGenerator : Type := {
  min_commits : Z;
  max_commits : Z;
  window_hours : Z;
  randomize : bool
}.

Section Generator.

Variable rnd : nat -> Q.

(** The deterministic branch: [max_commits] evenly spaced times, in exact
    arithmetic.  [even_schedule_float] below is the same branch with the
    floats and the microseconds of the interpreter. *)
Definition even_schedule (self : CommitPatternGenerator)
    (start_time : datetime) : result (list datetime) :=
  let num_commits := max_commits self in
  if num_commits =? 0 then Raise ZeroDivisionError
  else
    let interval := (inject_Z (window_hours self * 3600) / inject_Z num_commits)%Q in
    Ok (map (fun i => (start_time + timedelta_seconds (inject_Z i * interval))%Q)
            (range num_commits)).

(** The inner [for _ in range(cluster_size)] loop. *)
Fixpoint cluster (n : nat) (num_commits : Z) (end_time : datetime)
    (commit_times : list datetime) (current_time : datetime) (k : nat)
    : list datetime * datetime * nat :=
  match n with
  | O => (commit_times, current_time, k)
  | S n' =>
      if (num_commits <=? len commit_times) || Qle_bool end_time current_time
      then (commit_times, current_time, k)
      else
        let (gap, k') := random_uniform rnd 60 300 k in
        cluster n' num_commits end_time (commit_times ++ [current_time])
                (current_time + timedelta_seconds gap)%Q k'
  end.

(** The main [while] loop; [None] when the fuel runs out. *)
Fixpoint walk (fuel : nat) (num_commits : Z) (end_time : datetime)
    (commit_times : list datetime) (current_time : datetime) (k : nat)
    : option (list datetime * datetime * nat) :=
  if (len commit_times <? num_commits) && Qlt_bool current_time end_time then
    match fuel with
    | O => None
    | S fuel' =>
        let (base_interval, k1) := random_uniform rnd 600 2700 k in
        let (random_factor, k2) := random_uniform rnd 0.7 1.3 k1 in
        let interval := (base_interval * random_factor)%Q in
        let (p, k3) := random_random rnd k2 in
        if Qlt_bool p 0.2 then
          match random_randint rnd 2 4 k3 with
          | (Raise _, _) => None
          | (Ok cluster_size, k4) =>
              let '(commit_times', current_time', k5) :=
                cluster (Z.to_nat cluster_size) num_commits end_time
                        commit_times current_time k4 in
              walk fuel' num_commits end_time commit_times' current_time' k5
          end
        else
          walk fuel' num_commits end_time (commit_times ++ [current_time])
               (current_time + timedelta_seconds interval)%Q k3
    end
  else Some (commit_times, current_time, k).

(** The padding [while len(commit_times) < num_commits] loop. *)
Fixpoint pad (fuel : nat) (self : CommitPatternGenerator) (num_commits : Z)
    (start_time : datetime) (commit_times : list datetime) (k : nat)
    : option (list datetime * nat) :=
  if len commit_times <? num_commits then
    match fuel with
    | O => None
    | S fuel' =>
        let (s, k') := random_uniform rnd 0 (inject_Z (window_hours self * 3600)) k in
        let random_time := (start_time + timedelta_seconds s)%Q in
        pad fuel' self num_commits start_time (commit_times ++ [random_time]) k'
    end
  else Some (commit_times, k).

(** The jitter loop over the sorted times. *)
Fixpoint jitter_times (start_time end_time : datetime)
    (commit_times : list datetime) (k : nat) : list datetime * nat :=
  match commit_times with
  | [] => ([], k)
  | time :: rest =>
      let (j, k') := random_uniform rnd (-120) 120 k in
      let jittered_time := (time + timedelta_seconds j)%Q in
      let kept :=
        if Qle_bool start_time jittered_time && Qle_bool jittered_time end_time
        then jittered_time else time in
      let (rest', k'') := jitter_times start_time end_time rest k' in
      (kept :: rest', k'')
  end.

(** [generate_commit_schedule(start_time)], the random draws starting at
    position [k].  [None] only when [fuel] is too small for the loops. *)
Definition generate_commit_schedule (fuel : nat) (self : CommitPatternGenerator)
    (start_time : datetime) (k : nat) : option (result (list datetime) * nat) :=
  if negb (randomize self) then Some (even_schedule self start_time, k)
  else
    match random_randint rnd (min_commits self) (max_commits self) k with
    | (Raise e, k0) => Some (Raise e, k0)
    | (Ok num_commits, k0) =>
        let current_time := start_time in
        let end_time := (start_time + timedelta_hours (window_hours self))%Q in
        match walk fuel num_commits end_time [] current_time k0 with
        | None => None
        | Some (commit_times, _, k1) =>
            let filled :=
              if num_commits <? len commit_times
              then Some (slice_to commit_times num_commits, k1)
              else pad fuel self num_commits start_time commit_times k1 in
            match filled with
            | None => None
            | Some (commit_times', k2) =>
                let sorted := sort_times commit_times' in
                let (jittered_times, k3) :=
                  jitter_times start_time end_time sorted k2 in
                Some (Ok jittered_times, k3)
            end
        end
    end.

End Generator.

(* ================================================================= *)
(** ** config/settings.py *)

Definition COMMIT_WINDOW_HOURS : Z := 8.

(* ================================================================= *)
(** ** utils/scheduler_manager.py *)

Record SchedulerManager : Type := {
  pattern_generator : CommitPatternGenerator;
  schedule : list datetime;
  next_commit_idx : Z;
  is_running : bool;
  start_time : option datetime;
  total_commits : Z;
  successful_commits : Z
}.

(** [__init__], for the counts read from the settings. *)
Definition SchedulerManager_init (MIN_COMMITS_PER_DAY MAX_COMMITS_PER_DAY : Z)
    : SchedulerManager :=
  {| pattern_generator :=
       {| min_commits := MIN_COMMITS_PER_DAY;
          max_commits := MAX_COMMITS_PER_DAY;
          window_hours := COMMIT_WINDOW_HOURS;
          randomize := true |};
     schedule := [];
     next_commit_idx := 0;
     is_running := false;
     start_time := None;
     total_commits := 0;
     successful_commits := 0 |}.

(** The dict returned by [get_schedule_progress]. *)
Record Progress : Type := {
  p_total_scheduled : Z;
  p_completed : Z;
  p_remaining : Z;
  p_upcoming : Z;
  p_successful : Z;
  p_next_commit : option datetime;
  p_window_end : option datetime
}.

(** What [wait_for_next_commit] did: the value returned and the argument of
    the [asyncio.sleep] it awaited, if any. *)
Record Waited : Type := {
  returned : option datetime;
  slept : option Q
}.

Section Scheduler.

Variable rnd : nat -> Q.

(** [generate_new_schedule(start_from)]; [now] is the clock reading used
    when [start_from] is [None].  An exception of the generator leaves
    the manager as it was. *)
Definition generate_new_schedule (fuel : nat) (self : SchedulerManager)
    (start_from : option datetime) (now : datetime) (k : nat)
    : option (result (list datetime) * SchedulerManager * nat) :=
  let start_time' := match start_from with Some t => t | None => now end in
  match generate_commit_schedule rnd fuel (pattern_generator self) start_time' k with
  | None => None
  | Some (Raise e, k') => Some (Raise e, self, k')
  | Some (Ok sched, k') =>
      let self' :=
        {| pattern_generator := pattern_generator self;
           schedule := sched;
           next_commit_idx := 0;
           is_running := is_running self;
           start_time := Some start_time';
           total_commits := total_commits self;
           successful_commits := successful_commits self |} in
      Some (Ok sched, self', k')
  end.

Definition get_next_commit_time (self : SchedulerManager) : result (option datetime) :=
  if next_commit_idx self <? len (schedule self) then
    match py_index (schedule self) (next_commit_idx self) with
    | Ok t => Ok (Some t)
    | Raise e => Raise e
    end
  else Ok None.

Definition mark_commit_completed (self : SchedulerManager) (success : bool)
    : SchedulerManager :=
  {| pattern_generator := pattern_generator self;
     schedule := schedule self;
     next_commit_idx := next_commit_idx self + 1;
     is_running := is_running self;
     start_time := start_time self;
     total_commits := total_commits self + 1;
     successful_commits :=
       if success then successful_commits self + 1 else successful_commits self |}.

Definition get_schedule_progress (self : SchedulerManager) (now : datetime)
    : Progress :=
  let upcoming := filter (fun t => Qlt_bool now t) (schedule self) in
  {| p_total_scheduled := len (schedule self);
     p_completed := next_commit_idx self;
     p_remaining := len (schedule self) - next_commit_idx self;
     p_upcoming := len upcoming;
     p_successful := successful_commits self;
     p_next_commit := match upcoming with t :: _ => Some t | [] => None end;
     p_window_end :=
       match start_time self with
       | Some t => Some (t + timedelta_hours COMMIT_WINDOW_HOURS)%Q
       | None => None
       end |}.

(** [wait_for_next_commit]; the manager is only read.  [max(1, x)] keeps
    [1] unless [x] is larger. *)
Definition wait_for_next_commit (self : SchedulerManager) (now : datetime)
    (k : nat) : result Waited * nat :=
  if len (schedule self) <=? next_commit_idx self then
    (Ok {| returned := None; slept := None |}, k)
  else
    match py_index (schedule self) (next_commit_idx self) with
    | Raise e => (Raise e, k)
    | Ok next_time =>
        if Qle_bool next_time now then
          (Ok {| returned := Some next_time; slept := None |}, k)
        else
          let wait_seconds := (next_time - now)%Q in
          if Qlt_bool 0 wait_seconds then
            let (jitter, k') := random_uniform rnd (-30) 30 k in
            let wait_seconds' :=
              if Qlt_bool 1 (wait_seconds + jitter) then (wait_seconds + jitter)%Q
              else 1%Q in
            (Ok {| returned := Some next_time; slept := Some wait_seconds' |}, k')
          else (Ok {| returned := Some next_time; slept := None |}, k)
    end.

Definition should_stop (self : SchedulerManager) (now : datetime) : bool :=
  match start_time self with
  | None => false
  | Some t =>
      let window_end := (t + timedelta_hours COMMIT_WINDOW_HOURS)%Q in
      Qle_bool window_end now || (len (schedule self) <=? next_commit_idx self)
  end.

End Scheduler.

(* ================================================================= *)
(** ** Python strings *)

(** [str.isspace] on one character (code points below 256). *)
Definition is_space (c : ascii) : bool :=
  let n := nat_of_ascii c in
  (((9 <=? n) && (n <=? 13)) || ((28 <=? n) && (n <=? 32))
   || (n =? 133) || (n =? 160))%nat.

Fixpoint lstrip (s : string) : string :=
  match s with
  | EmptyString => EmptyString
  | String c s' => if is_space c then lstrip s' else s
  end.

Fixpoint string_rev_onto (s acc : string) : string :=
  match s with
  | EmptyString => acc
  | String c s' => string_rev_onto s' (String c acc)
  end.

Definition string_rev (s : string) : string := string_rev_onto s EmptyString.

(** [s.strip()] *)
Definition strip (s : string) : string :=
  string_rev (lstrip (string_rev (lstrip s))).

Definition lower_char (c : ascii) : ascii :=
  let n := nat_of_ascii c in
  if ((65 <=? n) && (n <=? 90))%nat then ascii_of_nat (n + 32) else c.

(** [s.lower()] *)
Fixpoint lower (s : string) : string :=
  match s with
  | EmptyString => EmptyString
  | String c s' => String (lower_char c) (lower s')
  end.

(** [needle in hay] *)
Fixpoint contains (needle hay : string) : bool :=
  String.prefix needle hay
  || match hay with
     | EmptyString => false
     | String _ hay' => contains needle hay'
     end.

(** Truth value of a string: empty is false. *)
Definition truthy (s : string) : bool :=
  match s with EmptyString => false | String _ _ => true end.

(* ================================================================= *)
(** ** The version-control collaborator

    The working copy and GitPython are outside the program.  Every call
    made on them is appended to [log]; what the call answers is the next
    entry of [script] (a call past the end of the script succeeds with empty
    output). *)

Inductive call : Type :=
| CreateFile (filepath content : string)  (* mkdir, open, f.write(content)  *)
| WriteReadme                        (* readme_path.write_text(...)         *)
| GitAdd (file : string)             (* repo.git.add(file)                  *)
| GitAddAll                          (* repo.git.add(A=True)                *)
| GitStatus                          (* repo.git.status(porcelain=True)     *)
| IndexCommit (message : string)     (* repo.index.commit(message)          *)
| Remotes                            (* repo.remotes, repo.remotes.origin   *)
| Pull                               (* origin.pull()                       *)
| Push                               (* origin.push()                       *)
| ActiveBranch                       (* repo.active_branch.name             *)
| PushUpstream (refspec : string).   (* origin.push(refspec, set_upstream)  *)

(** An exception of a call: a [GitCommandError] or any other [Exception];
    [msg] is what [str(e)] gives. *)
Inductive failure : Type :=
| GitCommandError (msg : string)
| OtherException (msg : string).

Definition str (e : failure) : string :=
  match e with GitCommandError m => m | OtherException m => m end.

Inductive resp : Type :=
| Returns (out : string)
| Raises (e : failure).

Record World : Type := {
  script : list resp;
  log : list call
}.

Definition perform (c : call) (w : World) : resp * World :=
  match script w with
  | [] => (Returns EmptyString, {| script := []; log := log w ++ [c] |})
  | r :: rest => (r, {| script := rest; log := log w ++ [c] |})
  end.

(** A computation over the world that may raise. *)
Definition Git (A : Type) : Type := World -> (A + failure) * World.

Definition ret {A : Type} (a : A) : Git A := fun w => (inl a, w).

Definition bind {A B : Type} (m : Git A) (f : A -> Git B) : Git B :=
  fun w =>
    match m w with
    | (inl a, w') => f a w'
    | (inr e, w') => (inr e, w')
    end.

Definition git (c : call) : Git string :=
  fun w =>
    match perform c w with
    | (Returns out, w') => (inl out, w')
    | (Raises e, w') => (inr e, w')
    end.

Notation "x <- m ;; f" := (bind m (fun x => f))
  (at level 61, m at next level, right associativity).
Notation "m ;;; f" := (bind m (fun _ => f))
  (at level 61, right associativity).

(* ================================================================= *)
(** ** agents/github_agent.py *)

Record GitHubAgent : Type := {
  is_empty_repo : bool;
  initial_commit_done : bool
}.

Local Open Scope string_scope.

(** The [try] body of [create_initial_commit]. *)
Definition create_initial_commit_body : Git unit :=
  git WriteReadme ;;;
  git GitAddAll ;;;
  git (IndexCommit "Initial commit: Setup repository structure") ;;;
  ret tt.

(** [create_initial_commit]: any exception is caught and gives [False]; the
    flags are set only when the commit was made. *)
Definition create_initial_commit (self : GitHubAgent) (w : World)
    : bool * GitHubAgent * World :=
  match create_initial_commit_body w with
  | (inl _, w') =>
      (true, {| is_empty_repo := false; initial_commit_done := true |}, w')
  | (inr _, w') => (false, self, w')
  end.

(** Staging: each file of [files], or everything when [files] is [None] or
    empty. *)
Fixpoint add_each (files : list string) : Git unit :=
  match files with
  | [] => ret tt
  | file :: rest => git (GitAdd file) ;;; add_each rest
  end.

Definition stage (files : option (list string)) : Git unit :=
  match files with
  | Some (f :: fs) => add_each (f :: fs)
  | _ => git GitAddAll ;;; ret tt
  end.

(** The push of [commit_and_push], with its inner [try]. *)
Definition push_origin : Git unit :=
  fun w =>
    match git Push w with
    | (inl _, w') => (inl tt, w')
    | (inr (GitCommandError push_error), w') =>
        if contains "no upstream branch" (lower push_error) then
          (current_branch <- git ActiveBranch ;;
           git (PushUpstream current_branch) ;;;
           ret tt) w'
        else (inr (GitCommandError push_error), w')
    | (inr e, w') => (inr e, w')
    end.

(** The outer [try] body of [commit_and_push]. *)
Definition commit_and_push_body (commit_message : string)
    (files : option (list string)) : Git (bool * string) :=
  stage files ;;;
  status_output <- git GitStatus ;;
  if negb (truthy (strip status_output)) then ret (false, "No changes to commit")
  else
    git (IndexCommit commit_message) ;;;
    remotes <- git Remotes ;;
    if truthy remotes then
      git Remotes ;;;                (* origin = self.repo.remotes.origin *)
      push_origin ;;;
      ret (true, commit_message)
    else ret (true, commit_message ++ " (local only)").

(** The test of the [except GitCommandError] handler. *)
Definition head_unresolved (e : string) : bool :=
  contains "HEAD" e
  && (contains "did not resolve" e || contains "not a valid object" e).

(** [commit_and_push]; [None] when the fuel does not cover the retries. *)
Fixpoint commit_and_push (fuel : nat) (self : GitHubAgent) (w : World)
    (commit_message : string) (files : option (list string))
    : option ((bool * string) * GitHubAgent * World) :=
  match fuel with
  | O => None
  | S fuel' =>
      match commit_and_push_body commit_message files w with
      | (inl r, w1) => Some (r, self, w1)
      | (inr (GitCommandError e), w1) =>
          if head_unresolved e then
            let self1 := {| is_empty_repo := true;
                            initial_commit_done := initial_commit_done self |} in
            let '(created, self2, w2) := create_initial_commit self1 w1 in
            if created then commit_and_push fuel' self2 w2 commit_message files
            else Some ((false, "Failed to create initial commit"), self2, w2)
          else Some ((false, e), self, w1)
      | (inr (OtherException e), w1) => Some ((false, e), self, w1)
      end
  end.

(** Every retry follows a call that raised, so one more unit of fuel than
    the script has entries is always enough. *)
Definition commit_and_push_run (self : GitHubAgent) (w : World)
    (commit_message : string) (files : option (list string))
    : option ((bool * string) * GitHubAgent * World) :=
  commit_and_push (S (List.length (script w))) self w commit_message files.

(** How often a call occurs in a log. *)
Definition is_commit (c : call) : bool :=
  match c with IndexCommit _ => true | _ => false end.

Definition is_readme (c : call) : bool :=
  match c with WriteReadme => true | _ => false end.

Definition count_calls (p : call -> bool) (l : list call) : nat :=
  List.length (filter p l).

Local Close Scope string_scope.

(* ================================================================= *)
(** ** main.py: run_scheduled_commits

    One pass of the [while] loop meets the outside world at fixed places;
    a [Tick] says what the world does there. *)

(** What [github_agent.execute] does when awaited. *)
Inductive cycle_outcome : Type :=
| Completed (success : bool) (message : string)
| CycleRaises (e : exn).

Record Tick : Type := {
  running_flag : bool;        (* self.running at the loop test              *)
  now_stop : datetime;        (* the clock read by should_stop              *)
  now_wait : datetime;        (* the clock read by wait_for_next_commit     *)
  wait_cancelled : bool;      (* the sleep of the wait is cancelled         *)
  cycle : cycle_outcome;      (* the commit cycle                           *)
  pause_cancelled : bool      (* the sleep of the handler is cancelled      *)
}.

Inductive action : Type :=
| Sleep (seconds : Q)         (* asyncio.sleep inside wait_for_next_commit  *)
| Cycle                       (* github_agent.execute                       *)
| Mark (success : bool)       (* scheduler.mark_commit_completed            *)
| Pause (seconds : Q).        (* asyncio.sleep(5) of the handler            *)

Inductive exit_reason : Type :=
| NotRunning                  (* the loop test found self.running false     *)
| ShouldStop                  (* the loop test found should_stop() true     *)
| NoMoreCommits               (* wait_for_next_commit returned None: break  *)
| Cancelled                   (* except asyncio.CancelledError: break       *)
| Propagated (e : exn).       (* an exception left the loop                 *)

Inductive step_result : Type :=
| Continue (scheduler : SchedulerManager) (k : nat) (done : list action)
| Exit (reason : exit_reason) (done : list action).

Section Orchestration.

Variable rnd : nat -> Q.

(** The two [except] clauses of the loop, for an exception [e] raised in
    the [try] body after the actions [done]. *)
Definition handle (e : exn) (t : Tick) (scheduler : SchedulerManager)
    (k : nat) (done : list action) : step_result :=
  match e with
  | CancelledError => Exit Cancelled done
  | _ =>
      if pause_cancelled t then Exit (Propagated CancelledError) (done ++ [Pause 5])
      else Continue scheduler k (done ++ [Pause 5])
  end.

(** The loop test and one execution of the loop body. *)
Definition loop_step (scheduler : SchedulerManager) (k : nat) (t : Tick)
    : step_result :=
  if negb (running_flag t) then Exit NotRunning []
  else if should_stop scheduler (now_stop t) then Exit ShouldStop []
  else
    match wait_for_next_commit rnd scheduler (now_wait t) k with
    | (Raise e, k') => handle e t scheduler k' []
    | (Ok w, k') =>
        match slept w, wait_cancelled t with
        | Some d, true => handle CancelledError t scheduler k' [Sleep d]
        | _, _ =>
            let done := match slept w with Some d => [Sleep d] | None => [] end in
            match returned w with
            | None => Exit NoMoreCommits done
            | Some _ =>
                match cycle t with
                | CycleRaises e => handle e t scheduler k' (done ++ [Cycle])
                | Completed success _ =>
                    Continue (mark_commit_completed scheduler success) k'
                             (done ++ [Cycle; Mark success])
                end
            end
        end
    end.

(** The loop over the ticks of a run; [None] as reason when the ticks end
    with the loop still running. *)
Fixpoint run_loop (ticks : list Tick) (scheduler : SchedulerManager) (k : nat)
    : list action * option exit_reason * SchedulerManager :=
  match ticks with
  | [] => ([], None, scheduler)
  | t :: rest =>
      match loop_step scheduler k t with
      | Exit r done => (done, Some r, scheduler)
      | Continue scheduler' k' done =>
          let '(done', r, final) := run_loop rest scheduler' k' in
          (done ++ done', r, final)
      end
  end.

End Orchestration.

(* ================================================================= *)
(** ** The calling protocol of the tracker

    The operations a client performs on a [SchedulerManager], and their
    execution under the protocol: every [wait_for_next_commit] that
    returned a time is followed by exactly one [mark_commit_completed]
    before the next wait.  [pending] says that such a mark is due; a trace
    that breaks the protocol has no execution.  The protocol says nothing
    about [generate_new_schedule], which may come at any place; when the
    generator raises, the tracker is as it was and the client goes on.
    [fuel] is the fuel of each generation, and a generation it does not
    cover has no execution either. *)

Inductive tracker_op : Type :=
| OpGenerate (start_from : option datetime) (now : datetime)
| OpNextCommitTime
| OpWait (now : datetime)
| OpMark (success : bool)
| OpProgress (now : datetime)
| OpShouldStop (now : datetime).

Definition is_mark (o : tracker_op) : bool :=
  match o with OpMark _ => true | _ => false end.

Definition is_generate (o : tracker_op) : bool :=
  match o with OpGenerate _ _ => true | _ => false end.

Section Protocol.

Variable rnd : nat -> Q.
Variable fuel : nat.

Fixpoint run_protocol (ops : list tracker_op) (self : SchedulerManager)
    (pending : bool) (k : nat) : option (SchedulerManager * bool * nat) :=
  match ops with
  | [] => Some (self, pending, k)
  | OpGenerate start_from now :: rest =>
      match generate_new_schedule rnd fuel self start_from now k with
      | Some (_, self', k') => run_protocol rest self' pending k'
      | None => None
      end
  | OpWait now :: rest =>
      if pending then None
      else
        match wait_for_next_commit rnd self now k with
        | (Ok w, k') =>
            run_protocol rest self
              (match returned w with Some _ => true | None => false end) k'
        | (Raise _, k') => run_protocol rest self false k'
        end
  | OpMark success :: rest =>
      if pending then run_protocol rest (mark_commit_completed self success) false k
      else None
  | OpNextCommitTime :: rest =>
      let _ := get_next_commit_time self in run_protocol rest self pending k
  | OpProgress now :: rest =>
      let _ := get_schedule_progress self now in run_protocol rest self pending k
  | OpShouldStop now :: rest =>
      let _ := should_stop self now in run_protocol rest self pending k
  end.

(** No schedule is generated between a wait that returned a time and its
    mark: every [generate_new_schedule] of the run comes when no mark is
    due. *)
Fixpoint generates_at_rest (ops : list tracker_op) (self : SchedulerManager)
    (pending : bool) (k : nat) : bool :=
  match ops with
  | [] => true
  | o :: rest =>
      (if is_generate o then negb pending else true)
      && match run_protocol [o] self pending k with
         | Some (self', pending', k') => generates_at_rest rest self' pending' k'
         | None => true
         end
  end.

End Protocol.

(** The invariant of the cursor. *)
Definition cursor_in_range (self : SchedulerManager) : Prop :=
  0 <= next_commit_idx self <= len (schedule self).

(** A window's bounds hold of every time of a list. *)
Definition within (lo hi : datetime) (ts : list datetime) : Prop :=
  Forall (fun t => (lo <= t /\ t <= hi)%Q) ts.

(** A well-formed random source: every draw is a [random()] value. *)
Definition unit_draws (rnd : nat -> Q) : Prop :=
  forall k, (0 <= rnd k /\ rnd k < 1)%Q.

(** The spacing of the deterministic schedule. *)
Definition even_interval (self : CommitPatternGenerator) : Q :=
  (inject_Z (window_hours self * 3600) / inject_Z (max_commits self))%Q.

(** The three ways out of the scheduled-commit loop. *)
Definition externally_cancelled (t : Tick) : Prop :=
  running_flag t = false
  \/ wait_cancelled t = true
  \/ cycle t = CycleRaises CancelledError
  \/ pause_cancelled t = true.

Definition window_elapsed (scheduler : SchedulerManager) (now : datetime) : Prop :=
  exists t0, start_time scheduler = Some t0
             /\ (t0 + timedelta_hours COMMIT_WINDOW_HOURS <= now)%Q.

Definition schedule_exhausted (scheduler : SchedulerManager) : Prop :=
  len (schedule scheduler) <= next_commit_idx scheduler.

(** A pass of the loop in which nothing is cancelled. *)
Definition undisturbed (t : Tick) : Prop :=
  running_flag t = true /\ wait_cancelled t = false /\ pause_cancelled t = false.

(** What the jitter loop may make of a time [t]: [t] moved by at most 120
    seconds when that stays inside the window, [t] itself otherwise. *)
Definition jittered (lo hi t t' : datetime) : Prop :=
  exists j : Q,
    (-120 <= j /\ j <= 120)%Q
    /\ t' = if Qle_bool lo (t + j) && Qle_bool (t + j) hi then (t + j)%Q else t.

(* ================================================================= *)
(** ** Sample inputs *)

(** A random source that always answers one half. *)
Definition half : nat -> Q := fun _ => (1 # 2)%Q.

(** A manager that has completed three commits, two of them successful. *)
Definition used_manager : SchedulerManager :=
  {| pattern_generator :=
       {| min_commits := 1; max_commits := 1; window_hours := 8;
          randomize := true |};
     schedule := [10%Q; 20%Q; 30%Q];
     next_commit_idx := 3;
     is_running := false;
     start_time := Some 0%Q;
     total_commits := 3;
     successful_commits := 2 |}.

(** A manager at the start of a window of three commits. *)
Definition fresh_manager : SchedulerManager :=
  {| pattern_generator := pattern_generator used_manager;
     schedule := [10%Q; 20%Q; 30%Q];
     next_commit_idx := 0;
     is_running := false;
     start_time := Some 0%Q;
     total_commits := 0;
     successful_commits := 0 |}.

Definition three_cycles : list tracker_op :=
  [OpShouldStop 1%Q; OpWait 1%Q; OpMark true; OpProgress 12%Q;
   OpWait 12%Q; OpNextCommitTime; OpMark false;
   OpWait 40%Q; OpMark true; OpWait 41%Q; OpShouldStop 41%Q].

(** A commit in one window, then a new window and a commit in it. *)
Definition two_windows : list tracker_op :=
  [OpWait 1%Q; OpMark true; OpGenerate (Some 50%Q) 50%Q; OpShouldStop 50%Q;
   OpWait 50%Q; OpMark false].

(** A manager with one commit scheduled whose generator is configured for
    no commits at all. *)
Definition manager_zero_commits : SchedulerManager :=
  {| pattern_generator :=
       {| min_commits := 0; max_commits := 0; window_hours := 8;
          randomize := true |};
     schedule := [10%Q];
     next_commit_idx := 0;
     is_running := false;
     start_time := Some 0%Q;
     total_commits := 0;
     successful_commits := 0 |}.

(** An agent on a repository believed non-empty. *)
Definition agent_nonempty : GitHubAgent :=
  {| is_empty_repo := false; initial_commit_done := false |}.

(** A working copy without pending changes: staging succeeds and the status
    is a bare newline. *)
Definition world_clean : World :=
  {| script := [Returns EmptyString; Returns (String (ascii_of_nat 10) EmptyString)];
     log := [] |}.

(** A working copy whose HEAD does not resolve at the first commit and
    again at the commit after the first recovery. *)
Definition world_headless : World :=
  {| script :=
       [ Returns EmptyString;                       (* git add -A            *)
         Returns " M notes.txt"%string;             (* git status            *)
         Raises (GitCommandError
                   "Ref 'HEAD' did not resolve to an object"%string);
         Returns EmptyString;                       (* write README          *)
         Returns EmptyString;                       (* git add -A            *)
         Returns EmptyString;                       (* initial commit        *)
         Returns EmptyString;                       (* git add -A, again     *)
         Returns "?? notes.txt"%string;             (* git status            *)
         Raises (GitCommandError
                   "fatal: HEAD is not a valid object"%string);
         Returns EmptyString;                       (* write README          *)
         Returns EmptyString;                       (* git add -A            *)
         Returns EmptyString;                       (* initial commit        *)
         Returns EmptyString;                       (* git add -A, third     *)
         Returns EmptyString ];                     (* git status: clean     *)
     log := [] |}.

(** An agent whose initial commit was made in an earlier cycle. *)
Definition agent_bootstrapped : GitHubAgent :=
  {| is_empty_repo := false; initial_commit_done := true |}.

(** A working copy whose HEAD does not resolve at the commit and in which
    the README of the recovery cannot be written. *)
Definition world_unrecoverable : World :=
  {| script :=
       [ Returns EmptyString;                       (* git add -A            *)
         Returns " M notes.txt"%string;             (* git status            *)
         Raises (GitCommandError
                   "Ref 'HEAD' did not resolve to an object"%string);
         Raises (OtherException "disk full"%string) ];  (* write README      *)
     log := [] |}.

(** A run of four passes: the first cycle raises, the second fails, the
    third succeeds, the fourth finds the window over. *)
Definition eventful_run : list Tick :=
  [ {| running_flag := true; now_stop := 11%Q; now_wait := 11%Q;
       wait_cancelled := false;
       cycle := CycleRaises (Exception "disk full");
       pause_cancelled := false |};
    {| running_flag := true; now_stop := 16%Q; now_wait := 16%Q;
       wait_cancelled := false;
       cycle := Completed false "No changes to commit";
       pause_cancelled := false |};
    {| running_flag := true; now_stop := 21%Q; now_wait := 21%Q;
       wait_cancelled := false;
       cycle := Completed true "Add notes";
       pause_cancelled := false |};
    {| running_flag := true; now_stop := 28800%Q; now_wait := 28800%Q;
       wait_cancelled := false;
       cycle := Completed true "Add notes";
       pause_cancelled := false |} ].

(** The first pass of [eventful_run]. *)
Definition raising_tick : Tick :=
  {| running_flag := true; now_stop := 11%Q; now_wait := 11%Q;
     wait_cancelled := false;
     cycle := CycleRaises (Exception "disk full");
     pause_cancelled := false |}.


(** A random source that answers the entries of a list in turn, and one
    half after them. *)
Definition draws_from (l : list Q) : nat -> Q := fun k => nth k l (1 # 2)%Q.

(** A schedule of exactly two commits. *)
Definition pair_generator : CommitPatternGenerator :=
  {| min_commits := 2; max_commits := 2; window_hours := 8; randomize := true |}.

(** Draws that make a cluster of two commits one minute apart and then
    jitter the first by +100 s and the second by -20 s. *)
Definition crossing_draws : nat -> Q :=
  draws_from
    [ (1 # 2)%Q;      (* randint(2, 2)                 -> 2 commits      *)
      (1 # 2)%Q;      (* uniform(600, 2700)            base interval     *)
      (1 # 2)%Q;      (* uniform(0.7, 1.3)             random factor     *)
      0%Q;            (* random() < 0.2                -> a cluster      *)
      0%Q;            (* randint(2, 4)                 -> cluster of 2   *)
      0%Q;            (* uniform(60, 300)              -> 60 s gap       *)
      0%Q;            (* uniform(60, 300)              -> 60 s gap       *)
      (11 # 12)%Q;    (* uniform(-120, 120)            -> +100 s jitter  *)
      (5 # 12)%Q ].   (* uniform(-120, 120)            -> -20 s jitter   *)

(* ================================================================= *)
(** ** More of Python's strings *)

(** [s.lstrip(chars)] and [s.strip(chars)] for the characters [p] holds of. *)
Fixpoint lstrip_with (p : ascii -> bool) (s : string) : string :=
  match s with
  | EmptyString => EmptyString
  | String c s' => if p c then lstrip_with p s' else s
  end.

Definition strip_with (p : ascii -> bool) (s : string) : string :=
  string_rev (lstrip_with p (string_rev (lstrip_with p s))).

Definition is_newline (c : ascii) : bool := (nat_of_ascii c =? 10)%nat.

Definition newline : string := String (ascii_of_nat 10) EmptyString.

(** The characters of the second [strip] of the commit message: the double
    and the single quote. *)
Definition is_quote (c : ascii) : bool :=
  ((nat_of_ascii c =? 34) || (nat_of_ascii c =? 39))%nat.

(** ['\n' in s] *)
Fixpoint has_newline (s : string) : bool :=
  match s with
  | EmptyString => false
  | String c s' => is_newline c || has_newline s'
  end.

(** [s.split('\n')[0]] *)
Fixpoint first_line (s : string) : string :=
  match s with
  | EmptyString => EmptyString
  | String c s' => if is_newline c then EmptyString else String c (first_line s')
  end.

(** [s[:n]] for [n >= 0]. *)
Fixpoint take (n : nat) (s : string) : string :=
  match n, s with
  | O, _ => EmptyString
  | S _, EmptyString => EmptyString
  | S n', String c s' => String c (take n' s')
  end.

(* ================================================================= *)
(** ** llm/manager.py

    The three services are outside the program.  A service answers to what
    it is sent: each has its own script of answers, one for each request in
    turn, and an answer is a function of the request.  [contacted] lists
    the services a request was sent to. *)

Inductive provider : Type := Nvidia | Google | OpenRouter.

(** What [requests.post] and the decoding of its answer give: a status code
    and the text at [choices[0].message.content] (absent when the JSON has
    no such field), or an exception. *)
Inductive http_reply : Type :=
| Response (status_code : Z) (content : option string)
| RequestFails.

(** What [model.generate_content(...).text] gives: the text or an exception. *)
Inductive genai_reply : Type :=
| Text (text : string)
| GenaiFails.

Record Keys : Type := {
  NIM_API_KEY : string;
  GOOGLE_API_KEY : string;
  OPENROUTER_API_KEY : string
}.

(** The [messages] of a chat request, as pairs of role and content: the
    system prompt, when there is one and it is not empty, then the user
    prompt. *)
Definition chat : Type := list (string * string).

Definition messages (prompt : string) (system_prompt : option string) : chat :=
  match system_prompt with
  | Some s =>
      if truthy s then [("system"%string, s); ("user"%string, prompt)]
      else [("user"%string, prompt)]
  | None => [("user"%string, prompt)]
  end.

(** The [full_prompt] sent to Gemini. *)
Definition full_prompt (prompt : string) (system_prompt : option string) : string :=
  match system_prompt with
  | Some s => if truthy s then (s ++ newline ++ newline ++ prompt)%string else prompt
  | None => prompt
  end.

Record Net : Type := {
  nvidia_replies : list (chat -> http_reply);
  google_replies : list (string -> genai_reply);
  openrouter_replies : list (chat -> http_reply);
  contacted : list provider
}.

(** The body shared by the two HTTP services: the text on status 200, [None]
    on any other status and on any exception. *)
Definition text_of_reply (r : http_reply) : option string :=
  match r with
  | Response status_code content => if status_code =? 200 then content else None
  | RequestFails => None
  end.

(** A script past its end answers with a failure. *)
Definition _try_nvidia (keys : Keys) (net : Net) (prompt : string)
    (system_prompt : option string) : option string * Net :=
  if negb (truthy (NIM_API_KEY keys)) then (None, net)
  else
    let reply :=
      match nvidia_replies net with
      | r :: _ => r (messages prompt system_prompt)
      | [] => RequestFails
      end in
    (text_of_reply reply,
     {| nvidia_replies := tl (nvidia_replies net);
        google_replies := google_replies net;
        openrouter_replies := openrouter_replies net;
        contacted := contacted net ++ [Nvidia] |}).

Definition _try_google (keys : Keys) (net : Net) (prompt : string)
    (system_prompt : option string) : option string * Net :=
  if negb (truthy (GOOGLE_API_KEY keys)) then (None, net)
  else
    let reply :=
      match google_replies net with
      | r :: _ => r (full_prompt prompt system_prompt)
      | [] => GenaiFails
      end in
    (match reply with Text text => Some text | GenaiFails => None end,
     {| nvidia_replies := nvidia_replies net;
        google_replies := tl (google_replies net);
        openrouter_replies := openrouter_replies net;
        contacted := contacted net ++ [Google] |}).

Definition _try_openrouter (keys : Keys) (net : Net) (prompt : string)
    (system_prompt : option string) : option string * Net :=
  if negb (truthy (OPENROUTER_API_KEY keys)) then (None, net)
  else
    let reply :=
      match openrouter_replies net with
      | r :: _ => r (messages prompt system_prompt)
      | [] => RequestFails
      end in
    (text_of_reply reply,
     {| nvidia_replies := nvidia_replies net;
        google_replies := google_replies net;
        openrouter_replies := tl (openrouter_replies net);
        contacted := contacted net ++ [OpenRouter] |}).

Definition try_provider (p : provider)
    : Keys -> Net -> string -> option string -> option string * Net :=
  match p with
  | Nvidia => _try_nvidia
  | Google => _try_google
  | OpenRouter => _try_openrouter
  end.

(** Truth value of an [Optional[str]]. *)
Definition truthy_result (r : option string) : bool :=
  match r with Some text => truthy text | None => false end.

(** The loop of [generate] over the providers still to try. *)
Fixpoint generate_from (providers : list provider) (keys : Keys) (net : Net)
    (prompt : string) (system_prompt : option string) : string * Net :=
  match providers with
  | [] => (EmptyString, net)
  | p :: rest =>
      match try_provider p keys net prompt system_prompt with
      | (Some text, net') =>
          if truthy text then (text, net')
          else generate_from rest keys net' prompt system_prompt
      | (None, net') => generate_from rest keys net' prompt system_prompt
      end
  end.

(** [self.providers], also the local list of [generate]. *)
Definition providers : list provider := [Nvidia; Google; OpenRouter].

(** [generate(prompt, system_prompt)]: with [start_idx = 0] the index
    [(start_idx + i) % 3] runs through the providers in their order. *)
Definition generate (keys : Keys) (net : Net) (prompt : string)
    (system_prompt : option string) : string * Net :=
  generate_from providers keys net prompt system_prompt.

Definition test_prompt : string := "Hello, are you working?"%string.

(** The loop of [test_connection], every provider being sent [test_prompt]
    without a system prompt; the dict is the list of its items in
    insertion order. *)
Fixpoint test_each (ps : list provider) (keys : Keys) (net : Net)
    : list (provider * bool) * Net :=
  match ps with
  | [] => ([], net)
  | p :: rest =>
      let (result, net') := try_provider p keys net test_prompt None in
      let (results, net'') := test_each rest keys net' in
      ((p, truthy_result result) :: results, net'')
  end.

Definition test_connection (keys : Keys) (net : Net) : list (provider * bool) * Net :=
  test_each providers keys net.

(** What a provider would answer to a request on [net] if it were tried
    now. *)
Definition answer (p : provider) (keys : Keys) (net : Net) (prompt : string)
    (system_prompt : option string) : option string :=
  fst (try_provider p keys net prompt system_prompt).

Definition has_key (p : provider) (keys : Keys) : bool :=
  match p with
  | Nvidia => truthy (NIM_API_KEY keys)
  | Google => truthy (GOOGLE_API_KEY keys)
  | OpenRouter => truthy (OPENROUTER_API_KEY keys)
  end.

(* ================================================================= *)
(** ** agents/github_agent.py: the commit message *)

(** The part of [generate_commit_message] after the text has come back from
    the LLM; [stamp] is [datetime.now().strftime('%Y-%m-%d %H:%M')]. *)
Definition clean_commit_message (message stamp : string) : string :=
  let message :=
    if truthy message then
      let message := strip_with is_quote (strip message) in
      let message :=
        if has_newline message then strip (first_line message) else message in
      if (72 <? String.length message)%nat
      then (take 69 message ++ "...")%string
      else message
    else message in
  if truthy message then message else ("Update: " ++ stamp)%string.

(** The prompt of [generate_commit_message]. *)
Definition commit_prompt (changes_summary : string) : string :=
  let indent := "        "%string in
  ("Generate a concise, professional commit message for a GitHub repository."
   ++ newline ++ indent
   ++ newline ++ indent
   ++ "Context: This is part of an automated content generation system."
   ++ newline ++ indent
   ++ "Changes: "
   ++ (if truthy changes_summary then changes_summary
       else "Added or modified content files")
   ++ newline ++ indent
   ++ newline ++ indent ++ "Requirements:"
   ++ newline ++ indent ++ "- Use conventional commit format if appropriate"
   ++ newline ++ indent ++ "- Keep it under 72 characters"
   ++ newline ++ indent ++ "- Make it descriptive but concise"
   ++ newline ++ indent ++ "- Use present tense"
   ++ newline ++ indent
   ++ newline ++ indent ++ "Commit message:")%string.

(** [generate_commit_message(changes_summary)]: the text [generate] gives
    for the prompt, without a system prompt, cleaned. *)
Definition generate_commit_message (keys : Keys) (net : Net)
    (changes_summary stamp : string) : string * Net :=
  let (message, net') := generate keys net (commit_prompt changes_summary) None in
  (clean_commit_message message stamp, net').

(* ================================================================= *)
(** ** agents/base_agent.py and agents/github_agent.py: setup

    [disk] says what the file system and GitPython do during [_setup]; each
    of these calls is made at most once. *)

(** What [list(repo.iter_commits())] gives. *)
Inductive history : Type :=
| Commits (n : nat)          (* a list of [n] commits        *)
| HistoryValueError          (* [ValueError]: no commits yet *)
| HistoryFails.              (* any other exception          *)

Record Disk : Type := {
  mkdir_ok : bool;                  (* repo_path.mkdir does not raise          *)
  git_dir_exists : bool;            (* (repo_path / ".git").exists()           *)
  clone_from : option history;      (* Repo.clone_from: None when it raises    *)
  open_repo : option history;       (* Repo(repo_path): None when it raises    *)
  init_ok : bool                    (* Repo.init does not raise                *)
}.

(** The agent with its repository handle ([repo] says that [self.repo] is not
    [None]) and the flag of [BaseAgent]. *)
Record Handle : Type := {
  agent_flags : GitHubAgent;
  repo : bool;
  initialized : bool
}.

(** [GitHubAgent.__init__] *)
Definition GitHubAgent_init : Handle :=
  {| agent_flags := {| is_empty_repo := false; initial_commit_done := false |};
     repo := false;
     initialized := false |}.

(** [_check_if_repo_empty]: every exception is caught and means empty. *)
Definition _check_if_repo_empty (h : history) : bool :=
  match h with
  | Commits n => (n =? 0)%nat
  | HistoryValueError => true
  | HistoryFails => true
  end.

(** [_initialize_new_repo]; a failure to add the remote is caught inside and
    changes nothing here. *)
Definition _initialize_new_repo (self : Handle) (disk : Disk) : result Handle :=
  if init_ok disk then
    Ok {| agent_flags :=
            {| is_empty_repo := true;
               initial_commit_done := initial_commit_done (agent_flags self) |};
          repo := true;
          initialized := initialized self |}
  else Raise (Exception "init").

(** [_setup] *)
Definition _setup (self : Handle) (disk : Disk) : result Handle :=
  if negb (mkdir_ok disk) then Raise (Exception "mkdir")
  else
    match (if git_dir_exists disk then open_repo disk else clone_from disk) with
    | Some h =>
        Ok {| agent_flags :=
                {| is_empty_repo := _check_if_repo_empty h;
                   initial_commit_done := initial_commit_done (agent_flags self) |};
              repo := true;
              initialized := initialized self |}
    | None => _initialize_new_repo self disk
    end.

(** [BaseAgent.initialize] *)
Definition initialize (self : Handle) (disk : Disk) : bool * Handle :=
  match _setup self disk with
  | Ok self' =>
      (true, {| agent_flags := agent_flags self'; repo := repo self';
                initialized := true |})
  | Raise _ => (false, self)
  end.

(* ================================================================= *)
(** ** agents/github_agent.py: the commit cycle *)

(** What [await content_agent.execute()] does. *)
Inductive content_outcome : Type :=
| Produced (content fname : string)
| ContentFails (msg : string).

(** What one cycle meets outside the working copy and the LLM services:
    the content agent and the clock, in the three formats it is read in. *)
Record CycleEnv : Type := {
  content_agent : option content_outcome;  (* None: no content agent is passed *)
  minute_stamp : string;                   (* now.strftime('%Y-%m-%d %H:%M')   *)
  iso_stamp : string;                      (* now.isoformat()                  *)
  file_stamp : string                      (* now.strftime('%Y%m%d_%H%M%S')    *)
}.

(** [pull_latest]: a [GitCommandError] is caught, any other exception
    leaves the function.  The remotes are read for the test and read again
    for [origin]. *)
Definition pull_latest (self : GitHubAgent) : Git bool :=
  fun w =>
    let body : Git bool :=
      if is_empty_repo self then ret true
      else
        remotes <- git Remotes ;;
        if negb (truthy remotes) then ret true
        else
          git Remotes ;;;              (* origin = self.repo.remotes.origin *)
          git Pull ;;;
          ret true in
    match body w with
    | (inr (GitCommandError e), w') =>
        (inl (contains "no upstream branch" (lower e)), w')
    | other => other
    end.

(** [create_file]: every exception is caught and gives [False]. *)
Definition create_file (filepath content : string) : Git bool :=
  fun w =>
    match git (CreateFile filepath content) w with
    | (inl _, w') => (inl true, w')
    | (inr _, w') => (inl false, w')
    end.

(** The content step of [execute]: the article of the content agent when
    it gives a text and a name, a time-stamp file otherwise; what
    [create_file] returns is not looked at.  The value is the summary of
    the changes; an exception of the content agent leaves the step. *)
Definition produce_content (env : CycleEnv) : Git string :=
  let timestamp_file : Git string :=
    let filename := ("updates/update_" ++ file_stamp env ++ ".txt")%string in
    create_file filename ("Automated update at " ++ iso_stamp env)%string ;;;
    ret ("Added timestamp file: " ++ filename)%string in
  match content_agent env with
  | Some (ContentFails msg) => fun w => (inr (OtherException msg), w)
  | Some (Produced content fname) =>
      if truthy content && truthy fname then
        create_file fname content ;;;
        ret ("Added new article: " ++ fname)%string
      else timestamp_file
  | None => timestamp_file
  end.

(** The first commit of [execute], README and content together. *)
Definition first_commit (commit_message : string) : Git unit :=
  git WriteReadme ;;;
  git GitAddAll ;;;
  git (IndexCommit commit_message) ;;;
  ret tt.

(** The push of the first commit, always with the upstream set. *)
Definition first_push : Git unit :=
  current_branch <- git ActiveBranch ;;
  git (PushUpstream current_branch) ;;;
  ret tt.

(** [execute(content_agent)]; [None] only if [commit_and_push] had no
    result. *)
Definition execute (self : Handle) (env : CycleEnv) (keys : Keys) (net : Net)
    (w : World) : option ((bool * string) * Handle * World * Net) :=
  let with_flags (f : GitHubAgent) : Handle :=
    {| agent_flags := f; repo := repo self; initialized := initialized self |} in
  if negb (repo self) then
    Some ((false, "Repository not initialized"%string), self, w, net)
  else if is_empty_repo (agent_flags self) then
    match produce_content env w with
    | (inr e, w0) => Some ((false, str e), self, w0, net)
    | (inl changes_summary, w0) =>
        let (commit_message, net') :=
          generate_commit_message keys net changes_summary (minute_stamp env) in
        match first_commit commit_message w0 with
        | (inr e, w1) => Some ((false, str e), self, w1, net')
        | (inl _, w1) =>
            let self' :=
              with_flags {| is_empty_repo := false; initial_commit_done := true |} in
            match git Remotes w1 with
            | (inr e, w2) => Some ((false, str e), self', w2, net')
            | (inl remotes, w2) =>
                if truthy remotes then
                  match git Remotes w2 with  (* origin = self.repo.remotes.origin *)
                  | (inr e, w3) => Some ((false, str e), self', w3, net')
                  | (inl _, w3) =>
                      match first_push w3 with
                      | (inr e, w4) =>
                          Some ((false,
                                 ("Initial commit created but push failed: "
                                  ++ str e)%string),
                                self', w4, net')
                      | (inl _, w4) =>
                          Some ((true, commit_message), self', w4, net')
                      end
                  end
                else Some ((true, commit_message), self', w2, net')
            end
        end
    end
  else
    match pull_latest (agent_flags self) w with
    | (inr e, w1) => Some ((false, str e), self, w1, net)
    | (inl _, w1) =>
        match produce_content env w1 with
        | (inr e, w2) => Some ((false, str e), self, w2, net)
        | (inl changes_summary, w2) =>
            let (commit_message, net') :=
              generate_commit_message keys net changes_summary (minute_stamp env) in
            match commit_and_push_run (agent_flags self) w2 commit_message None with
            | None => None
            | Some ((success, result_message), flags', w3) =>
                if success
                then Some ((true, commit_message), with_flags flags', w3, net')
                else Some ((false, result_message), with_flags flags', w3, net')
            end
        end
    end.

(** The file a cycle writes and the summary of its changes, read off the
    content agent and the clock. *)
Definition cycle_file (env : CycleEnv) : string * string :=
  let fallback :=
    (("updates/update_" ++ file_stamp env ++ ".txt")%string,
     ("Automated update at " ++ iso_stamp env)%string) in
  match content_agent env with
  | Some (Produced content fname) =>
      if truthy content && truthy fname then (fname, content) else fallback
  | _ => fallback
  end.

Definition changes_summary_of (env : CycleEnv) : string :=
  match content_agent env with
  | Some (Produced content fname) =>
      if truthy content && truthy fname
      then ("Added new article: " ++ fname)%string
      else ("Added timestamp file: " ++ fst (cycle_file env))%string
  | _ => ("Added timestamp file: " ++ fst (cycle_file env))%string
  end.

Definition is_push (c : call) : bool :=
  match c with Push => true | _ => false end.

Definition is_push_upstream (c : call) : bool :=
  match c with PushUpstream _ => true | _ => false end.

(* ================================================================= *)
(** ** main.py: the whole of run_scheduled_commits *)

Section Session.

Variable rnd : nat -> Q.

(** [run_scheduled_commits]: the schedule is generated for the clock
    reading [now], then the loop runs over the ticks.  An exception of the
    generator leaves the function before the loop. *)
Definition run_scheduled_commits (fuel : nat) (scheduler : SchedulerManager)
    (now : datetime) (ticks : list Tick) (k : nat)
    : option (result (list action * option exit_reason * SchedulerManager)) :=
  match generate_new_schedule rnd fuel scheduler (Some now) now k with
  | None => None
  | Some (Raise e, _, _) => Some (Raise e)
  | Some (Ok _, scheduler', k') => Some (Ok (run_loop rnd ticks scheduler' k'))
  end.

End Session.

Definition is_mark_action (a : action) : bool :=
  match a with Mark _ => true | _ => false end.

Definition is_cycle_action (a : action) : bool :=
  match a with Cycle => true | _ => false end.

Definition is_success_mark (a : action) : bool :=
  match a with Mark true => true | _ => false end.

Definition count_actions (p : action -> bool) (l : list action) : Z :=
  len (filter p l).

Definition is_success_op (o : tracker_op) : bool :=
  match o with OpMark true => true | _ => false end.

(** The text of an [Optional[str]], empty for [None]. *)
Definition text_of (r : option string) : string :=
  match r with Some text => text | None => EmptyString end.

(** The providers [generate] tries before [p]. *)
Definition earlier (p : provider) : list provider :=
  match p with
  | Nvidia => []
  | Google => [Nvidia]
  | OpenRouter => [Nvidia; Google]
  end.

(** A computation never removes calls that [p] counts from the log. *)
Definition keeping {A : Type} (p : call -> bool) (m : Git A) : Prop :=
  forall w r w',
    m w = (r, w') -> (count_calls p (log w) <= count_calls p (log w'))%nat.

(** A cycle without a content agent. *)
Definition env_plain : CycleEnv :=
  {| content_agent := None;
     minute_stamp := "2026-01-31 09:15"%string;
     iso_stamp := "2026-01-31T09:15:02.125000"%string;
     file_stamp := "20260131_091502"%string |}.


(** A working copy with a remote whose pull fails for want of an upstream. *)
Definition world_with_remote : World :=
  {| script := [Returns "origin"%string;        (* repo.remotes               *)
                Returns "origin"%string;        (* repo.remotes.origin        *)
                Raises (GitCommandError "fatal: no upstream branch"%string)];
     log := [] |}.


Definition handle_nonempty : Handle :=
  {| agent_flags := agent_nonempty; repo := true; initialized := true |}.

(** One provider with a key, answering every request with a quoted
    message. *)
Definition keys_nvidia : Keys :=
  {| NIM_API_KEY := "k"; GOOGLE_API_KEY := ""; OPENROUTER_API_KEY := "" |}.

Definition net_quoted : Net :=
  {| nvidia_replies :=
       [fun _ => Response 200 (Some (String (ascii_of_nat 34)
                                ("Add notes" ++ String (ascii_of_nat 34) "")))%string];
     google_replies := [];
     openrouter_replies := [];
     contacted := [] |}.

(** A service that answers the greeting of [test_connection] and nothing
    else. *)
Definition net_greeter : Net :=
  {| nvidia_replies :=
       [fun request =>
          match request with
          | [(_, prompt)] =>
              if String.eqb prompt test_prompt
              then Response 200 (Some "Yes"%string)
              else Response 200 (Some EmptyString)
          | _ => Response 200 (Some EmptyString)
          end];
     google_replies := [];
     openrouter_replies := [];
     contacted := [] |}.

(** A working copy with pending changes and a remote that takes the pull
    and the push. *)
Definition world_pushing : World :=
  {| script := [Returns "origin"%string;        (* repo.remotes, for the pull *)
                Returns "origin"%string;        (* repo.remotes.origin        *)
                Returns EmptyString;            (* pull                       *)
                Returns EmptyString;            (* the file of the cycle      *)
                Returns EmptyString;            (* git add -A                 *)
                Returns " M notes.txt"%string;  (* git status                 *)
                Returns EmptyString;            (* commit                     *)
                Returns "origin"%string;        (* repo.remotes               *)
                Returns "origin"%string;        (* repo.remotes.origin        *)
                Returns EmptyString];           (* push                       *)
     log := [] |}.


(* ================================================================= *)
(** ** Floats and microseconds

    In the deterministic branch of [generate_commit_schedule] the interval
    and the offsets [i*interval] are Python floats, and
    [timedelta(seconds=...)] keeps a whole number of microseconds.  A float
    is the rational number it stands for; an operation on floats is the
    exact operation followed by [round_double], the rounding of IEEE 754
    binary64 to the nearest of the numbers with 53 significant bits, ties
    to the even one.  Exponents are not bounded: overflow and subnormal
    numbers, which the values met here are far from, are not modelled. *)

(** The nearest integer, ties to the even one: [round] on a float. *)
Definition round_half_even (x : Q) : Z :=
  let f := Qfloor x in
  match Qcompare (x - inject_Z f) (1 # 2) with
  | Lt => f
  | Gt => f + 1
  | Eq => if Z.even f then f else f + 1
  end.

Definition pow2 (e : Z) : Q := (2 ^ e)%Q.

(** For [0 < x], the exponent [e] with [2^e <= x < 2^(e+1)]. *)
Definition binade (x : Q) : Z :=
  let l := Z.log2 (Qnum x) - Z.log2 (Zpos (Qden x)) in
  if Qle_bool (pow2 l) x then l else l - 1.

(** For [0 < x], the nearest multiple of [2^(binade x - 52)]. *)
Definition round_to_precision (x : Q) : Q :=
  let e := binade x - 52 in
  (inject_Z (round_half_even (x / pow2 e)) * pow2 e)%Q.

Definition round_double (x : Q) : Q :=
  match Qcompare x 0 with
  | Eq => 0%Q
  | Gt => round_to_precision x
  | Lt => (- round_to_precision (- x))%Q
  end.

(** Half the distance from 1 to the next float, [2^-53]. *)
Definition unit_roundoff : Q := 1 # 9007199254740992.

(** [float(i)], [a / b] on two ints ([b] not zero) and [x * y] on floats. *)
Definition float_of_int (i : Z) : Q := round_double (inject_Z i).

Definition true_divide (a b : Z) : Q := round_double (inject_Z a / inject_Z b).

Definition float_mul (x y : Q) : Q := round_double (x * y).

(** The integral part of a float, towards zero ([modf]). *)
Definition trunc (x : Q) : Z := if Qle_bool 0 x then Qfloor x else Qceiling x.

(** [timedelta(seconds=x)] for a float [x]: the whole seconds count a
    million microseconds each, the fraction is multiplied by [1e6] in
    floating point, and what is left of a microsecond is rounded to the
    nearest, ties to even. *)
Definition timedelta_seconds_float (seconds : Q) : timedelta :=
  let intpart := trunc seconds in
  let fracpart := (seconds - inject_Z intpart)%Q in
  let microseconds :=
    intpart * 1000000 + round_half_even (float_mul 1000000 fracpart) in
  (inject_Z microseconds / 1000000)%Q.

(** The deterministic branch of [generate_commit_schedule] as it is
    computed: [interval] is the float quotient of two ints, [i*interval]
    the float product of [float(i)] and [interval], and the sum of a
    [datetime] and a [timedelta] is exact. *)
Definition even_schedule_float (self : CommitPatternGenerator)
    (start_time : datetime) : result (list datetime) :=
  let num_commits := max_commits self in
  if num_commits =? 0 then Raise ZeroDivisionError
  else
    let interval := true_divide (window_hours self * 3600) num_commits in
    Ok (map (fun i =>
               (start_time
                + timedelta_seconds_float (float_mul (float_of_int i) interval))%Q)
            (range num_commits)).

(** [generate_commit_schedule] with its deterministic branch as it is
    computed; the random branch is the one above. *)
Definition generate_commit_schedule_float (rnd : nat -> Q) (fuel : nat)
    (self : CommitPatternGenerator) (start_time : datetime) (k : nat)
    : option (result (list datetime) * nat) :=
  if negb (randomize self) then Some (even_schedule_float self start_time, k)
  else generate_commit_schedule rnd fuel self start_time k.

(** Seven commits in an eight-hour window, evenly spaced. *)
Definition seven_generator : CommitPatternGenerator :=
  {| min_commits := 7; max_commits := 7; window_hours := 8; randomize := false |}.

(** A microsecond, in seconds. *)
Definition microsecond : Q := 1 # 1000000.

(* ================================================================= *)
(** * Properties *)

(* ----------------------------------------------------------------- *)
(** ** Lists and times *)

Lemma len_nonneg {A : Type} (xs : list A) : 0 <= len xs.
Proof. unfold len. lia. Qed.

Lemma len_app_one {A : Type} (xs : list A) (x : A) : len (xs ++ [x]) = len xs + 1.
Proof. unfold len. rewrite length_app. simpl. lia. Qed.

Lemma Qlt_bool_iff (a b : Q) : Qlt_bool a b = true <-> (a < b)%Q.
Proof.
  unfold Qlt_bool. rewrite negb_true_iff.
  split; intro H.
  - apply Qnot_le_lt. intro Hle. apply Qle_bool_iff in Hle. congruence.
  - destruct (Qle_bool b a) eqn:E; [|reflexivity].
    apply Qle_bool_iff in E. exfalso. apply (Qlt_not_le _ _ H E).
Qed.

Lemma Qlt_bool_false_iff (a b : Q) : Qlt_bool a b = false <-> (b <= a)%Q.
Proof.
  unfold Qlt_bool. rewrite negb_false_iff. apply Qle_bool_iff.
Qed.

Lemma Qle_bool_false_iff (a b : Q) : Qle_bool a b = false <-> (b < a)%Q.
Proof.
  split; intro H.
  - apply Qnot_le_lt. intro Hle. apply Qle_bool_iff in Hle. congruence.
  - destruct (Qle_bool a b) eqn:E; [|reflexivity].
    apply Qle_bool_iff in E. exfalso. apply (Qlt_not_le _ _ H E).
Qed.

Lemma range_length (n : Z) : 0 <= n -> len (range n) = n.
Proof.
  intro H. unfold len, range. rewrite length_map, length_seq. lia.
Qed.

Lemma range_nth (n i : Z) :
  0 <= i < n -> nth_error (range n) (Z.to_nat i) = Some i.
Proof.
  intro H. unfold range.
  rewrite nth_error_map, nth_error_seq.
  destruct (Nat.ltb_spec (Z.to_nat i) (Z.to_nat n)); [|lia].
  simpl. f_equal. lia.
Qed.

(* ----------------------------------------------------------------- *)
(** ** The deterministic schedule *)

(** In exact arithmetic: with [randomize] false and a positive
    [max_commits], [generate_commit_schedule] returns, whatever the random
    source, the fuel and the position in the source, the same list of
    exactly [max_commits] times, the i-th being
    [start_time + i * (window_hours * 3600 / max_commits)]; it consumes no
    random draw. *)
Lemma generate_commit_schedule_even (self : CommitPatternGenerator)
    (start : datetime) :
  randomize self = false ->
  0 < max_commits self ->
  exists times,
    (forall rnd fuel k,
        generate_commit_schedule rnd fuel self start k = Some (Ok times, k))
    /\ len times = max_commits self
    /\ (forall i, 0 <= i < max_commits self ->
          nth_error times (Z.to_nat i)
          = Some (start + inject_Z i * even_interval self)%Q).
Proof.
  intros Hr Hmax.
  exists (map (fun i => (start + inject_Z i * even_interval self)%Q)
              (range (max_commits self))).
  split; [|split].
  - intros rnd fuel k. unfold generate_commit_schedule, even_schedule.
    rewrite Hr. simpl.
    destruct (Z.eqb_spec (max_commits self) 0) as [E|_]; [lia|].
    reflexivity.
  - unfold len. rewrite length_map. apply range_length. lia.
  - intros i Hi. rewrite nth_error_map, range_nth by exact Hi. reflexivity.
Qed.

(** *** Rounding *)

Lemma round_half_even_close (x : Q) :
  (x - (1 # 2) <= inject_Z (round_half_even x)
   /\ inject_Z (round_half_even x) <= x + (1 # 2))%Q.
Proof.
  unfold round_half_even.
  pose proof (Qfloor_le x) as H1. pose proof (Qlt_floor x) as H2.
  rewrite inject_Z_plus in H2. change (inject_Z 1) with 1%Q in H2.
  destruct (Qcompare_spec (x - inject_Z (Qfloor x)) (1 # 2)) as [E|E|E].
  - destruct (Z.even (Qfloor x));
      [|rewrite inject_Z_plus; change (inject_Z 1) with 1%Q]; split; lra.
  - split; lra.
  - rewrite inject_Z_plus. change (inject_Z 1) with 1%Q. split; lra.
Qed.

Lemma pow2_pos (e : Z) : (0 < pow2 e)%Q.
Proof. unfold pow2. apply Qpower_0_lt. reflexivity. Qed.

Lemma pow2_plus (a b : Z) : (pow2 (a + b) == pow2 a * pow2 b)%Q.
Proof. unfold pow2. apply Qpower_plus. discriminate. Qed.

Lemma pow2_inject (a : Z) : 0 <= a -> (pow2 a == inject_Z (2 ^ a))%Q.
Proof. intro H. unfold pow2. rewrite Zpower_Qpower by exact H. reflexivity. Qed.

Lemma inject_Z_pos (z : Z) : 0 < z -> (0 < inject_Z z)%Q.
Proof. intro H. unfold Qlt. simpl. lia. Qed.

Lemma Qdiv_le_cross (A B P D : Q) :
  (0 < A -> A <= P -> 0 < D -> D <= B -> A / B <= P / D)%Q.
Proof.
  intros HA HAP HD HDB.
  assert (HB : (0 < B)%Q) by lra.
  apply Qle_shift_div_l; [exact HD|].
  apply Qle_trans with (A / B * B)%Q.
  - apply Qmult_le_l; [|exact HDB]. apply Qlt_shift_div_l; lra.
  - assert (E : (A / B * B == A)%Q) by (field; lra). rewrite E. exact HAP.
Qed.

Lemma Qdiv_lt_cross (P D A B : Q) :
  (0 <= P -> P < A -> 0 < B -> B <= D -> P / D < A / B)%Q.
Proof.
  intros HP HPA HB HBD.
  assert (HD : (0 < D)%Q) by lra.
  apply Qlt_shift_div_r; [exact HD|].
  apply Qlt_le_trans with (A / B * B)%Q.
  - assert (E : (A / B * B == A)%Q) by (field; lra). rewrite E. exact HPA.
  - apply Qmult_le_l; [|exact HBD]. apply Qlt_shift_div_l; lra.
Qed.

(** [binade] is the exponent of the binade of [x]. *)
Lemma binade_spec (x : Q) :
  (0 < x)%Q -> (pow2 (binade x) <= x /\ x < pow2 (binade x + 1))%Q.
Proof.
  intro Hx. destruct x as [p q].
  assert (Hp : 0 < p) by (unfold Qlt in Hx; simpl in Hx; lia).
  unfold binade. cbn [Qnum Qden].
  destruct (Z.log2_spec p Hp) as [Ha1 Ha2].
  destruct (Z.log2_spec (Zpos q) eq_refl) as [Hb1 Hb2].
  pose proof (Z.log2_nonneg p) as Ha0.
  pose proof (Z.log2_nonneg (Zpos q)) as Hb0.
  set (a := Z.log2 p) in *. set (b := Z.log2 (Zpos q)) in *.
  assert (Ex : (p # q == inject_Z p / inject_Z (Zpos q))%Q) by apply Qmake_Qdiv.
  assert (HP : (0 < inject_Z p)%Q) by (apply inject_Z_pos; exact Hp).
  assert (HD : (0 < inject_Z (Zpos q))%Q) by reflexivity.
  assert (Lower : (pow2 (a - b - 1) <= p # q)%Q).
  { replace (a - b - 1) with (a - (b + 1)) by lia.
    unfold pow2 at 1. rewrite Qpower_minus by discriminate.
    fold (pow2 a). fold (pow2 (b + 1)).
    rewrite Ex, (pow2_inject a), (pow2_inject (b + 1)) by lia.
    apply Qdiv_le_cross.
    - apply inject_Z_pos. apply Z.pow_pos_nonneg; lia.
    - rewrite <- Zle_Qle. exact Ha1.
    - exact HD.
    - rewrite <- Zle_Qle. replace (b + 1) with (Z.succ b) by lia. lia. }
  assert (Upper : (p # q < pow2 (a - b + 1))%Q).
  { replace (a - b + 1) with (a + 1 - b) by lia.
    unfold pow2. rewrite Qpower_minus by discriminate.
    fold (pow2 (a + 1)). fold (pow2 b).
    rewrite Ex, (pow2_inject (a + 1)), (pow2_inject b) by lia.
    apply Qdiv_lt_cross.
    - lra.
    - rewrite <- Zlt_Qlt. replace (a + 1) with (Z.succ a) by lia. exact Ha2.
    - apply inject_Z_pos. apply Z.pow_pos_nonneg; lia.
    - rewrite <- Zle_Qle. exact Hb1. }
  destruct (Qle_bool (pow2 (a - b)) (p # q)) eqn:T.
  - split; [apply Qle_bool_iff; exact T | exact Upper].
  - split; [exact Lower|].
    replace (a - b - 1 + 1) with (a - b) by lia.
    apply Qnot_le_lt. intro H. apply Qle_bool_iff in H. congruence.
Qed.

Lemma round_to_precision_close (x : Q) :
  (0 < x)%Q ->
  (x - x * unit_roundoff <= round_to_precision x
   /\ round_to_precision x <= x + x * unit_roundoff)%Q.
Proof.
  intro Hx. unfold round_to_precision.
  destruct (binade_spec x Hx) as [Hlo _].
  set (e := binade x - 52) in *.
  replace (binade x) with (e + 52) in Hlo by (unfold e; lia).
  rewrite pow2_plus in Hlo.
  assert (E52 : (pow2 52 == 4503599627370496)%Q) by reflexivity.
  rewrite E52 in Hlo.
  pose proof (pow2_pos e) as HP.
  set (P := pow2 e) in *.
  destruct (round_half_even_close (x / P)) as [R1 R2].
  set (M := inject_Z (round_half_even (x / P))) in *.
  assert (Em : (x / P * P == x)%Q) by (field; lra).
  assert (U : (M * P <= (x / P + (1 # 2)) * P)%Q)
    by (apply Qmult_le_compat_r; lra).
  assert (L : ((x / P - (1 # 2)) * P <= M * P)%Q)
    by (apply Qmult_le_compat_r; lra).
  unfold unit_roundoff. split; lra.
Qed.

(** The relative error of a rounding is at most [2^-53]. *)
Lemma round_double_close (x : Q) :
  (0 <= x)%Q ->
  (x - x * unit_roundoff <= round_double x
   /\ round_double x <= x + x * unit_roundoff)%Q.
Proof.
  intro Hx. unfold round_double.
  destruct (Qcompare_spec x 0) as [E|E|E].
  - rewrite E. unfold unit_roundoff. split; lra.
  - lra.
  - apply round_to_precision_close. exact E.
Qed.

(** [timedelta(seconds=y)] is within half a microsecond, and the rounding
    of the fraction, of [y]. *)
Lemma timedelta_seconds_float_close (y : Q) :
  (0 <= y)%Q ->
  (1000000 * y - ((1 # 2) + 1000000 * unit_roundoff)
     <= 1000000 * timedelta_seconds_float y
   /\ 1000000 * timedelta_seconds_float y
      <= 1000000 * y + ((1 # 2) + 1000000 * unit_roundoff))%Q.
Proof.
  intro Hy. unfold timedelta_seconds_float, float_mul, trunc.
  assert (T : Qle_bool 0 y = true) by (apply Qle_bool_iff; exact Hy).
  rewrite T.
  pose proof (Qfloor_le y) as F1. pose proof (Qlt_floor y) as F2.
  rewrite inject_Z_plus in F2. change (inject_Z 1) with 1%Q in F2.
  set (ip := Qfloor y) in *.
  set (z := (1000000 * (y - inject_Z ip))%Q).
  assert (Hz : (0 <= z /\ z < 1000000)%Q) by (unfold z; split; lra).
  destruct (round_double_close z (proj1 Hz)) as [D1 D2].
  destruct (round_half_even_close (round_double z)) as [R1 R2].
  rewrite inject_Z_plus, inject_Z_mult.
  change (inject_Z 1000000) with 1000000%Q.
  set (u := inject_Z (round_half_even (round_double z))) in *.
  assert (E : (1000000 * ((inject_Z ip * 1000000 + u) / 1000000)
               == inject_Z ip * 1000000 + u)%Q) by (field; lra).
  rewrite E. unfold unit_roundoff in *. unfold z in *. split; lra.
Qed.

(** The offset of the i-th time as it is computed is within a microsecond
    of [i * (D / n)], for a duration [D] of at most [10^9] seconds. *)
Lemma float_offset_close (D n i : Z) :
  0 <= D <= 1000000000 -> 0 < n -> 0 <= i < n ->
  let offset :=
    timedelta_seconds_float (float_mul (float_of_int i) (true_divide D n)) in
  (inject_Z i * (inject_Z D / inject_Z n) - microsecond <= offset
   /\ offset <= inject_Z i * (inject_Z D / inject_Z n) + microsecond)%Q.
Proof.
  intros HD Hn Hi. cbv zeta. unfold float_mul, float_of_int, true_divide.
  assert (Hn' : (0 < inject_Z n)%Q) by (apply inject_Z_pos; exact Hn).
  assert (HD0 : (0 <= inject_Z D)%Q) by (rewrite Zle_Qle in HD; apply HD).
  assert (HD1 : (inject_Z D <= 1000000000)%Q).
  { change 1000000000%Q with (inject_Z 1000000000). rewrite <- Zle_Qle. lia. }
  assert (Hi0 : (0 <= inject_Z i)%Q).
  { change 0%Q with (inject_Z 0). rewrite <- Zle_Qle. lia. }
  assert (Hin : (inject_Z i <= inject_Z n)%Q) by (rewrite <- Zle_Qle; lia).
  set (a := (inject_Z D / inject_Z n)%Q).
  assert (Ha0 : (0 <= a)%Q).
  { unfold a. apply Qle_shift_div_l; [exact Hn'|]. lra. }
  assert (Ean : (a * inject_Z n == inject_Z D)%Q) by (unfold a; field; lra).
  set (X := (inject_Z i * a)%Q).
  assert (HX0 : (0 <= X)%Q) by (unfold X; apply Qmult_le_0_compat; assumption).
  assert (HX1 : (X <= 1000000000)%Q).
  { apply Qle_trans with (inject_Z D); [|exact HD1].
    rewrite <- Ean. unfold X. rewrite (Qmult_comm a).
    apply Qmult_le_compat_r; assumption. }
  destruct (round_double_close a Ha0) as [I1 I2].
  destruct (round_double_close (inject_Z i) Hi0) as [J1 J2].
  set (I := round_double a) in *. set (fi := round_double (inject_Z i)) in *.
  assert (HI0 : (0 <= I)%Q) by (unfold unit_roundoff in *; nra).
  assert (Hf0 : (0 <= fi)%Q) by (unfold unit_roundoff in *; nra).
  assert (P0 : (0 <= fi * I)%Q) by (apply Qmult_le_0_compat; assumption).
  assert (P2 : (fi * I <= X * ((1 + unit_roundoff) * (1 + unit_roundoff)))%Q).
  { apply Qle_trans with ((inject_Z i + inject_Z i * unit_roundoff) * I)%Q.
    - apply Qmult_le_compat_r; assumption.
    - apply Qle_trans
        with ((inject_Z i + inject_Z i * unit_roundoff) * (a + a * unit_roundoff))%Q.
      + rewrite !(Qmult_comm (inject_Z i + inject_Z i * unit_roundoff)).
        apply Qmult_le_compat_r; [exact I2|]. unfold unit_roundoff. nra.
      + unfold X. apply Qle_lteq. right. ring. }
  assert (P1 : (X * ((1 - unit_roundoff) * (1 - unit_roundoff)) <= fi * I)%Q).
  { apply Qle_trans with ((inject_Z i - inject_Z i * unit_roundoff) * I)%Q.
    - apply Qle_trans
        with ((inject_Z i - inject_Z i * unit_roundoff) * (a - a * unit_roundoff))%Q.
      + unfold X. apply Qle_lteq. right. ring.
      + rewrite !(Qmult_comm (inject_Z i - inject_Z i * unit_roundoff)).
        apply Qmult_le_compat_r; [exact I1|]. unfold unit_roundoff. nra.
    - apply Qmult_le_compat_r; assumption. }
  destruct (round_double_close (fi * I) P0) as [Y1 Y2].
  set (y := round_double (fi * I)) in *.
  assert (Hy0 : (0 <= y)%Q) by (unfold unit_roundoff in *; nra).
  destruct (timedelta_seconds_float_close y Hy0) as [T1 T2].
  set (t := timedelta_seconds_float y) in *.
  fold X.
  unfold unit_roundoff, microsecond in *.
  split; lra.
Qed.

(** The deterministic schedule as it is computed: each time is a whole
    number of microseconds after the start and within a microsecond of its
    place in the even schedule. *)
Lemma even_schedule_float_spacing (self : CommitPatternGenerator)
    (start : datetime) :
  0 < max_commits self ->
  0 <= window_hours self * 3600 <= 1000000000 ->
  exists times,
    even_schedule_float self start = Ok times
    /\ len times = max_commits self
    /\ (forall i, 0 <= i < max_commits self ->
        exists t microseconds,
          nth_error times (Z.to_nat i) = Some t
          /\ t = (start + inject_Z microseconds / 1000000)%Q
          /\ (start + inject_Z i * even_interval self - microsecond <= t)%Q
          /\ (t <= start + inject_Z i * even_interval self + microsecond)%Q)
    /\ (forall i, 0 <= i -> i + 1 < max_commits self ->
        exists t t',
          nth_error times (Z.to_nat i) = Some t
          /\ nth_error times (Z.to_nat (i + 1)) = Some t'
          /\ (even_interval self - 2 * microsecond <= t' - t)%Q
          /\ (t' - t <= even_interval self + 2 * microsecond)%Q).
Proof.
  intros Hmax Hw.
  unfold even_schedule_float.
  destruct (Z.eqb_spec (max_commits self) 0) as [E|_]; [lia|].
  eexists. split; [reflexivity|].
  split; [unfold len; rewrite length_map; apply range_length; lia|].
  assert (Hnear : forall i, 0 <= i < max_commits self ->
            let offset :=
              timedelta_seconds_float
                (float_mul (float_of_int i)
                   (true_divide (window_hours self * 3600) (max_commits self))) in
            (inject_Z i * even_interval self - microsecond <= offset
             /\ offset <= inject_Z i * even_interval self + microsecond)%Q).
  { intros i Hi. apply float_offset_close; [exact Hw | lia | exact Hi]. }
  split.
  - intros i Hi. do 2 eexists.
    split; [rewrite nth_error_map, range_nth by exact Hi; reflexivity|].
    split; [unfold timedelta_seconds_float; reflexivity|].
    specialize (Hnear i Hi). cbv zeta in Hnear.
    fold (timedelta_seconds_float
            (float_mul (float_of_int i)
               (true_divide (window_hours self * 3600) (max_commits self)))).
    split; lra.
  - intros i Hi0 Hi1. do 2 eexists.
    split; [rewrite nth_error_map, range_nth by lia; reflexivity|].
    split; [rewrite nth_error_map, range_nth by lia; reflexivity|].
    pose proof (Hnear i ltac:(lia)) as A.
    pose proof (Hnear (i + 1) ltac:(lia)) as B.
    cbv zeta in A, B. rewrite inject_Z_plus in B.
    change (inject_Z 1) with 1%Q in B.
    unfold microsecond in *.
    split; lra.
Qed.

(** Outside the rounding the two renderings of the branch agree: both
    raise [ZeroDivisionError] for no commits, both are empty for a negative
    count, and they have the same length. *)
Lemma even_schedule_float_shape (self : CommitPatternGenerator) (start : datetime) :
  match even_schedule self start, even_schedule_float self start with
  | Ok times, Ok times' => len times = len times'
  | Raise e, Raise e' => e = e' /\ max_commits self = 0
  | _, _ => False
  end.
Proof.
  unfold even_schedule, even_schedule_float.
  destruct (Z.eqb_spec (max_commits self) 0) as [E|E].
  - split; [reflexivity | exact E].
  - unfold len. rewrite !length_map. reflexivity.
Qed.

(** C8, as stated, fails: the times are not exactly evenly spaced.  For
    seven commits in eight hours the interval is the float nearest to
    [28800/7] and every offset is rounded to a whole microsecond: the
    second time is 4114.285714 s after the first and the third
    4114.285715 s after the second, and the second time is not
    [start + 1 * (28800/7)]. *)
Lemma generate_commit_schedule_uneven :
  exists t0 t1 t2 rest,
    generate_commit_schedule_float half 0 seven_generator 0%Q 0%nat
    = Some (Ok (t0 :: t1 :: t2 :: rest), 0%nat)
    /\ (t1 - t0 == 4114285714 # 1000000)%Q
    /\ (t2 - t1 == 4114285715 # 1000000)%Q
    /\ ~ (t1 - t0 == t2 - t1)%Q
    /\ ~ (t1 == 0 + inject_Z 1 * even_interval seven_generator)%Q.
Proof.
  do 4 eexists.
  split; [vm_compute; reflexivity|].
  split; [vm_compute; reflexivity|].
  split; [vm_compute; reflexivity|].
  split; intro H; vm_compute in H; discriminate H.
Qed.

(** C8, amended.  With [randomize] false, a [max_commits] between 1 and
    [2^53] and a window of at most [10^9] seconds (the range in which no
    float of the computation overflows or is subnormal),
    [generate_commit_schedule], its floats written out, returns, whatever
    the random source, the fuel and the position in the source, the same
    list of exactly [max_commits] times, and it consumes no random draw.
    The i-th time is
    the start plus a whole number of microseconds, and it is within a
    microsecond of [start_time + i * (window_hours * 3600 / max_commits)];
    so two neighbours are the interval apart up to two microseconds. *)
Theorem generate_commit_schedule_near_even (self : CommitPatternGenerator)
    (start : datetime) :
  randomize self = false ->
  0 < max_commits self < 2 ^ 53 ->
  0 <= window_hours self * 3600 <= 1000000000 ->
  exists times,
    (forall rnd fuel k,
        generate_commit_schedule_float rnd fuel self start k = Some (Ok times, k))
    /\ len times = max_commits self
    /\ (forall i, 0 <= i < max_commits self ->
        exists t microseconds,
          nth_error times (Z.to_nat i) = Some t
          /\ t = (start + inject_Z microseconds / 1000000)%Q
          /\ (start + inject_Z i * even_interval self - microsecond <= t)%Q
          /\ (t <= start + inject_Z i * even_interval self + microsecond)%Q)
    /\ (forall i, 0 <= i -> i + 1 < max_commits self ->
        exists t t',
          nth_error times (Z.to_nat i) = Some t
          /\ nth_error times (Z.to_nat (i + 1)) = Some t'
          /\ (even_interval self - 2 * microsecond <= t' - t)%Q
          /\ (t' - t <= even_interval self + 2 * microsecond)%Q).
Proof.
  intros Hr Hmax Hw.
  destruct (even_schedule_float_spacing self start (proj1 Hmax) Hw)
    as [times [H1 [H2 [H3 H4]]]].
  exists times. split; [|split; [exact H2 | split; [exact H3 | exact H4]]].
  intros rnd fuel k. unfold generate_commit_schedule_float.
  rewrite Hr, H1. reflexivity.
Qed.

Lemma generate_commit_schedule_near_even_witness :
  exists times,
    (forall rnd fuel k,
        generate_commit_schedule_float rnd fuel seven_generator 0%Q k
        = Some (Ok times, k))
    /\ len times = 7
    /\ (exists t microseconds,
          nth_error times 6 = Some t
          /\ t = (0 + inject_Z microseconds / 1000000)%Q
          /\ (0 + inject_Z 6 * even_interval seven_generator - microsecond <= t)%Q
          /\ (t <= 0 + inject_Z 6 * even_interval seven_generator + microsecond)%Q).
Proof.
  assert (Hmax : 0 < max_commits seven_generator < 2 ^ 53) by (simpl; lia).
  assert (Hw : 0 <= window_hours seven_generator * 3600 <= 1000000000)
    by (simpl; lia).
  destruct (generate_commit_schedule_near_even seven_generator 0%Q eq_refl Hmax Hw)
    as [times [H1 [H2 [H3 _]]]].
  exists times. split; [exact H1|]. split; [exact H2|].
  apply (H3 6). simpl. lia.
Defined.

(** With [max_commits = 0] the interval is a division by zero and nothing
    is returned. *)
Remark generate_commit_schedule_even_zero (rnd : nat -> Q) (fuel k : nat)
    (start : datetime) :
  generate_commit_schedule rnd fuel
    {| min_commits := 0; max_commits := 0; window_hours := 8; randomize := false |}
    start k
  = Some (Raise ZeroDivisionError, k).
Proof. reflexivity. Qed.

(* ----------------------------------------------------------------- *)
(** ** The tracker *)

(** C3, as stated, fails: a new schedule is installed on a manager whose
    counters are 3 and 2, and the counters are still 3 and 2, not 0. *)
Lemma generate_new_schedule_keeps_counters :
  exists sched self' k',
    generate_new_schedule half 1 used_manager (Some 100%Q) 0%Q 0%nat
    = Some (Ok sched, self', k')
    /\ total_commits self' = 3 /\ successful_commits self' = 2
    /\ total_commits self' <> 0 /\ successful_commits self' <> 0.
Proof.
  do 3 eexists. split; [vm_compute; reflexivity|].
  simpl. repeat split; lia.
Qed.

(** C3, amended.  [generate_new_schedule] installs the schedule the pattern
    generator has just produced for the window start in place of the old
    one, resets the cursor to 0 and records the window start; the counters
    [total_commits] and [successful_commits] keep their values. *)
Theorem generate_new_schedule_installs (rnd : nat -> Q) (fuel : nat)
    (self self' : SchedulerManager) (start_from : option datetime)
    (now : datetime) (k k' : nat) (sched : list datetime) :
  generate_new_schedule rnd fuel self start_from now k = Some (Ok sched, self', k') ->
  let start := match start_from with Some t => t | None => now end in
  generate_commit_schedule rnd fuel (pattern_generator self) start k
    = Some (Ok sched, k')
  /\ schedule self' = sched
  /\ next_commit_idx self' = 0
  /\ start_time self' = Some start
  /\ total_commits self' = total_commits self
  /\ successful_commits self' = successful_commits self.
Proof.
  unfold generate_new_schedule. intros H. cbv zeta.
  destruct (generate_commit_schedule rnd fuel (pattern_generator self)
              match start_from with Some t => t | None => now end k)
    as [[[l|e] k0]|] eqn:E; inversion H; subst; clear H.
  simpl. repeat split; reflexivity.
Qed.

Lemma generate_new_schedule_installs_witness :
  exists sched self' k',
    generate_new_schedule half 1 used_manager (Some 100%Q) 0%Q 0%nat
    = Some (Ok sched, self', k')
    /\ schedule self' = sched
    /\ next_commit_idx self' = 0
    /\ start_time self' = Some 100%Q
    /\ total_commits self' = total_commits used_manager
    /\ successful_commits self' = successful_commits used_manager.
Proof.
  do 3 eexists. split; [vm_compute; reflexivity|].
  eapply (generate_new_schedule_installs half 1 used_manager _ (Some 100%Q) 0%Q 0%nat).
  vm_compute. reflexivity.
Defined.

(** C9, as stated, fails: [get_schedule_progress] reads the clock.  The
    same manager, not touched in between, answers one upcoming commit at
    time 5 and none at time 25. *)
Lemma get_schedule_progress_depends_on_clock :
  let self := {| pattern_generator := pattern_generator used_manager;
                 schedule := [10%Q; 20%Q];
                 next_commit_idx := 0;
                 is_running := false;
                 start_time := Some 0%Q;
                 total_commits := 0;
                 successful_commits := 0 |} in
  p_upcoming (get_schedule_progress self 5%Q) = 2
  /\ p_upcoming (get_schedule_progress self 25%Q) = 0
  /\ get_schedule_progress self 5%Q <> get_schedule_progress self 25%Q.
Proof.
  cbv zeta. split; [reflexivity | split; [reflexivity|]].
  intro H. apply (f_equal p_upcoming) in H. vm_compute in H. discriminate H.
Qed.

Lemma filter_agree {A : Type} (f g : A -> bool) (xs : list A) :
  (forall x, In x xs -> f x = g x) -> filter f xs = filter g xs.
Proof.
  induction xs as [|x xs IH]; intro H; simpl; [reflexivity|].
  rewrite (H x (or_introl eq_refl)), IH; [reflexivity|].
  intros y Hy. apply H. right. exact Hy.
Qed.

Lemma filter_nested_length {A : Type} (f g : A -> bool) (xs : list A) :
  (forall x, In x xs -> g x = true -> f x = true) ->
  (List.length (filter g xs) <= List.length (filter f xs))%nat.
Proof.
  induction xs as [|x xs IH]; intro H; simpl; [lia|].
  assert (IH' : (List.length (filter g xs) <= List.length (filter f xs))%nat).
  { apply IH. intros y Hy. apply H. right. exact Hy. }
  destruct (g x) eqn:G.
  - rewrite (H x (or_introl eq_refl) G). simpl. lia.
  - destruct (f x); simpl; lia.
Qed.

(** Of two filters one of which keeps whatever the other keeps, equal
    counts mean that they keep the same elements. *)
Lemma filter_nested_agree {A : Type} (f g : A -> bool) (xs : list A) :
  (forall x, In x xs -> g x = true -> f x = true) ->
  List.length (filter f xs) = List.length (filter g xs) ->
  forall x, In x xs -> f x = g x.
Proof.
  induction xs as [|x xs IH]; intros H Hlen y Hy; [destruct Hy|].
  assert (Hle : (List.length (filter g xs) <= List.length (filter f xs))%nat).
  { apply filter_nested_length. intros z Hz. apply H. right. exact Hz. }
  simpl in Hlen.
  destruct (g x) eqn:G.
  - rewrite (H x (or_introl eq_refl) G) in Hlen. simpl in Hlen.
    destruct Hy as [Hy|Hy].
    + subst y. rewrite G. apply H; [left; reflexivity | exact G].
    + apply IH; [intros z Hz; apply H; right; exact Hz | lia | exact Hy].
  - destruct (f x) eqn:F.
    + simpl in Hlen. lia.
    + destruct Hy as [Hy|Hy].
      * subst y. congruence.
      * apply IH; [intros z Hz; apply H; right; exact Hz | exact Hlen | exact Hy].
Qed.

(** C9, amended.  Two calls of [get_schedule_progress] on the same manager
    return the same [total_scheduled], [completed], [remaining],
    [successful] and [window_end] whatever the clock reads; they return
    identical results altogether if and only if no entry of the schedule
    lies after one clock reading but not after the other. *)
Theorem get_schedule_progress_repeatable (self : SchedulerManager)
    (now1 now2 : datetime) :
  let p1 := get_schedule_progress self now1 in
  let p2 := get_schedule_progress self now2 in
  p_total_scheduled p1 = p_total_scheduled p2
  /\ p_completed p1 = p_completed p2
  /\ p_remaining p1 = p_remaining p2
  /\ p_successful p1 = p_successful p2
  /\ p_window_end p1 = p_window_end p2
  /\ ((forall t, In t (schedule self) -> (now1 < t <-> now2 < t)%Q) <-> p1 = p2).
Proof.
  cbv zeta. do 5 (split; [reflexivity|]).
  split.
  - intro H. unfold get_schedule_progress.
    assert (E : filter (fun t => Qlt_bool now1 t) (schedule self)
                = filter (fun t => Qlt_bool now2 t) (schedule self)).
    { apply filter_agree. intros t Ht. specialize (H t Ht).
      destruct (Qlt_bool now1 t) eqn:E1, (Qlt_bool now2 t) eqn:E2; try reflexivity.
      - apply Qlt_bool_iff in E1. apply H in E1. apply Qlt_bool_iff in E1. congruence.
      - apply Qlt_bool_iff in E2. apply H in E2. apply Qlt_bool_iff in E2. congruence. }
    rewrite E. reflexivity.
  - intros Heq t Ht.
    apply (f_equal p_upcoming) in Heq. simpl in Heq. unfold len in Heq.
    apply Nat2Z.inj in Heq.
    assert (Hsame : Qlt_bool now1 t = Qlt_bool now2 t).
    { destruct (Qlt_le_dec now2 now1) as [Hlt|Hle].
      - symmetry.
        apply (filter_nested_agree (fun t => Qlt_bool now2 t)
                 (fun t => Qlt_bool now1 t) (schedule self)); [|congruence|exact Ht].
        intros x _ Hx. apply Qlt_bool_iff in Hx. apply Qlt_bool_iff.
        apply Qlt_trans with now1; assumption.
      - apply (filter_nested_agree (fun t => Qlt_bool now1 t)
                 (fun t => Qlt_bool now2 t) (schedule self)); [|exact Heq|exact Ht].
        intros x _ Hx. apply Qlt_bool_iff in Hx. apply Qlt_bool_iff.
        apply Qle_lt_trans with now2; assumption. }
    rewrite <- !Qlt_bool_iff. rewrite Hsame. tauto.
Qed.

Lemma py_index_in_range {A : Type} (xs : list A) (i : Z) :
  0 <= i < len xs ->
  exists x, nth_error xs (Z.to_nat i) = Some x /\ py_index xs i = Ok x.
Proof.
  intro H. unfold py_index.
  destruct (Z.leb_spec 0 i); [|lia].
  destruct (Z.leb_spec 0 i); [|lia].
  destruct (Z.ltb_spec i (len xs)); [|lia].
  simpl.
  destruct (nth_error xs (Z.to_nat i)) as [x|] eqn:E.
  - exists x. split; reflexivity.
  - apply nth_error_None in E. unfold len in H. lia.
Qed.

Lemma wait_for_next_commit_returns_entry_aux (rnd : nat -> Q)
    (self : SchedulerManager) (now : datetime) (k : nat) :
  0 <= next_commit_idx self < len (schedule self) ->
  exists next_time w k',
    wait_for_next_commit rnd self now k = (Ok w, k')
    /\ returned w = Some next_time.
Proof.
  intro H.
  destruct (py_index_in_range (schedule self) (next_commit_idx self) H)
    as [t [Hn Hp]].
  unfold wait_for_next_commit.
  destruct (Z.leb_spec (len (schedule self)) (next_commit_idx self)); [lia|].
  rewrite Hp.
  destruct (Qle_bool t now); [|destruct (Qlt_bool 0 (t - now))];
    do 3 eexists; split; reflexivity.
Qed.

(** C10.  When the cursor is inside the schedule, [wait_for_next_commit]
    returns the entry at the cursor as it is: the jitter goes into the
    sleep only.  When that entry is not after the clock reading, nothing is
    slept and no random number is drawn. *)
Theorem wait_for_next_commit_returns_entry (rnd : nat -> Q)
    (self : SchedulerManager) (now : datetime) (k : nat) :
  0 <= next_commit_idx self < len (schedule self) ->
  exists next_time w k',
    nth_error (schedule self) (Z.to_nat (next_commit_idx self)) = Some next_time
    /\ wait_for_next_commit rnd self now k = (Ok w, k')
    /\ returned w = Some next_time
    /\ ((next_time <= now)%Q -> slept w = None /\ k' = k).
Proof.
  intro H.
  destruct (py_index_in_range (schedule self) (next_commit_idx self) H)
    as [t [Hn Hp]].
  unfold wait_for_next_commit.
  destruct (Z.leb_spec (len (schedule self)) (next_commit_idx self)); [lia|].
  rewrite Hp.
  destruct (Qle_bool t now) eqn:Hdue.
  - exists t. eexists. exists k.
    split; [exact Hn | split; [reflexivity | split; [reflexivity|]]].
    intros _. split; reflexivity.
  - assert (Hnot : ~ (t <= now)%Q).
    { intro Hle. apply Qle_bool_iff in Hle. congruence. }
    destruct (Qlt_bool 0 (t - now)) eqn:Hpos.
    + exists t. eexists. exists (S k). simpl.
      split; [exact Hn | split; [reflexivity | split; [reflexivity|]]].
      intro Hle. contradiction.
    + exists t. eexists. exists k.
      split; [exact Hn | split; [reflexivity | split; [reflexivity|]]].
      intro Hle. contradiction.
Qed.

Lemma wait_for_next_commit_returns_entry_witness :
  exists next_time w k',
    nth_error (schedule used_manager) (Z.to_nat 1) = Some next_time
    /\ wait_for_next_commit half
         {| pattern_generator := pattern_generator used_manager;
            schedule := schedule used_manager;
            next_commit_idx := 1;
            is_running := false;
            start_time := Some 0%Q;
            total_commits := 1;
            successful_commits := 1 |} 25%Q 7%nat = (Ok w, k')
    /\ returned w = Some next_time
    /\ ((next_time <= 25)%Q -> slept w = None /\ k' = 7%nat).
Proof.
  apply (wait_for_next_commit_returns_entry half
           {| pattern_generator := pattern_generator used_manager;
              schedule := schedule used_manager;
              next_commit_idx := 1;
              is_running := false;
              start_time := Some 0%Q;
              total_commits := 1;
              successful_commits := 1 |} 25%Q 7%nat).
  vm_compute. split; [discriminate | reflexivity].
Defined.

(* ----------------------------------------------------------------- *)
(** ** The cursor under the calling protocol *)

Lemma wait_for_next_commit_some (rnd : nat -> Q) (self : SchedulerManager)
    (now : datetime) (k k' : nat) (w : Waited) (t : datetime) :
  wait_for_next_commit rnd self now k = (Ok w, k') ->
  returned w = Some t ->
  next_commit_idx self < len (schedule self).
Proof.
  unfold wait_for_next_commit.
  destruct (Z.leb_spec (len (schedule self)) (next_commit_idx self)) as [Hge|Hlt].
  - intros H Hr. inversion H; subst. discriminate Hr.
  - intros _ _. exact Hlt.
Qed.

Lemma generate_new_schedule_cursor (rnd : nat -> Q) (fuel : nat)
    (self self' : SchedulerManager) (start_from : option datetime)
    (now : datetime) (k k' : nat) (sched : list datetime) :
  generate_new_schedule rnd fuel self start_from now k = Some (Ok sched, self', k') ->
  cursor_in_range self'.
Proof.
  unfold generate_new_schedule, cursor_in_range.
  destruct (generate_commit_schedule rnd fuel (pattern_generator self) _ k)
    as [[[l|e] k0]|]; intro H; inversion H; subst; simpl.
  split; [lia | apply len_nonneg].
Qed.

Lemma SchedulerManager_init_cursor (lo hi : Z) :
  cursor_in_range (SchedulerManager_init lo hi).
Proof. unfold cursor_in_range. simpl. unfold len. simpl. lia. Qed.

(** What a generation does to the tracker: nothing when the generator
    raises; otherwise the cursor is back at 0.  The counters stay. *)
Lemma generate_new_schedule_outcome (rnd : nat -> Q) (fuel : nat)
    (self self' : SchedulerManager) (start_from : option datetime)
    (now : datetime) (k k' : nat) (r : result (list datetime)) :
  generate_new_schedule rnd fuel self start_from now k = Some (r, self', k') ->
  total_commits self' = total_commits self
  /\ successful_commits self' = successful_commits self
  /\ (self' = self \/ (next_commit_idx self' = 0 /\ r = Ok (schedule self'))).
Proof.
  unfold generate_new_schedule.
  destruct (generate_commit_schedule rnd fuel (pattern_generator self) _ k)
    as [[[l|e] k0]|]; intro H; inversion H; subst; simpl.
  - repeat split; try reflexivity. right. split; reflexivity.
  - repeat split; try reflexivity. left. reflexivity.
Qed.

Lemma run_protocol_cons (rnd : nat -> Q) (fuel : nat) (o : tracker_op)
    (ops : list tracker_op) (self : SchedulerManager) (pending : bool) (k : nat) :
  run_protocol rnd fuel (o :: ops) self pending k
  = match run_protocol rnd fuel [o] self pending k with
    | Some (self', pending', k') => run_protocol rnd fuel ops self' pending' k'
    | None => None
    end.
Proof.
  destruct o as [start_from now| |now|success|now|now]; simpl.
  - destruct (generate_new_schedule rnd fuel self start_from now k)
      as [[[r s1] k1]|]; reflexivity.
  - reflexivity.
  - destruct pending; [reflexivity|].
    destruct (wait_for_next_commit rnd self now k) as [[w|e] k1]; reflexivity.
  - destruct pending; reflexivity.
  - reflexivity.
  - reflexivity.
Qed.

(** One operation: the cursor moves by one at a mark, goes back to 0 at a
    generation that installs a schedule, and stays where it is otherwise. *)
Lemma run_protocol_step (rnd : nat -> Q) (fuel : nat) (o : tracker_op)
    (self self' : SchedulerManager) (pending pending' : bool) (k k' : nat) :
  run_protocol rnd fuel [o] self pending k = Some (self', pending', k') ->
  match o with
  | OpMark success =>
      pending = true /\ pending' = false
      /\ self' = mark_commit_completed self success
  | OpGenerate _ _ =>
      pending' = pending /\ (self' = self \/ next_commit_idx self' = 0)
  | OpWait _ =>
      pending = false /\ self' = self
      /\ (pending' = true -> next_commit_idx self < len (schedule self))
  | _ => pending' = pending /\ self' = self
  end.
Proof.
  destruct o as [start_from now| |now|success|now|now]; simpl; intro H.
  - destruct (generate_new_schedule rnd fuel self start_from now k)
      as [[[r s1] k1]|] eqn:G; inversion H; subst.
    split; [reflexivity|].
    destruct (generate_new_schedule_outcome _ _ _ _ _ _ _ _ _ G) as [_ [_ [E|[E _]]]];
      [left; exact E | right; exact E].
  - inversion H; subst. split; reflexivity.
  - destruct pending; [discriminate|].
    destruct (wait_for_next_commit rnd self now k) as [[w|e] k1] eqn:Hw;
      inversion H; subst.
    + split; [reflexivity | split; [reflexivity|]].
      intro Hsome. destruct (returned w) as [t|] eqn:Hr; [|discriminate].
      eapply wait_for_next_commit_some; eauto.
    + split; [reflexivity | split; [reflexivity | discriminate]].
  - destruct pending; [|discriminate]. inversion H; subst.
    split; [reflexivity | split; reflexivity].
  - inversion H; subst. split; reflexivity.
  - inversion H; subst. split; reflexivity.
Qed.

Lemma run_protocol_nonneg (rnd : nat -> Q) (fuel : nat) (ops : list tracker_op) :
  forall (self : SchedulerManager) (pending : bool) (k : nat)
         (self' : SchedulerManager) (pending' : bool) (k' : nat),
    0 <= next_commit_idx self ->
    run_protocol rnd fuel ops self pending k = Some (self', pending', k') ->
    0 <= next_commit_idx self'.
Proof.
  induction ops as [|o ops IH]; intros self pending k self' pending' k' H0 Hrun.
  - simpl in Hrun. inversion Hrun; subst. exact H0.
  - rewrite run_protocol_cons in Hrun.
    destruct (run_protocol rnd fuel [o] self pending k) as [[[s1 p1] k1]|] eqn:E;
      [|discriminate].
    apply (IH s1 p1 k1 self' pending' k'); [|exact Hrun].
    pose proof (run_protocol_step _ _ _ _ _ _ _ _ _ E) as S.
    destruct o as [start_from now| |now|success|now|now].
    + destruct S as [_ [S|S]]; [subst; exact H0 | lia].
    + destruct S as [_ S]. subst. exact H0.
    + destruct S as [_ [S _]]. subst. exact H0.
    + destruct S as [_ [_ S]]. subst. simpl. lia.
    + destruct S as [_ S]. subst. exact H0.
    + destruct S as [_ S]. subst. exact H0.
Qed.

Lemma run_protocol_at_rest (rnd : nat -> Q) (fuel : nat) (ops : list tracker_op) :
  forall (self : SchedulerManager) (pending : bool) (k : nat)
         (self' : SchedulerManager) (pending' : bool) (k' : nat),
    cursor_in_range self ->
    (pending = true -> next_commit_idx self < len (schedule self)) ->
    run_protocol rnd fuel ops self pending k = Some (self', pending', k') ->
    generates_at_rest rnd fuel ops self pending k = true ->
    cursor_in_range self'
    /\ (pending' = true -> next_commit_idx self' < len (schedule self')).
Proof.
  induction ops as [|o ops IH]; intros self pending k self' pending' k' Hinv Hp Hrun Hrest.
  - simpl in Hrun. inversion Hrun; subst. split; assumption.
  - rewrite run_protocol_cons in Hrun.
    cbn [generates_at_rest] in Hrest. apply andb_true_iff in Hrest.
    destruct Hrest as [Hgen Hrest].
    destruct (run_protocol rnd fuel [o] self pending k) as [[[s1 p1] k1]|] eqn:E;
      [|discriminate].
    assert (Hstep : cursor_in_range s1
                    /\ (p1 = true -> next_commit_idx s1 < len (schedule s1))).
    { pose proof (run_protocol_step _ _ _ _ _ _ _ _ _ E) as S.
      destruct o as [start_from now| |now|success|now|now].
      - simpl in Hgen. apply negb_true_iff in Hgen. subst pending.
        destruct S as [Sp S]. subst p1. split; [|discriminate].
        destruct S as [S|S]; [subst; exact Hinv|].
        unfold cursor_in_range. rewrite S.
        split; [lia | apply len_nonneg].
      - destruct S as [Sp S]. subst. split; assumption.
      - destruct S as [_ [S Sp]]. subst. split; assumption.
      - destruct S as [Spend [Sp S]]. subst. specialize (Hp eq_refl).
        split; [|discriminate].
        unfold cursor_in_range in *. simpl. lia.
      - destruct S as [Sp S]. subst. split; assumption.
      - destruct S as [Sp S]. subst. split; assumption. }
    destruct Hstep as [Hinv1 Hp1].
    apply (IH s1 p1 k1 self' pending' k' Hinv1 Hp1 Hrun Hrest).
Qed.

Lemma run_protocol_cursor (rnd : nat -> Q) (fuel : nat) (ops : list tracker_op) :
  forall (self : SchedulerManager) (pending : bool) (k : nat)
         (self' : SchedulerManager) (pending' : bool) (k' : nat),
    existsb is_generate ops = false ->
    run_protocol rnd fuel ops self pending k = Some (self', pending', k') ->
    schedule self' = schedule self
    /\ next_commit_idx self' = next_commit_idx self + len (filter is_mark ops).
Proof.
  induction ops as [|o ops IH]; intros self pending k self' pending' k' Hgen Hrun.
  - simpl in Hrun. inversion Hrun; subst.
    split; [reflexivity | unfold len; simpl; lia].
  - rewrite run_protocol_cons in Hrun.
    cbn [existsb] in Hgen. apply orb_false_iff in Hgen. destruct Hgen as [Ho Hgen].
    destruct (run_protocol rnd fuel [o] self pending k) as [[[s1 p1] k1]|] eqn:E;
      [|discriminate].
    destruct (IH s1 p1 k1 self' pending' k' Hgen Hrun) as [H1 H2].
    pose proof (run_protocol_step _ _ _ _ _ _ _ _ _ E) as S.
    destruct o as [start_from now| |now|success|now|now];
      [discriminate Ho| | | | |]; cbn [filter is_mark].
    + destruct S as [_ S]. subst. split; assumption.
    + destruct S as [_ [S _]]. subst. split; assumption.
    + destruct S as [_ [_ S]]. subst. simpl in H1, H2.
      split; [exact H1|]. rewrite H2. unfold len. cbn [List.length]. lia.
    + destruct S as [_ S]. subst. split; assumption.
    + destruct S as [_ S]. subst. split; assumption.
Qed.

(** Every prefix of a run is a run, and a run in which the generations
    come when no mark is due begins with such a run: what holds at the end
    of every run holds after every operation of a run. *)
Lemma run_protocol_prefix (rnd : nat -> Q) (fuel : nat) (pre post : list tracker_op) :
  forall (self : SchedulerManager) (pending : bool) (k : nat)
         (self' : SchedulerManager) (pending' : bool) (k' : nat),
    run_protocol rnd fuel (pre ++ post) self pending k = Some (self', pending', k') ->
    exists s p k1,
      run_protocol rnd fuel pre self pending k = Some (s, p, k1)
      /\ run_protocol rnd fuel post s p k1 = Some (self', pending', k')
      /\ (generates_at_rest rnd fuel (pre ++ post) self pending k = true ->
          generates_at_rest rnd fuel pre self pending k = true).
Proof.
  induction pre as [|o pre IH]; intros self pending k self' pending' k' H.
  - exists self, pending, k. split; [reflexivity | split; [exact H | reflexivity]].
  - rewrite <- app_comm_cons in *. rewrite run_protocol_cons in H.
    rewrite (run_protocol_cons rnd fuel o pre).
    cbn [generates_at_rest].
    destruct (run_protocol rnd fuel [o] self pending k) as [[[s1 p1] k1]|];
      [|discriminate].
    destruct (IH s1 p1 k1 self' pending' k' H) as [s [p [k2 [A [B C]]]]].
    exists s, p, k2. split; [exact A | split; [exact B|]].
    intro Hrest. apply andb_true_iff in Hrest. destruct Hrest as [G R].
    apply andb_true_iff. split; [exact G | exact (C R)].
Qed.

(** C5, as stated, fails: [generate_new_schedule] is an operation of the
    tracker too, and it sets the cursor.  On [fresh_manager] a wait and its
    mark take the cursor to 1, and the generation of the next window takes
    it back to 0: the cursor has decreased, by an operation that is not a
    mark.  And when a schedule is generated between a wait and its mark,
    which the protocol does not exclude, the mark moves the cursor of the
    new schedule: on [manager_zero_commits] the cursor ends at 1 on an empty
    schedule. *)
Lemma cursor_reset_by_generation :
  (exists s1 s2 k1 k2,
      run_protocol half 1 [OpWait 1%Q; OpMark true] fresh_manager false 0%nat
      = Some (s1, false, k1)
      /\ run_protocol half 1
           [OpWait 1%Q; OpMark true; OpGenerate (Some 50%Q) 50%Q]
           fresh_manager false 0%nat
         = Some (s2, false, k2)
      /\ next_commit_idx s1 = 1
      /\ next_commit_idx s2 = 0)
  /\ (exists s k',
        cursor_in_range manager_zero_commits
        /\ run_protocol half 1
             [OpWait 1%Q; OpGenerate (Some 50%Q) 50%Q; OpMark true]
             manager_zero_commits false 0%nat
           = Some (s, false, k')
        /\ next_commit_idx s = 1
        /\ len (schedule s) = 0
        /\ ~ cursor_in_range s).
Proof.
  split.
  - do 4 eexists.
    split; [vm_compute; reflexivity|].
    split; [vm_compute; reflexivity|].
    split; reflexivity.
  - do 2 eexists.
    split; [unfold cursor_in_range; vm_compute; split; discriminate|].
    split; [vm_compute; reflexivity|].
    split; [reflexivity|]. split; [reflexivity|].
    unfold cursor_in_range. vm_compute. intros [_ H]. apply H. reflexivity.
Qed.

(** C5, amended.  Take a tracker whose cursor is within [0, len(schedule)]
    and run on it any sequence of [generate_new_schedule],
    [get_next_commit_time], [wait_for_next_commit], [mark_commit_completed],
    [get_schedule_progress] and [should_stop] that follows the protocol (a
    mark exactly once after each wait that returned a time, before the next
    wait).  Afterwards, and so after each of its operations
    ([run_protocol_prefix]),
      - the cursor is not negative;
      - the cursor is within [0, len(schedule)] if no schedule was generated
        between a wait that returned a time and its mark;
      - if no schedule was generated at all, the schedule is the same and
        the cursor has not decreased and has moved by exactly the number of
        marks, so that a mark is the only one of the other operations to
        change it;
      - a generation, for its part, leaves the tracker as it was or the
        cursor at 0. *)
Theorem cursor_invariant_under_protocol (rnd : nat -> Q) (fuel : nat)
    (ops : list tracker_op) (self self' : SchedulerManager)
    (pending' : bool) (k k' : nat) :
  cursor_in_range self ->
  run_protocol rnd fuel ops self false k = Some (self', pending', k') ->
  0 <= next_commit_idx self'
  /\ (generates_at_rest rnd fuel ops self false k = true -> cursor_in_range self')
  /\ (existsb is_generate ops = false ->
      schedule self' = schedule self
      /\ next_commit_idx self <= next_commit_idx self'
      /\ next_commit_idx self' = next_commit_idx self + len (filter is_mark ops))
  /\ (forall start_from now, ops = [OpGenerate start_from now] ->
      self' = self \/ next_commit_idx self' = 0).
Proof.
  intros Hinv Hrun.
  split; [|split; [|split]].
  - apply (run_protocol_nonneg rnd fuel ops self false k self' pending' k');
      [apply Hinv | exact Hrun].
  - intro Hrest.
    apply (run_protocol_at_rest rnd fuel ops self false k self' pending' k');
      [exact Hinv | discriminate | exact Hrun | exact Hrest].
  - intro Hgen.
    destruct (run_protocol_cursor rnd fuel ops self false k self' pending' k' Hgen Hrun)
      as [H1 H2].
    split; [exact H1 | split; [|exact H2]].
    rewrite H2. pose proof (len_nonneg (filter is_mark ops)). lia.
  - intros start_from now Hops. subst ops.
    apply (run_protocol_step _ _ _ _ _ _ _ _ _ Hrun).
Qed.

Lemma cursor_invariant_under_protocol_witness :
  exists self' k',
    cursor_in_range fresh_manager
    /\ run_protocol half 1 two_windows fresh_manager false 0%nat
       = Some (self', false, k')
    /\ generates_at_rest half 1 two_windows fresh_manager false 0%nat = true
    /\ 0 <= next_commit_idx self'
    /\ cursor_in_range self'
    /\ next_commit_idx self' = 1.
Proof.
  do 2 eexists.
  assert (Hinv : cursor_in_range fresh_manager)
    by (unfold cursor_in_range; vm_compute; split; discriminate).
  assert (Hrun : run_protocol half 1 two_windows fresh_manager false 0%nat
                 = Some (_, false, _)) by (vm_compute; reflexivity).
  assert (Hrest : generates_at_rest half 1 two_windows fresh_manager false 0%nat = true)
    by (vm_compute; reflexivity).
  destruct (cursor_invariant_under_protocol half 1 two_windows fresh_manager _ _ _ _
              Hinv Hrun) as [H0 [H1 _]].
  split; [exact Hinv|]. split; [exact Hrun|]. split; [exact Hrest|].
  split; [exact H0|]. split; [exact (H1 Hrest) | reflexivity].
Defined.

(* ----------------------------------------------------------------- *)
(** ** The script is consumed *)

(** A computation never lengthens the script, and it raises only after it
    has taken a raising entry from it. *)
Definition consuming {A : Type} (m : Git A) : Prop :=
  forall w r w',
    m w = (r, w') ->
    (List.length (script w') <= List.length (script w))%nat
    /\ (forall e, r = inr e ->
          (List.length (script w') < List.length (script w))%nat).

(** A computation adds calls to the log that [p] does not count. *)
Definition silent {A : Type} (p : call -> bool) (m : Git A) : Prop :=
  forall w r w',
    m w = (r, w') -> count_calls p (log w') = count_calls p (log w).

Lemma consuming_ret {A : Type} (a : A) : consuming (ret a).
Proof.
  intros w r w' H. unfold ret in H. inversion H; subst.
  split; [lia | intros e He; discriminate He].
Qed.

Lemma consuming_git (c : call) : consuming (git c).
Proof.
  intros w r w' H. unfold git, perform in H.
  destruct (script w) as [|[out|e] rest] eqn:E; inversion H; subst; simpl;
    (split; [lia | intros e' He; try discriminate He; lia]).
Qed.

Lemma consuming_bind {A B : Type} (m : Git A) (f : A -> Git B) :
  consuming m -> (forall a, consuming (f a)) -> consuming (bind m f).
Proof.
  intros Hm Hf w r w' H. unfold bind in H.
  destruct (m w) as [[a|e] w1] eqn:E.
  - destruct (Hm _ _ _ E) as [H1 _].
    destruct (Hf a _ _ _ H) as [H2 H3].
    split; [lia | intros e He; specialize (H3 e He); lia].
  - inversion H; subst. destruct (Hm _ _ _ E) as [H1 H2].
    split; [exact H1 | intros e' _; apply (H2 e eq_refl)].
Qed.

Lemma silent_ret {A : Type} (p : call -> bool) (a : A) : silent p (ret a).
Proof. intros w r w' H. unfold ret in H. inversion H; subst. reflexivity. Qed.

Lemma silent_git (p : call -> bool) (c : call) :
  p c = false -> silent p (git c).
Proof.
  intros Hc w r w' H. unfold git, perform in H.
  assert (E : count_calls p (log w ++ [c]) = count_calls p (log w)).
  { unfold count_calls. rewrite filter_app, length_app. simpl.
    rewrite Hc. simpl. lia. }
  destruct (script w) as [|[out|e] rest]; inversion H; subst; simpl; exact E.
Qed.

Lemma silent_bind {A B : Type} (p : call -> bool) (m : Git A) (f : A -> Git B) :
  silent p m -> (forall a, silent p (f a)) -> silent p (bind m f).
Proof.
  intros Hm Hf w r w' H. unfold bind in H.
  destruct (m w) as [[a|e] w1] eqn:E.
  - rewrite (Hf a _ _ _ H). apply (Hm _ _ _ E).
  - inversion H; subst. apply (Hm _ _ _ E).
Qed.

Lemma consuming_add_each (files : list string) : consuming (add_each files).
Proof.
  induction files as [|f fs IH]; simpl.
  - apply consuming_ret.
  - apply consuming_bind; [apply consuming_git | intros _; exact IH].
Qed.

Lemma silent_add_each (p : call -> bool) (files : list string) :
  (forall f, p (GitAdd f) = false) -> silent p (add_each files).
Proof.
  intro Hp. induction files as [|f fs IH]; simpl.
  - apply silent_ret.
  - apply silent_bind; [apply silent_git, Hp | intros _; exact IH].
Qed.

Lemma consuming_stage (files : option (list string)) : consuming (stage files).
Proof.
  destruct files as [[|f fs]|]; simpl;
    try (apply consuming_bind; [apply consuming_git | intros _; apply consuming_ret]).
  apply (consuming_add_each (f :: fs)).
Qed.

Lemma silent_stage (p : call -> bool) (files : option (list string)) :
  (forall f, p (GitAdd f) = false) -> p GitAddAll = false ->
  silent p (stage files).
Proof.
  intros Hp Ha.
  destruct files as [[|f fs]|]; simpl;
    try (apply silent_bind; [apply silent_git, Ha | intros _; apply silent_ret]).
  apply (silent_add_each p (f :: fs) Hp).
Qed.

Lemma consuming_push_origin : consuming push_origin.
Proof.
  intros w r w' H. unfold push_origin in H.
  destruct (git Push w) as [[out|[pe|oe]] w1] eqn:E;
    destruct (consuming_git Push _ _ _ E) as [H1 H2].
  - inversion H; subst. split; [exact H1 | intros e He; discriminate He].
  - specialize (H2 _ eq_refl).
    destruct (contains "no upstream branch" (lower pe)).
    + assert (C : consuming (current_branch <- git ActiveBranch ;;
                             git (PushUpstream current_branch) ;;; ret tt)).
      { apply consuming_bind; [apply consuming_git|]. intro b.
        apply consuming_bind; [apply consuming_git|]. intros _. apply consuming_ret. }
      destruct (C _ _ _ H) as [H3 _]. split; [lia | intros; lia].
    + inversion H; subst. split; [lia | intros; lia].
  - specialize (H2 _ eq_refl). inversion H; subst. split; [lia | intros; lia].
Qed.

Lemma consuming_commit_and_push_body (commit_message : string)
    (files : option (list string)) :
  consuming (commit_and_push_body commit_message files).
Proof.
  unfold commit_and_push_body.
  apply consuming_bind; [apply consuming_stage | intros _].
  apply consuming_bind; [apply consuming_git | intro status_output].
  destruct (negb (truthy (strip status_output))); [apply consuming_ret|].
  apply consuming_bind; [apply consuming_git | intros _].
  apply consuming_bind; [apply consuming_git | intro remotes].
  destruct (truthy remotes); [|apply consuming_ret].
  apply consuming_bind; [apply consuming_git | intros _].
  apply consuming_bind; [apply consuming_push_origin | intros _; apply consuming_ret].
Qed.

Lemma create_initial_commit_script (self self' : GitHubAgent) (w w' : World)
    (created : bool) :
  create_initial_commit self w = (created, self', w') ->
  (List.length (script w') <= List.length (script w))%nat.
Proof.
  unfold create_initial_commit. intro H.
  assert (C : consuming create_initial_commit_body).
  { unfold create_initial_commit_body.
    repeat (apply consuming_bind; [apply consuming_git | intros _]).
    apply consuming_ret. }
  destruct (create_initial_commit_body w) as [[u|e] w1] eqn:E;
    inversion H; subst; apply (C _ _ _ E).
Qed.

(* ----------------------------------------------------------------- *)
(** ** commit_and_push returns *)

Lemma commit_and_push_total (fuel : nat) :
  forall (self : GitHubAgent) (w : World) (commit_message : string)
         (files : option (list string)),
    (List.length (script w) < fuel)%nat ->
    exists r, commit_and_push fuel self w commit_message files = Some r.
Proof.
  induction fuel as [|fuel IH]; intros self w commit_message files Hlen; [lia|].
  simpl.
  destruct (commit_and_push_body commit_message files w) as [[r|[e|e]] w1] eqn:E.
  - eexists; reflexivity.
  - destruct (consuming_commit_and_push_body _ _ _ _ _ E) as [_ Hlt].
    specialize (Hlt _ eq_refl).
    destruct (head_unresolved e); [|eexists; reflexivity].
    destruct (create_initial_commit _ w1) as [[created self2] w2] eqn:C.
    pose proof (create_initial_commit_script _ _ _ _ _ C) as Hle.
    destruct created; [|eexists; reflexivity].
    apply IH. lia.
  - eexists; reflexivity.
Qed.

Lemma commit_and_push_more_fuel (fuel : nat) :
  forall (fuel' : nat) (self : GitHubAgent) (w : World) (commit_message : string)
         (files : option (list string)) r,
    commit_and_push fuel self w commit_message files = Some r ->
    (fuel <= fuel')%nat ->
    commit_and_push fuel' self w commit_message files = Some r.
Proof.
  induction fuel as [|fuel IH]; intros fuel' self w commit_message files r H Hle;
    [discriminate H|].
  destruct fuel' as [|fuel']; [lia|].
  simpl in *.
  destruct (commit_and_push_body commit_message files w) as [[r0|[e|e]] w1];
    try exact H.
  destruct (head_unresolved e); [|exact H].
  destruct (create_initial_commit _ w1) as [[created self2] w2].
  destruct created; [|exact H].
  apply IH; [exact H | lia].
Qed.

Lemma commit_and_push_run_returns (self : GitHubAgent) (w : World)
    (commit_message : string) (files : option (list string)) :
  exists r, commit_and_push_run self w commit_message files = Some r.
Proof. apply commit_and_push_total. lia. Qed.

(* ----------------------------------------------------------------- *)
(** ** Nothing to commit *)

(** C6.  When staging succeeds and the status that follows is blank,
    [commit_and_push] returns through the normal path of its [try] body (no
    exception is raised or handled) with [(False, "No changes to commit")],
    makes no commit, and leaves [is_empty_repo] and [initial_commit_done]
    as they were. *)
Theorem commit_and_push_no_changes (self : GitHubAgent) (w w1 w2 : World)
    (commit_message status_output : string) (files : option (list string)) :
  stage files w = (inl tt, w1) ->
  git GitStatus w1 = (inl status_output, w2) ->
  strip status_output = EmptyString ->
  commit_and_push_body commit_message files w
    = (inl (false, "No changes to commit"%string), w2)
  /\ commit_and_push_run self w commit_message files
    = Some ((false, "No changes to commit"%string), self, w2)
  /\ count_calls is_commit (log w2) = count_calls is_commit (log w).
Proof.
  intros Hstage Hstatus Hblank.
  assert (Hbody : commit_and_push_body commit_message files w
                  = (inl (false, "No changes to commit"%string), w2)).
  { unfold commit_and_push_body, bind. rewrite Hstage, Hstatus, Hblank.
    reflexivity. }
  split; [exact Hbody | split].
  - unfold commit_and_push_run. simpl. rewrite Hbody. reflexivity.
  - rewrite (silent_git is_commit GitStatus eq_refl _ _ _ Hstatus).
    apply (silent_stage is_commit files (fun _ => eq_refl) eq_refl _ _ _ Hstage).
Qed.

Lemma commit_and_push_no_changes_witness :
  exists w2,
    commit_and_push_body "Update notes" None world_clean
      = (inl (false, "No changes to commit"%string), w2)
    /\ commit_and_push_run agent_nonempty world_clean "Update notes" None
      = Some ((false, "No changes to commit"%string), agent_nonempty, w2)
    /\ count_calls is_commit (log w2) = count_calls is_commit (log world_clean).
Proof.
  eexists.
  eapply (commit_and_push_no_changes agent_nonempty world_clean _ _
            "Update notes" _ None);
    vm_compute; reflexivity.
Defined.

(* ----------------------------------------------------------------- *)
(** ** Recovery from an unresolved HEAD *)

(** C1, as stated, fails.  On [world_headless] the first attempt fails on an
    unresolved HEAD and the initial commit succeeds; [commit_and_push] then
    runs itself again, that run fails on HEAD again, and the bootstrap is
    run a second time: the README is written twice and three commits are
    attempted.  What is returned is the outcome of the last
    [commit_and_push] run, a failure, although both bootstraps succeeded. *)
Lemma commit_and_push_recovers_twice :
  exists self' w',
    commit_and_push_run agent_nonempty world_headless "Update notes" None
      = Some ((false, "No changes to commit"%string), self', w')
    /\ count_calls is_readme (log w') = 2%nat
    /\ count_calls is_readme (log w') <> 1%nat
    /\ fst (fst (create_initial_commit
                   {| is_empty_repo := true; initial_commit_done := false |}
                   {| script := skipn 3 (script world_headless); log := [] |}))
       = true.
Proof.
  do 2 eexists. split; [vm_compute; reflexivity|].
  vm_compute. repeat split; discriminate.
Qed.

(** C1, amended.  When an attempt of [commit_and_push] fails with a
    [GitCommandError] that says HEAD could not be resolved, the agent marks
    the repository empty and runs [create_initial_commit] once.  If that
    fails, [(False, "Failed to create initial commit")] is returned.  If it
    succeeds, [commit_and_push] is run again from the start with the same
    arguments on the state the bootstrap left, and the outcome of that run,
    which exists and may itself have recovered again, is what is
    returned. *)
Theorem commit_and_push_head_recovery (self self2 : GitHubAgent)
    (w w1 w2 : World) (commit_message e : string)
    (files : option (list string)) (created : bool) :
  commit_and_push_body commit_message files w = (inr (GitCommandError e), w1) ->
  head_unresolved e = true ->
  create_initial_commit
    {| is_empty_repo := true; initial_commit_done := initial_commit_done self |} w1
    = (created, self2, w2) ->
  exists r,
    commit_and_push_run self w commit_message files = Some r
    /\ (created = false ->
        r = ((false, "Failed to create initial commit"%string), self2, w2))
    /\ (created = true ->
        commit_and_push_run self2 w2 commit_message files = Some r).
Proof.
  intros Hbody Hhead Hcreate.
  destruct (consuming_commit_and_push_body _ _ _ _ _ Hbody) as [_ Hlt].
  specialize (Hlt _ eq_refl).
  pose proof (create_initial_commit_script _ _ _ _ _ Hcreate) as Hle.
  unfold commit_and_push_run at 1. simpl.
  rewrite Hbody, Hhead, Hcreate.
  destruct created.
  - destruct (commit_and_push_run_returns self2 w2 commit_message files) as [r Hr].
    exists r. split; [|split; [discriminate | intros _; exact Hr]].
    apply (commit_and_push_more_fuel _ _ _ _ _ _ _ Hr). lia.
  - eexists. split; [reflexivity | split; [reflexivity | discriminate]].
Qed.

Lemma commit_and_push_head_recovery_witness :
  exists r,
    commit_and_push_run agent_nonempty world_headless "Update notes" None = Some r
    /\ (true = false ->
        r = ((false, "Failed to create initial commit"%string),
             {| is_empty_repo := false; initial_commit_done := true |},
             {| script := skipn 6 (script world_headless);
                log := [GitAddAll; GitStatus; IndexCommit "Update notes";
                        WriteReadme; GitAddAll;
                        IndexCommit "Initial commit: Setup repository structure"] |}))
    /\ (true = true ->
        commit_and_push_run
          {| is_empty_repo := false; initial_commit_done := true |}
          {| script := skipn 6 (script world_headless);
             log := [GitAddAll; GitStatus; IndexCommit "Update notes";
                     WriteReadme; GitAddAll;
                     IndexCommit "Initial commit: Setup repository structure"] |}
          "Update notes" None = Some r).
Proof.
  eapply (commit_and_push_head_recovery agent_nonempty _ world_headless _ _
            "Update notes" _ None true);
    vm_compute; reflexivity.
Defined.

(* ----------------------------------------------------------------- *)
(** ** The scheduled-commit loop *)

Lemma should_stop_true (scheduler : SchedulerManager) (now : datetime) :
  should_stop scheduler now = true ->
  window_elapsed scheduler now \/ schedule_exhausted scheduler.
Proof.
  unfold should_stop, window_elapsed, schedule_exhausted.
  destruct (start_time scheduler) as [t0|]; [|discriminate].
  intro H. apply orb_true_iff in H. destruct H as [H|H].
  - left. exists t0. split; [reflexivity | apply Qle_bool_iff; exact H].
  - right. apply Z.leb_le. exact H.
Qed.

Lemma wait_for_next_commit_none (rnd : nat -> Q) (scheduler : SchedulerManager)
    (now : datetime) (k k' : nat) (w : Waited) :
  wait_for_next_commit rnd scheduler now k = (Ok w, k') ->
  returned w = None ->
  schedule_exhausted scheduler.
Proof.
  unfold wait_for_next_commit, schedule_exhausted.
  destruct (Z.leb_spec (len (schedule scheduler)) (next_commit_idx scheduler))
    as [Hge|Hlt]; [intros; exact Hge|].
  destruct (py_index (schedule scheduler) (next_commit_idx scheduler)) as [t|e];
    [|discriminate].
  destruct (Qle_bool t now).
  - intros H Hr. inversion H; subst. discriminate Hr.
  - destruct (Qlt_bool 0 (t - now)); intros H Hr; inversion H; subst;
      discriminate Hr.
Qed.

Lemma handle_exit (e : exn) (t : Tick) (scheduler : SchedulerManager)
    (k : nat) (done done' : list action) (r : exit_reason) :
  handle e t scheduler k done = Exit r done' ->
  e = CancelledError \/ pause_cancelled t = true.
Proof.
  unfold handle.
  destruct e; try (left; reflexivity);
    destruct (pause_cancelled t); intro H; try discriminate H; right; reflexivity.
Qed.

Lemma handle_continue (e : exn) (t : Tick) (scheduler : SchedulerManager)
    (k : nat) (done : list action) :
  e <> CancelledError ->
  pause_cancelled t = false ->
  handle e t scheduler k done = Continue scheduler k (done ++ [Pause 5]).
Proof.
  intros He Hp. unfold handle. rewrite Hp.
  destruct e; try reflexivity. contradiction.
Qed.

(** C7.  One pass of the loop of [run_scheduled_commits], from any state of
    the scheduler.  (1) The pass leaves the loop only if the run is
    cancelled from outside, the window has elapsed or the schedule is
    exhausted.  (2) In a pass that is not cancelled and finds a commit
    due, a cycle that raises an exception is followed by the five-second
    pause and the loop goes on with the scheduler as it was.  (3) In such a
    pass a cycle that reports failure is marked as completed without
    success and the loop goes on. *)
Theorem loop_survives_failed_cycle (rnd : nat -> Q)
    (scheduler : SchedulerManager) (k : nat) (t : Tick) :
  (forall r done,
      loop_step rnd scheduler k t = Exit r done ->
      externally_cancelled t
      \/ window_elapsed scheduler (now_stop t)
      \/ schedule_exhausted scheduler)
  /\ (undisturbed t ->
      should_stop scheduler (now_stop t) = false ->
      0 <= next_commit_idx scheduler < len (schedule scheduler) ->
      (forall e, cycle t = CycleRaises e -> e <> CancelledError ->
         exists k' done,
           loop_step rnd scheduler k t
           = Continue scheduler k' (done ++ [Cycle; Pause 5]))
      /\ (forall message, cycle t = Completed false message ->
         exists k' done,
           loop_step rnd scheduler k t
           = Continue (mark_commit_completed scheduler false) k'
                      (done ++ [Cycle; Mark false]))).
Proof.
  split.
  - intros r done. unfold loop_step, externally_cancelled.
    destruct (running_flag t); simpl; [|intros _; left; left; reflexivity].
    destruct (should_stop scheduler (now_stop t)) eqn:Hstop.
    { intros _. right. apply should_stop_true. exact Hstop. }
    destruct (wait_for_next_commit rnd scheduler (now_wait t) k) as [[w|e] k'] eqn:Hw.
    + assert (Hrest :
        match returned w with
        | None => Exit NoMoreCommits
                    match slept w with Some d => [Sleep d] | None => [] end
        | Some _ =>
            match cycle t with
            | Completed success _ =>
                Continue (mark_commit_completed scheduler success) k'
                  (match slept w with Some d => [Sleep d] | None => [] end
                   ++ [Cycle; Mark success])
            | CycleRaises e =>
                handle e t scheduler k'
                  (match slept w with Some d => [Sleep d] | None => [] end
                   ++ [Cycle])
            end
        end = Exit r done ->
        cycle t = CycleRaises CancelledError \/ pause_cancelled t = true
        \/ schedule_exhausted scheduler).
      { destruct (returned w) as [nt|] eqn:Hr.
        - destruct (cycle t) as [success message|e] eqn:Hc; [discriminate|].
          intro H. apply handle_exit in H. destruct H as [H|H].
          + subst e. left. reflexivity.
          + right. left. exact H.
        - intros _. right. right.
          eapply wait_for_next_commit_none; eauto. }
      destruct (slept w) as [d|]; [destruct (wait_cancelled t) eqn:Hwc|].
      * intros _. left. right. left. reflexivity.
      * intro H. destruct (Hrest H) as [F|[F|F]].
        -- left. right. right. left. exact F.
        -- left. right. right. right. exact F.
        -- right. right. exact F.
      * intro H. destruct (Hrest H) as [F|[F|F]].
        -- left. right. right. left. exact F.
        -- left. right. right. right. exact F.
        -- right. right. exact F.
    + intro H. apply handle_exit in H. destruct H as [H|H].
      * subst e. unfold wait_for_next_commit in Hw.
        destruct (len (schedule scheduler) <=? next_commit_idx scheduler);
          [discriminate Hw|].
        unfold py_index in Hw.
        destruct ((0 <=? _) && (_ <? len (schedule scheduler)));
          [destruct (nth_error (schedule scheduler) _) as [x|]|];
          try (inversion Hw; fail).
        destruct (Qle_bool x (now_wait t)); [discriminate Hw|].
        destruct (Qlt_bool 0 (x - now_wait t)); discriminate Hw.
      * left. right. right. right. exact H.
  - intros [Hrun [Hwc Hpc]] Hstop Hidx.
    destruct (wait_for_next_commit_returns_entry_aux rnd scheduler (now_wait t) k Hidx)
      as [nt [w [k' [Hw Hr]]]].
    unfold loop_step. rewrite Hrun, Hstop, Hw, Hwc, Hr. simpl.
    split.
    + intros e Hc He. rewrite Hc.
      rewrite (handle_continue e t scheduler k' _ He Hpc).
      exists k'. exists (match slept w with Some d => [Sleep d] | None => [] end).
      destruct (slept w); rewrite <- app_assoc; reflexivity.
    + intros message Hc. rewrite Hc.
      exists k'. exists (match slept w with Some d => [Sleep d] | None => [] end).
      destruct (slept w); reflexivity.
Qed.

Lemma loop_survives_failed_cycle_witness :
  exists k' done,
    loop_step half fresh_manager 0%nat raising_tick
    = Continue fresh_manager k' (done ++ [Cycle; Pause 5]).
Proof.
  destruct (loop_survives_failed_cycle half fresh_manager 0%nat raising_tick)
    as [_ H].
  destruct H as [H _].
  - repeat split.
  - reflexivity.
  - vm_compute. split; [discriminate | reflexivity].
  - apply (H (Exception "disk full")); [reflexivity | discriminate].
Defined.

(** The whole of [eventful_run]: the raising cycle and the failing cycle are
    both survived, and the run ends when the window is over. *)
Example eventful_run_ends_with_window :
  run_loop half eventful_run fresh_manager 0%nat
  = ([Cycle; Pause 5; Cycle; Mark false; Cycle; Mark true],
     Some ShouldStop,
     mark_commit_completed (mark_commit_completed fresh_manager false) true).
Proof. vm_compute. reflexivity. Qed.

(* ----------------------------------------------------------------- *)
(** ** The random schedule stays in its window *)

Section Draws.

Variable rnd : nat -> Q.
Hypothesis Hrnd : unit_draws rnd.

Lemma random_uniform_range (a b : Q) (k : nat) :
  (a <= b)%Q ->
  snd (random_uniform rnd a b k) = S k
  /\ (a <= fst (random_uniform rnd a b k)
      /\ fst (random_uniform rnd a b k) <= b)%Q.
Proof.
  intro Hab. destruct (Hrnd k) as [H0 H1]. simpl.
  split; [reflexivity | split; nra].
Qed.

Lemma random_randint_range (a b : Z) (k : nat) :
  a <= b ->
  exists n, random_randint rnd a b k = (Ok n, S k) /\ a <= n <= b.
Proof.
  intro Hab. destruct (Hrnd k) as [H0 H1].
  unfold random_randint. destruct (Z.ltb_spec b a); [lia|].
  eexists. split; [reflexivity|].
  assert (Hm : (0 < inject_Z (b - a + 1))%Q).
  { assert (Hz : 0 < b - a + 1) by lia. rewrite Zlt_Qlt in Hz. exact Hz. }
  assert (Hlo : 0 <= Qfloor (rnd k * inject_Z (b - a + 1))).
  { change 0 with (Qfloor 0). apply Qfloor_resp_le. nra. }
  assert (Hhi : Qfloor (rnd k * inject_Z (b - a + 1)) < b - a + 1).
  { rewrite Zlt_Qlt. eapply Qle_lt_trans; [apply Qfloor_le|]. nra. }
  lia.
Qed.

Variables lo hi : datetime.
Variable num : Z.

Lemma within_snoc (ts : list datetime) (t : datetime) :
  within lo hi ts -> (lo <= t)%Q -> (t <= hi)%Q -> within lo hi (ts ++ [t]).
Proof.
  intros Hts H1 H2. unfold within. apply Forall_app.
  split; [exact Hts | constructor; [split; assumption | constructor]].
Qed.

(** The inner cluster loop keeps the times in the window and never goes
    beyond [num] of them; it adds at least one when it is entered with
    room left. *)
Lemma cluster_spec (n : nat) :
  forall (ts : list datetime) (cur : datetime) (k : nat)
         (ts' : list datetime) (cur' : datetime) (k' : nat),
    cluster rnd n num hi ts cur k = (ts', cur', k') ->
    within lo hi ts -> (lo <= cur)%Q -> len ts <= num ->
    within lo hi ts' /\ (lo <= cur')%Q /\ len ts' <= num
    /\ len ts <= len ts'
    /\ ((0 < n)%nat -> len ts < num -> (cur < hi)%Q -> len ts < len ts').
Proof.
  induction n as [|n IH]; intros ts cur k ts' cur' k' H Hts Hcur Hlen.
  - simpl in H. inversion H; subst. repeat split; try assumption; lia.
  - simpl in H.
    destruct (Z.leb_spec num (len ts)) as [Hfull|Hroom]; simpl in H.
    { inversion H; subst. repeat split; try assumption; lia. }
    destruct (Qle_bool hi cur) eqn:Hend.
    { inversion H; subst. apply Qle_bool_iff in Hend.
      repeat split; try assumption; try lia.
      intros _ _ Hlt. exfalso. apply (Qlt_not_le _ _ Hlt Hend). }
    apply Qle_bool_false_iff in Hend.
    destruct (Hrnd k) as [H0 H1].
    apply IH in H.
    + destruct H as [A [B [C [D _]]]].
      rewrite len_app_one in D.
      repeat split; try assumption; try lia.
    + apply within_snoc; [assumption | assumption | apply Qlt_le_weak; assumption].
    + unfold timedelta_seconds. nra.
    + rewrite len_app_one. lia.
Qed.

Lemma walk_step (fuel : nat) (ts : list datetime) (cur : datetime) (k : nat) :
  walk rnd (S fuel) num hi ts cur k =
  if (len ts <? num) && Qlt_bool cur hi then
    if Qlt_bool (rnd (S (S k))) 0.2 then
      match random_randint rnd 2 4 (S (S (S k))) with
      | (Raise _, _) => None
      | (Ok cluster_size, k4) =>
          let '(ts', cur', k5) :=
            cluster rnd (Z.to_nat cluster_size) num hi ts cur k4 in
          walk rnd fuel num hi ts' cur' k5
      end
    else
      walk rnd fuel num hi (ts ++ [cur])
           (cur + fst (random_uniform rnd 600 2700 k)
                  * fst (random_uniform rnd 0.7 1.3 (S k)))%Q
           (S (S (S k)))
  else Some (ts, cur, k).
Proof. reflexivity. Qed.

(** The main loop returns once the fuel covers the room left. *)
Lemma walk_spec (fuel : nat) :
  forall (ts : list datetime) (cur : datetime) (k : nat),
    (Z.to_nat (num - len ts) <= fuel)%nat ->
    within lo hi ts -> (lo <= cur)%Q -> len ts <= num ->
    exists ts' cur' k',
      walk rnd fuel num hi ts cur k = Some (ts', cur', k')
      /\ within lo hi ts' /\ len ts' <= num.
Proof.
  induction fuel as [|fuel IH]; intros ts cur k Hfuel Hts Hcur Hlen.
  - simpl. destruct (Z.ltb_spec (len ts) num) as [Hroom|Hfull]; [lia|].
    simpl. do 3 eexists. split; [reflexivity | split; assumption].
  - rewrite walk_step.
    destruct (Z.ltb_spec (len ts) num) as [Hroom|Hfull]; simpl andb;
      [|do 3 eexists; split; [reflexivity | split; assumption]].
    destruct (Qlt_bool cur hi) eqn:Hin;
      [|do 3 eexists; split; [reflexivity | split; assumption]].
    apply Qlt_bool_iff in Hin.
    destruct (Qlt_bool (rnd (S (S k))) 0.2).
    + destruct (random_randint_range 2 4 (S (S (S k)))) as [cs [Hcs Hrange]];
        [lia|].
      rewrite Hcs.
      destruct (cluster rnd (Z.to_nat cs) num hi ts cur (S (S (S (S k)))))
        as [[ts1 cur1] k1] eqn:Hcl.
      destruct (cluster_spec _ _ _ _ _ _ _ Hcl Hts Hcur Hlen)
        as [A [B [C [_ D]]]].
      assert (Hgrow : len ts < len ts1) by (apply D; [lia | lia | exact Hin]).
      apply IH; try assumption. lia.
    + destruct (random_uniform_range 600 2700 k) as [_ [H0 H1]]; [lra|].
      destruct (random_uniform_range 0.7 1.3 (S k)) as [_ [H2 H3]]; [lra|].
      apply IH.
      * rewrite len_app_one. lia.
      * apply within_snoc; [assumption | assumption | apply Qlt_le_weak; assumption].
      * nra.
      * rewrite len_app_one. lia.
Qed.

(** The jitter loop keeps the number of times and keeps them in the
    window; every time is its pre-jitter value, moved only when the move
    stays inside. *)
Lemma jitter_times_spec (ts : list datetime) :
  forall (k : nat) (ts' : list datetime) (k' : nat),
    jitter_times rnd lo hi ts k = (ts', k') ->
    within lo hi ts ->
    within lo hi ts' /\ len ts' = len ts /\ Forall2 (jittered lo hi) ts ts'.
Proof.
  induction ts as [|t ts IH]; intros k ts' k' H Hts.
  - simpl in H. inversion H; subst.
    split; [constructor | split; [reflexivity | constructor]].
  - simpl in H.
    destruct (jitter_times rnd lo hi ts (S k)) as [rest k1] eqn:Hrest.
    inversion H; subst; clear H.
    inversion Hts as [|? ? Ht Hts']; subst.
    destruct (IH _ _ _ Hrest Hts') as [A [B C]].
    split; [|split].
    + constructor; [|exact A].
      unfold timedelta_seconds.
      destruct (Qle_bool lo (t + (-120 + (120 - -120) * rnd k))) eqn:E1;
        [destruct (Qle_bool (t + (-120 + (120 - -120) * rnd k)) hi) eqn:E2|];
        simpl; try exact Ht.
      split; apply Qle_bool_iff; assumption.
    + unfold len in *. cbn [List.length]. lia.
    + constructor; [|exact C].
      exists (-120 + (120 - -120) * rnd k)%Q.
      destruct (Hrnd k) as [H0 H1].
      split; [split; lra | reflexivity].
Qed.

End Draws.

Lemma insert_time_spec (lo hi t : datetime) (ts : list datetime) :
  within lo hi ts -> (lo <= t /\ t <= hi)%Q ->
  within lo hi (insert_time t ts) /\ len (insert_time t ts) = len ts + 1.
Proof.
  intros Hts Ht. induction ts as [|x ts IH]; simpl.
  - split; [constructor; [exact Ht | constructor] | reflexivity].
  - inversion Hts as [|? ? Hx Hts']; subst.
    destruct (Qle_bool t x).
    + split; [constructor; assumption|].
      unfold len. cbn [List.length]. lia.
    + destruct (IH Hts') as [A B].
      split; [constructor; assumption|].
      unfold len in *. cbn [List.length]. lia.
Qed.

Lemma sort_times_spec (lo hi : datetime) (ts : list datetime) :
  within lo hi ts ->
  within lo hi (sort_times ts) /\ len (sort_times ts) = len ts.
Proof.
  induction ts as [|x ts IH]; intro Hts; simpl.
  - split; [constructor | reflexivity].
  - inversion Hts as [|? ? Hx Hts']; subst.
    destruct (IH Hts') as [A B].
    destruct (insert_time_spec lo hi x (sort_times ts) A Hx) as [C D].
    split; [exact C|]. rewrite D, B. unfold len. cbn [List.length]. lia.
Qed.

Lemma insert_time_sorted (t : datetime) (ts : list datetime) :
  sortedb ts = true -> sortedb (insert_time t ts) = true.
Proof.
  induction ts as [|x ts IH]; intro H; [reflexivity|].
  simpl insert_time. destruct (Qle_bool t x) eqn:E.
  - change (Qle_bool t x && sortedb (x :: ts) = true). rewrite E, H. reflexivity.
  - apply Qle_bool_false_iff in E.
    assert (Hxt : Qle_bool x t = true) by (apply Qle_bool_iff, Qlt_le_weak, E).
    destruct ts as [|y ts].
    + simpl. rewrite Hxt. reflexivity.
    + simpl in H. apply andb_true_iff in H. destruct H as [Hxy Hs].
      specialize (IH Hs). simpl insert_time in *.
      destruct (Qle_bool t y).
      * change (Qle_bool x t && sortedb (t :: y :: ts) = true).
        rewrite Hxt, IH. reflexivity.
      * change (Qle_bool x y && sortedb (y :: insert_time t ts) = true).
        rewrite Hxy, IH. reflexivity.
Qed.

Lemma sort_times_sorted (ts : list datetime) : sortedb (sort_times ts) = true.
Proof.
  induction ts as [|x ts IH]; [reflexivity|].
  simpl. apply insert_time_sorted. exact IH.
Qed.

Lemma pad_spec (rnd : nat -> Q) (self : CommitPatternGenerator) (num : Z)
    (start : datetime) (fuel : nat) :
  unit_draws rnd ->
  0 <= window_hours self ->
  forall (ts : list datetime) (k : nat),
    (Z.to_nat (num - len ts) <= fuel)%nat ->
    within start (start + timedelta_hours (window_hours self))%Q ts ->
    exists ts' k',
      pad rnd fuel self num start ts k = Some (ts', k')
      /\ within start (start + timedelta_hours (window_hours self))%Q ts'
      /\ (len ts <= num -> len ts' = num)
      /\ (num <= len ts -> ts' = ts).
Proof.
  intros Hrnd Hw.
  assert (Hspan : (0 <= inject_Z (window_hours self * 3600))%Q).
  { change 0%Q with (inject_Z 0). rewrite <- Zle_Qle. lia. }
  induction fuel as [|fuel IH]; intros ts k Hfuel Hts.
  - simpl. destruct (Z.ltb_spec (len ts) num) as [Hroom|Hfull]; [lia|].
    do 2 eexists. split; [reflexivity | split; [exact Hts | split; [lia | reflexivity]]].
  - simpl. destruct (Z.ltb_spec (len ts) num) as [Hroom|Hfull].
    + destruct (Hrnd k) as [H0 H1].
      destruct (IH (ts ++ [(start + timedelta_seconds
                              (0 + (inject_Z (window_hours self * 3600) - 0) * rnd k))%Q])
                   (S k)) as [ts' [k' [A [B [C D]]]]].
      * rewrite len_app_one. lia.
      * apply within_snoc; [exact Hts | |];
          unfold timedelta_seconds, timedelta_hours; nra.
      * exists ts', k'. rewrite len_app_one in C.
        split; [exact A | split; [exact B | split; [intros _; apply C; lia | lia]]].
    + do 2 eexists.
      split; [reflexivity | split; [exact Hts | split; [lia | reflexivity]]].
Qed.



(* ----------------------------------------------------------------- *)
(** ** The order of the random schedule *)

Lemma unit_draws_crossing : unit_draws crossing_draws.
Proof.
  intro k. unfold crossing_draws, draws_from.
  do 9 (destruct k as [|k]; [split; [discriminate | reflexivity]|]).
  destruct k; split; simpl; try discriminate; reflexivity.
Qed.

(** C2.  The schedule is sorted before the jitter is applied, not after.
    For two commits in an eight-hour window from time 0 the draws
    [crossing_draws] give the sorted times 0 and 60; the jitter moves them
    to 100 and 40, both inside the window, and the list returned is
    [100; 40], which is not ascending. *)
Theorem generate_commit_schedule_unsorted :
  unit_draws crossing_draws
  /\ generate_commit_schedule crossing_draws 2 pair_generator 0%Q 0%nat
     = Some (Ok [(1200 # 12)%Q; (480 # 12)%Q], 9%nat)
  /\ ((1200 # 12) == 100 /\ (480 # 12) == 40)%Q
  /\ sortedb [(1200 # 12)%Q; (480 # 12)%Q] = false.
Proof.
  split; [exact unit_draws_crossing|].
  split; [vm_compute; reflexivity|].
  split; [split; reflexivity | reflexivity].
Qed.


(* ================================================================= *)
(** * Further properties *)

(* ----------------------------------------------------------------- *)
(** ** The tracker, continued *)

Lemma marks_fold (results : list bool) :
  forall self : SchedulerManager,
    let self' := fold_left mark_commit_completed results self in
    schedule self' = schedule self
    /\ start_time self' = start_time self
    /\ next_commit_idx self' = next_commit_idx self + len results.
Proof.
  induction results as [|b results IH]; intro self; cbn zeta.
  - simpl. unfold len. simpl. repeat split; lia.
  - simpl fold_left. destruct (IH (mark_commit_completed self b)) as [A [B C]].
    rewrite A, B, C. simpl. unfold len. cbn [List.length].
    repeat split; lia.
Qed.

(** X1.  Once the remaining entries of the schedule have all been marked
    completed, whatever the results, the window is over for the tracker:
    [should_stop] holds at every time, [get_next_commit_time] returns
    [None], and [wait_for_next_commit] returns [None] at once, without a
    sleep or a random draw. *)
Theorem marks_exhaust_schedule (rnd : nat -> Q) (self : SchedulerManager)
    (results : list bool) (now : datetime) (k : nat) :
  cursor_in_range self ->
  start_time self <> None ->
  len results = len (schedule self) - next_commit_idx self ->
  let self' := fold_left mark_commit_completed results self in
  should_stop self' now = true
  /\ get_next_commit_time self' = Ok None
  /\ wait_for_next_commit rnd self' now k
     = (Ok {| returned := None; slept := None |}, k).
Proof.
  intros Hinv Hstart Hlen. cbn zeta.
  destruct (marks_fold results self) as [A [B C]].
  assert (Hidx : next_commit_idx (fold_left mark_commit_completed results self)
                 = len (schedule (fold_left mark_commit_completed results self))).
  { rewrite C, A. lia. }
  split; [|split].
  - unfold should_stop. rewrite B.
    destruct (start_time self) as [t0|]; [|contradiction].
    rewrite Hidx. rewrite Z.leb_refl. apply orb_true_r.
  - unfold get_next_commit_time. rewrite Hidx, Z.ltb_irrefl. reflexivity.
  - unfold wait_for_next_commit. rewrite Hidx, Z.leb_refl. reflexivity.
Qed.

Lemma marks_exhaust_schedule_witness :
  let self' := fold_left mark_commit_completed [true; false; true] fresh_manager in
  should_stop self' 50%Q = true
  /\ get_next_commit_time self' = Ok None
  /\ wait_for_next_commit half self' 50%Q 0%nat
     = (Ok {| returned := None; slept := None |}, 0%nat).
Proof.
  apply (marks_exhaust_schedule half fresh_manager [true; false; true] 50%Q 0%nat).
  - unfold cursor_in_range. vm_compute. split; discriminate.
  - discriminate.
  - reflexivity.
Defined.

(** X2.  With a cursor that is not negative, [wait_for_next_commit] returns
    what [get_next_commit_time] returns: the entry at the cursor, or [None]
    when the schedule is used up. *)
Theorem wait_agrees_with_next_commit_time (rnd : nat -> Q)
    (self : SchedulerManager) (now : datetime) (k : nat) :
  0 <= next_commit_idx self ->
  exists w k',
    wait_for_next_commit rnd self now k = (Ok w, k')
    /\ get_next_commit_time self = Ok (returned w).
Proof.
  intro H0.
  unfold wait_for_next_commit, get_next_commit_time.
  destruct (Z.leb_spec (len (schedule self)) (next_commit_idx self)) as [Hge|Hlt].
  - destruct (Z.ltb_spec (next_commit_idx self) (len (schedule self))); [lia|].
    do 2 eexists. split; reflexivity.
  - destruct (Z.ltb_spec (next_commit_idx self) (len (schedule self))); [|lia].
    destruct (py_index_in_range (schedule self) (next_commit_idx self))
      as [t [_ Hp]]; [lia|].
    rewrite Hp.
    destruct (Qle_bool t now); [|destruct (Qlt_bool 0 (t - now))];
      do 2 eexists; split; reflexivity.
Qed.

Lemma wait_agrees_with_next_commit_time_witness :
  exists w k',
    wait_for_next_commit half fresh_manager 3%Q 0%nat = (Ok w, k')
    /\ get_next_commit_time fresh_manager = Ok (returned w).
Proof.
  apply (wait_agrees_with_next_commit_time half fresh_manager 3%Q 0%nat).
  simpl. lia.
Defined.

Lemma len_filter_le {A : Type} (f : A -> bool) (xs : list A) :
  len (filter f xs) <= len xs.
Proof. unfold len. pose proof (filter_length_le f xs). lia. Qed.

(** X3.  In every snapshot of [get_schedule_progress], [completed] and
    [remaining] add up to [total_scheduled]; [upcoming] lies between 0 and
    [total_scheduled]; [next_commit], when there is one, is an entry of the
    schedule that is strictly after the clock reading; and there is none
    exactly when [upcoming] is 0. *)
Theorem get_schedule_progress_accounts (self : SchedulerManager) (now : datetime) :
  let p := get_schedule_progress self now in
  p_completed p + p_remaining p = p_total_scheduled p
  /\ 0 <= p_upcoming p <= p_total_scheduled p
  /\ (forall t, p_next_commit p = Some t -> In t (schedule self) /\ (now < t)%Q)
  /\ (p_next_commit p = None <-> p_upcoming p = 0).
Proof.
  cbn zeta. unfold get_schedule_progress. simpl.
  split; [lia|]. split; [split; [apply len_nonneg | apply len_filter_le]|].
  split.
  - intros t Ht.
    destruct (filter (fun t0 => Qlt_bool now t0) (schedule self)) as [|x rest] eqn:E;
      [discriminate|].
    inversion Ht; subst.
    assert (Hin : In t (filter (fun t0 => Qlt_bool now t0) (schedule self))).
    { rewrite E. left. reflexivity. }
    apply filter_In in Hin. destruct Hin as [Hin Hlt].
    split; [exact Hin | apply Qlt_bool_iff; exact Hlt].
  - destruct (filter (fun t0 => Qlt_bool now t0) (schedule self)) as [|x rest].
    + split; reflexivity.
    + split; [discriminate|]. unfold len. cbn [List.length]. lia.
Qed.

Lemma sorted_head_le (x : datetime) (xs : list datetime) :
  sortedb (x :: xs) = true -> Forall (fun y => (x <= y)%Q) xs.
Proof.
  revert x. induction xs as [|y ys IH]; intros x H; [constructor|].
  simpl in H. apply andb_true_iff in H. destruct H as [Hxy Hs].
  apply Qle_bool_iff in Hxy.
  constructor; [exact Hxy|].
  specialize (IH y Hs).
  eapply Forall_impl; [|exact IH].
  intros z Hz. simpl in Hz. eapply Qle_trans; eassumption.
Qed.

Lemma sorted_tail (x : datetime) (xs : list datetime) :
  sortedb (x :: xs) = true -> sortedb xs = true.
Proof.
  destruct xs as [|y ys]; [reflexivity|].
  simpl. intro H. apply andb_true_iff in H. apply H.
Qed.

(** X4.  On an ascending schedule the [next_commit] of
    [get_schedule_progress] is the earliest scheduled time after the clock
    reading: no entry that is still to come lies before it. *)
Theorem get_schedule_progress_next_is_earliest (self : SchedulerManager)
    (now t : datetime) :
  sortedb (schedule self) = true ->
  p_next_commit (get_schedule_progress self now) = Some t ->
  forall t', In t' (schedule self) -> (now < t')%Q -> (t <= t')%Q.
Proof.
  unfold get_schedule_progress. simpl.
  induction (schedule self) as [|x xs IH]; intros Hs Ht t' Hin Hlt; [contradiction|].
  simpl in Ht.
  destruct (Qlt_bool now x) eqn:Hx.
  - inversion Ht; subst. destruct Hin as [Heq|Hin].
    + subst. apply Qle_refl.
    + pose proof (sorted_head_le _ _ Hs) as Hall.
      rewrite Forall_forall in Hall. apply Hall. exact Hin.
  - destruct Hin as [Heq|Hin].
    + subst. apply Qlt_bool_iff in Hlt. congruence.
    + apply IH; try assumption. eapply sorted_tail; eassumption.
Qed.

Lemma get_schedule_progress_next_is_earliest_witness : (20 <= 30)%Q.
Proof.
  apply (get_schedule_progress_next_is_earliest fresh_manager 12%Q 20%Q).
  - reflexivity.
  - reflexivity.
  - simpl. right. right. left. reflexivity.
  - reflexivity.
Defined.

(** X5.  Along any run of tracker operations that follows the protocol,
    [total_commits] grows by the number of marks and [successful_commits]
    by the number of successful marks; so the successes counted never
    exceed the attempts counted. *)
Theorem counters_track_marks (rnd : nat -> Q) (fuel : nat)
    (ops : list tracker_op) :
  forall (self self' : SchedulerManager) (pending pending' : bool) (k k' : nat),
    run_protocol rnd fuel ops self pending k = Some (self', pending', k') ->
    total_commits self' = total_commits self + len (filter is_mark ops)
    /\ successful_commits self'
       = successful_commits self + len (filter is_success_op ops)
    /\ (successful_commits self <= total_commits self ->
        successful_commits self' <= total_commits self').
Proof.
  induction ops as [|o ops IH]; intros self self' pending pending' k k' Hrun.
  - simpl in Hrun. inversion Hrun; subst. unfold len. simpl.
    repeat split; lia.
  - destruct o as [start_from now| |now|success|now|now]; simpl in Hrun.
    + destruct (generate_new_schedule rnd fuel self start_from now k)
        as [[[r s1] k1]|] eqn:G; [|discriminate].
      destruct (generate_new_schedule_outcome _ _ _ _ _ _ _ _ _ G) as [T [S _]].
      apply IH in Hrun. rewrite T, S in Hrun. exact Hrun.
    + apply IH in Hrun. exact Hrun.
    + destruct pending; [discriminate|].
      destruct (wait_for_next_commit rnd self now k) as [[w|e] k1];
        apply IH in Hrun; exact Hrun.
    + destruct pending; [|discriminate].
      apply IH in Hrun. destruct Hrun as [A [B C]].
      simpl in A, B, C. cbn [filter is_mark is_success_op].
      destruct success; unfold len in *; cbn [List.length]; repeat split; lia.
    + apply IH in Hrun. exact Hrun.
    + apply IH in Hrun. exact Hrun.
Qed.

Lemma counters_track_marks_witness :
  exists self',
    run_protocol half 1 three_cycles fresh_manager false 0%nat
      = Some (self', false, 2%nat)
    /\ total_commits self' = total_commits fresh_manager + len (filter is_mark three_cycles)
    /\ successful_commits self'
       = successful_commits fresh_manager + len (filter is_success_op three_cycles)
    /\ (successful_commits fresh_manager <= total_commits fresh_manager ->
        successful_commits self' <= total_commits self').
Proof.
  eexists. split; [vm_compute; reflexivity|].
  apply (counters_track_marks half 1 three_cycles fresh_manager _ false false 0%nat 2%nat).
  vm_compute. reflexivity.
Defined.

Lemma unit_draws_half : unit_draws half.
Proof. intro k. unfold half. split; [discriminate | reflexivity]. Qed.

(** X6.  When [wait_for_next_commit] sleeps, the entry it waits for is
    still ahead of the clock, and the sleep lasts at least one second, at
    least the time left minus 30 seconds, and at most the time left plus 30
    seconds unless it is the one-second minimum. *)
Theorem wait_for_next_commit_sleep_bounds (rnd : nat -> Q)
    (self : SchedulerManager) (now : datetime) (k k' : nat) (w : Waited) (d : Q) :
  unit_draws rnd ->
  wait_for_next_commit rnd self now k = (Ok w, k') ->
  slept w = Some d ->
  exists next_time,
    returned w = Some next_time
    /\ (now < next_time)%Q
    /\ (1 <= d)%Q
    /\ (next_time - now - 30 <= d)%Q
    /\ ((d <= next_time - now + 30)%Q \/ d = 1%Q)
    /\ k' = S k.
Proof.
  intros Hrnd Hw Hs. unfold wait_for_next_commit in Hw.
  destruct (len (schedule self) <=? next_commit_idx self).
  { inversion Hw; subst. discriminate Hs. }
  destruct (py_index (schedule self) (next_commit_idx self)) as [t|e];
    [|discriminate Hw].
  destruct (Qle_bool t now) eqn:Hdue.
  { inversion Hw; subst. discriminate Hs. }
  apply Qle_bool_false_iff in Hdue.
  destruct (Qlt_bool 0 (t - now)) eqn:Hpos.
  - simpl in Hw. destruct (Hrnd k) as [H0 H1].
    destruct (Qlt_bool 1 (t - now + (-30 + (30 - -30) * rnd k))) eqn:Hmax;
      inversion Hw; subst; simpl in Hs; inversion Hs; subst; clear Hw Hs;
      exists t.
    + apply Qlt_bool_iff in Hmax.
      split; [reflexivity|]. split; [exact Hdue|].
      split; [lra|]. split; [lra|]. split; [left; lra | reflexivity].
    + apply Qlt_bool_false_iff in Hmax.
      split; [reflexivity|]. split; [exact Hdue|].
      split; [lra|]. split; [lra|]. split; [right; reflexivity | reflexivity].
  - inversion Hw; subst. discriminate Hs.
Qed.

Lemma wait_for_next_commit_sleep_bounds_witness :
  exists next_time w d,
    wait_for_next_commit half fresh_manager 3%Q 0%nat = (Ok w, 1%nat)
    /\ slept w = Some d
    /\ returned w = Some next_time
    /\ (3 < next_time)%Q
    /\ (1 <= d)%Q.
Proof.
  pose (w := {| returned := Some 10%Q;
                slept := Some (10 - 3 + (-30 + (30 - -30) * (1 # 2)))%Q |}).
  assert (Hw : wait_for_next_commit half fresh_manager 3%Q 0%nat = (Ok w, 1%nat))
    by reflexivity.
  destruct (wait_for_next_commit_sleep_bounds half fresh_manager 3%Q 0%nat 1%nat
              w _ unit_draws_half Hw eq_refl) as [t [Hr [Hlt [Hd _]]]].
  exists t, w. eexists.
  split; [exact Hw | split; [reflexivity | split; [exact Hr | split; [exact Hlt | exact Hd]]]].
Defined.

(** X7.  Once [should_stop] holds it keeps holding: at every later clock
    reading, and after any further marks. *)
Theorem should_stop_persists (self : SchedulerManager) (now now' : datetime)
    (results : list bool) :
  should_stop self now = true ->
  (now <= now')%Q ->
  should_stop (fold_left mark_commit_completed results self) now' = true.
Proof.
  intros Hstop Hle.
  destruct (marks_fold results self) as [A [B C]].
  unfold should_stop in *. rewrite A, B, C.
  destruct (start_time self) as [t0|]; [|discriminate].
  apply orb_true_iff in Hstop. apply orb_true_iff.
  destruct Hstop as [H|H].
  - left. apply Qle_bool_iff in H. apply Qle_bool_iff.
    eapply Qle_trans; eassumption.
  - right. apply Z.leb_le in H. apply Z.leb_le.
    pose proof (len_nonneg results). lia.
Qed.

Lemma should_stop_persists_witness :
  should_stop (fold_left mark_commit_completed [true] used_manager) 90%Q = true.
Proof.
  apply (should_stop_persists used_manager 50%Q 90%Q [true]).
  - reflexivity.
  - discriminate.
Defined.

(* ----------------------------------------------------------------- *)
(** ** The generator, continued *)





(** X9.  With [randomize] true and [min_commits] above [max_commits] the
    schedule cannot be drawn: [generate_commit_schedule] raises
    [ValueError] before any random number is used, whatever the window. *)
Theorem generate_commit_schedule_empty_range (rnd : nat -> Q) (fuel : nat)
    (self : CommitPatternGenerator) (start : datetime) (k : nat) :
  randomize self = true ->
  max_commits self < min_commits self ->
  generate_commit_schedule rnd fuel self start k = Some (Raise ValueError, k).
Proof.
  intros Hr Hlt. unfold generate_commit_schedule, random_randint.
  rewrite Hr. cbn [negb].
  destruct (Z.ltb_spec (max_commits self) (min_commits self)); [reflexivity | lia].
Qed.

Lemma generate_commit_schedule_empty_range_witness :
  generate_commit_schedule half 0
    {| min_commits := 30; max_commits := 20; window_hours := 8; randomize := true |}
    0%Q 5%nat
  = Some (Raise ValueError, 5%nat).
Proof.
  apply (generate_commit_schedule_empty_range half 0
           {| min_commits := 30; max_commits := 20; window_hours := 8;
              randomize := true |} 0%Q 5%nat).
  - reflexivity.
  - simpl. lia.
Defined.

(** The pipeline of the random branch: the target drawn first, the times
    found by the walk and the padding, then sorting and jitter. *)
Lemma generate_commit_schedule_pipeline (rnd : nat -> Q) (fuel : nat)
    (self : CommitPatternGenerator) (start : datetime) (k : nat) :
  unit_draws rnd ->
  randomize self = true ->
  0 <= min_commits self <= max_commits self ->
  0 <= window_hours self ->
  (Z.to_nat (max_commits self) <= fuel)%nat ->
  let end_time := (start + timedelta_hours (window_hours self))%Q in
  exists num ts k2,
    random_randint rnd (min_commits self) (max_commits self) k = (Ok num, S k)
    /\ min_commits self <= num <= max_commits self
    /\ within start end_time ts
    /\ len ts = num
    /\ generate_commit_schedule rnd fuel self start k
       = Some (Ok (fst (jitter_times rnd start end_time (sort_times ts) k2)),
               snd (jitter_times rnd start end_time (sort_times ts) k2)).
Proof.
  intros Hrnd Hrand Hcounts Hw Hfuel end_time.
  unfold generate_commit_schedule. rewrite Hrand. cbn [negb].
  destruct (random_randint_range rnd Hrnd (min_commits self) (max_commits self) k)
    as [num [Hnum Hrange]]; [lia|].
  rewrite Hnum.
  destruct (walk_spec rnd Hrnd start end_time num fuel [] start (S k))
    as [ts [cur [k1 [Hwalk [Hts Hlen]]]]].
  - unfold len. simpl. lia.
  - constructor.
  - apply Qle_refl.
  - unfold len. simpl. lia.
  - fold end_time. rewrite Hwalk.
    destruct (Z.ltb_spec num (len ts)) as [Hover|_]; [lia|].
    destruct (pad_spec rnd self num start fuel Hrnd Hw ts k1)
      as [ts' [k2 [Hpad [Hts' [Hfull _]]]]].
    + pose proof (len_nonneg ts). lia.
    + exact Hts.
    + rewrite Hpad. exists num, ts', k2.
      split; [reflexivity|]. split; [exact Hrange|].
      split; [exact Hts'|]. split; [apply Hfull; exact Hlen|].
      destruct (jitter_times rnd start end_time (sort_times ts') k2); reflexivity.
Qed.

Lemma jittered_close (lo hi t t' : datetime) :
  jittered lo hi t t' -> (t - 120 <= t' /\ t' <= t + 120)%Q.
Proof.
  intros [j [[H1 H2] Ht]]. subst t'.
  destruct (Qle_bool lo (t + j) && Qle_bool (t + j) hi); split; lra.
Qed.

Lemma sortedb_nth (l : list datetime) :
  sortedb l = true ->
  forall (i j : nat) (a b : datetime),
    (i < j)%nat -> nth_error l i = Some a -> nth_error l j = Some b ->
    (a <= b)%Q.
Proof.
  induction l as [|x xs IH]; intros Hs i j a b Hij Ha Hb.
  - destruct i; discriminate Ha.
  - destruct j as [|j]; [lia|]. simpl in Hb.
    destruct i as [|i].
    + simpl in Ha. inversion Ha; subst.
      pose proof (sorted_head_le _ _ Hs) as Hall.
      rewrite Forall_forall in Hall. apply Hall.
      eapply nth_error_In; eassumption.
    + simpl in Ha. apply (IH (sorted_tail _ _ Hs) i j); [lia | assumption | assumption].
Qed.

Lemma Forall2_nth_right {A B : Type} (R : A -> B -> Prop) (l : list A) (l' : list B) :
  Forall2 R l l' ->
  forall (i : nat) (b : B),
    nth_error l' i = Some b -> exists a, nth_error l i = Some a /\ R a b.
Proof.
  induction 1 as [|x y l l' Hxy Hrest IH]; intros i b Hb.
  - destruct i; discriminate Hb.
  - destruct i as [|i]; simpl in *.
    + inversion Hb; subst. exists x. split; [reflexivity | exact Hxy].
    + apply IH. exact Hb.
Qed.

(** X10.  The schedule returned by the random branch is ascending up to the
    jitter: an element never exceeds a later one by more than 240
    seconds. *)
Theorem generate_commit_schedule_nearly_sorted (rnd : nat -> Q) (fuel : nat)
    (self : CommitPatternGenerator) (start : datetime) (k k' : nat)
    (times : list datetime) :
  unit_draws rnd ->
  randomize self = true ->
  0 <= min_commits self <= max_commits self ->
  0 <= window_hours self ->
  (Z.to_nat (max_commits self) <= fuel)%nat ->
  generate_commit_schedule rnd fuel self start k = Some (Ok times, k') ->
  forall (i j : nat) (ti tj : datetime),
    (i < j)%nat -> nth_error times i = Some ti -> nth_error times j = Some tj ->
    (ti <= tj + 240)%Q.
Proof.
  intros Hrnd Hrand Hcounts Hw Hfuel Hgen i j ti tj Hij Hi Hj.
  destruct (generate_commit_schedule_pipeline rnd fuel self start k
              Hrnd Hrand Hcounts Hw Hfuel) as [num [ts [k2 [_ [_ [Hts [_ Heq]]]]]]].
  rewrite Heq in Hgen. inversion Hgen; subst; clear Hgen.
  destruct (sort_times_spec _ _ ts Hts) as [Hsorted _].
  destruct (jitter_times rnd start (start + timedelta_hours (window_hours self))%Q
              (sort_times ts) k2) as [times k3] eqn:Hjit.
  destruct (jitter_times_spec rnd Hrnd _ _ _ _ _ _ Hjit Hsorted) as [_ [_ HF]].
  simpl in Hi, Hj.
  destruct (Forall2_nth_right _ _ _ HF i ti Hi) as [pi [Hpi Hji]].
  destruct (Forall2_nth_right _ _ _ HF j tj Hj) as [pj [Hpj Hjj]].
  pose proof (sortedb_nth _ (sort_times_sorted ts) i j pi pj Hij Hpi Hpj) as Hle.
  apply jittered_close in Hji. apply jittered_close in Hjj. lra.
Qed.

Lemma generate_commit_schedule_nearly_sorted_witness :
  ((1200 # 12) <= (480 # 12) + 240)%Q.
Proof.
  apply (generate_commit_schedule_nearly_sorted crossing_draws 2 pair_generator
           0%Q 0%nat 9%nat [(1200 # 12)%Q; (480 # 12)%Q]
           unit_draws_crossing eq_refl) with (i := 0%nat) (j := 1%nat).
  - simpl. lia.
  - simpl. lia.
  - simpl. lia.
  - vm_compute. reflexivity.
  - lia.
  - reflexivity.
  - reflexivity.
Defined.

(** X11.  The number of commits of a random schedule is the target drawn
    first, [min_commits + floor(u * (max_commits - min_commits + 1))] for
    the first random number [u]: the walk, the padding and the jitter never
    add or drop a time. *)
Theorem generate_commit_schedule_length (rnd : nat -> Q) (fuel : nat)
    (self : CommitPatternGenerator) (start : datetime) (k k' : nat)
    (times : list datetime) :
  unit_draws rnd ->
  randomize self = true ->
  0 <= min_commits self <= max_commits self ->
  0 <= window_hours self ->
  (Z.to_nat (max_commits self) <= fuel)%nat ->
  generate_commit_schedule rnd fuel self start k = Some (Ok times, k') ->
  len times
  = min_commits self
    + Qfloor (rnd k * inject_Z (max_commits self - min_commits self + 1)).
Proof.
  intros Hrnd Hrand Hcounts Hw Hfuel Hgen.
  destruct (generate_commit_schedule_pipeline rnd fuel self start k
              Hrnd Hrand Hcounts Hw Hfuel)
    as [num [ts [k2 [Hnum [_ [Hts [Hlen Heq]]]]]]].
  rewrite Heq in Hgen. inversion Hgen; subst times k'; clear Hgen.
  destruct (sort_times_spec _ _ ts Hts) as [Hsorted Hslen].
  destruct (jitter_times rnd start (start + timedelta_hours (window_hours self))%Q
              (sort_times ts) k2) as [times k3] eqn:Hjit.
  destruct (jitter_times_spec rnd Hrnd _ _ _ _ _ _ Hjit Hsorted) as [_ [Hjlen _]].
  simpl. rewrite Hjlen, Hslen, Hlen.
  unfold random_randint in Hnum.
  destruct (max_commits self <? min_commits self); inversion Hnum. reflexivity.
Qed.

Lemma generate_commit_schedule_length_witness :
  len [(1200 # 12)%Q; (480 # 12)%Q]
  = min_commits pair_generator
    + Qfloor (crossing_draws 0%nat
              * inject_Z (max_commits pair_generator - min_commits pair_generator + 1)).
Proof.
  apply (generate_commit_schedule_length crossing_draws 2 pair_generator
           0%Q 0%nat 9%nat).
  - exact unit_draws_crossing.
  - reflexivity.
  - simpl. lia.
  - simpl. lia.
  - simpl. lia.
  - vm_compute. reflexivity.
Defined.

(* ----------------------------------------------------------------- *)
(** ** The commit message *)

Lemma truthy_length (s : string) : truthy s = true <-> (0 < String.length s)%nat.
Proof. destruct s; simpl; split; intro H; try discriminate; try lia; reflexivity. Qed.

Lemma append_length (a b : string) :
  String.length (a ++ b) = (String.length a + String.length b)%nat.
Proof. induction a as [|c a IH]; simpl; [reflexivity | rewrite IH; reflexivity]. Qed.

Lemma append_has_newline (a b : string) :
  has_newline (a ++ b) = has_newline a || has_newline b.
Proof.
  induction a as [|c a IH]; simpl; [reflexivity|].
  rewrite IH. apply orb_assoc.
Qed.

Lemma rev_onto_length (s acc : string) :
  String.length (string_rev_onto s acc) = (String.length s + String.length acc)%nat.
Proof.
  revert acc. induction s as [|c s IH]; intro acc; simpl; [reflexivity|].
  rewrite IH. simpl. lia.
Qed.

Lemma rev_onto_has_newline (s acc : string) :
  has_newline (string_rev_onto s acc) = has_newline s || has_newline acc.
Proof.
  revert acc. induction s as [|c s IH]; intro acc; simpl; [reflexivity|].
  rewrite IH. simpl.
  destruct (is_newline c), (has_newline s), (has_newline acc); reflexivity.
Qed.

Lemma string_rev_length (s : string) : String.length (string_rev s) = String.length s.
Proof. unfold string_rev. rewrite rev_onto_length. simpl. lia. Qed.

Lemma string_rev_has_newline (s : string) : has_newline (string_rev s) = has_newline s.
Proof. unfold string_rev. rewrite rev_onto_has_newline. simpl. apply orb_false_r. Qed.

Lemma lstrip_is_lstrip_with (s : string) : lstrip s = lstrip_with is_space s.
Proof. induction s as [|c s IH]; simpl; [reflexivity | rewrite IH; reflexivity]. Qed.

Lemma lstrip_with_length (p : ascii -> bool) (s : string) :
  (String.length (lstrip_with p s) <= String.length s)%nat.
Proof. induction s as [|c s IH]; simpl; [lia | destruct (p c); simpl; lia]. Qed.

Lemma lstrip_with_has_newline (p : ascii -> bool) (s : string) :
  has_newline s = false -> has_newline (lstrip_with p s) = false.
Proof.
  induction s as [|c s IH]; simpl; intro H; [reflexivity|].
  apply orb_false_iff in H. destruct H as [H1 H2].
  destruct (p c); [apply IH; exact H2 | simpl; rewrite H1, H2; reflexivity].
Qed.

Lemma strip_with_length (p : ascii -> bool) (s : string) :
  (String.length (strip_with p s) <= String.length s)%nat.
Proof.
  unfold strip_with. rewrite string_rev_length.
  pose proof (lstrip_with_length p (string_rev (lstrip_with p s))) as H1.
  rewrite string_rev_length in H1.
  pose proof (lstrip_with_length p s). lia.
Qed.

Lemma strip_with_has_newline (p : ascii -> bool) (s : string) :
  has_newline s = false -> has_newline (strip_with p s) = false.
Proof.
  intro H. unfold strip_with. rewrite string_rev_has_newline.
  apply lstrip_with_has_newline. rewrite string_rev_has_newline.
  apply lstrip_with_has_newline. exact H.
Qed.

Lemma strip_is_strip_with (s : string) : strip s = strip_with is_space s.
Proof. unfold strip, strip_with. rewrite !lstrip_is_lstrip_with. reflexivity. Qed.

Lemma first_line_length (s : string) :
  (String.length (first_line s) <= String.length s)%nat.
Proof. induction s as [|c s IH]; simpl; [lia | destruct (is_newline c); simpl; lia]. Qed.

Lemma first_line_has_newline (s : string) : has_newline (first_line s) = false.
Proof.
  induction s as [|c s IH]; simpl; [reflexivity|].
  destruct (is_newline c) eqn:E; simpl; [reflexivity | rewrite E, IH; reflexivity].
Qed.

Lemma take_length (n : nat) (s : string) :
  String.length (take n s) = Nat.min n (String.length s).
Proof.
  revert s. induction n as [|n IH]; intro s; [reflexivity|].
  destruct s as [|c s]; simpl; [reflexivity | rewrite IH; reflexivity].
Qed.

Lemma take_has_newline (n : nat) (s : string) :
  has_newline s = false -> has_newline (take n s) = false.
Proof.
  revert s. induction n as [|n IH]; intros s H; [reflexivity|].
  destruct s as [|c s]; simpl in *; [reflexivity|].
  apply orb_false_iff in H. destruct H as [H1 H2].
  rewrite H1, (IH s H2). reflexivity.
Qed.

Lemma clean_commit_message_bounds (message stamp : string) :
  (String.length stamp <= 64)%nat ->
  has_newline stamp = false ->
  let m := clean_commit_message message stamp in
  truthy m = true
  /\ (String.length m <= 72)%nat
  /\ has_newline m = false.
Proof.
  intros Hlen Hnl. cbn zeta. unfold clean_commit_message.
  assert (Hdefault :
    truthy ("Update: " ++ stamp) = true
    /\ (String.length ("Update: " ++ stamp) <= 72)%nat
    /\ has_newline ("Update: " ++ stamp) = false).
  { split; [reflexivity|]. rewrite append_length, append_has_newline, Hnl.
    simpl. split; [lia | reflexivity]. }
  destruct (truthy message) eqn:Hm; [|rewrite Hm; exact Hdefault].
  set (core := if has_newline (strip_with is_quote (strip message))
               then strip (first_line (strip_with is_quote (strip message)))
               else strip_with is_quote (strip message)).
  assert (Hcore : has_newline core = false).
  { unfold core.
    destruct (has_newline (strip_with is_quote (strip message))) eqn:E; [|exact E].
    rewrite strip_is_strip_with. apply strip_with_has_newline.
    apply first_line_has_newline. }
  destruct (Nat.ltb_spec 72 (String.length core)) as [Hlong|Hshort].
  - assert (Ht : truthy (take 69 core ++ "...") = true).
    { apply truthy_length. rewrite append_length, take_length.
      change (String.length "...") with 3%nat. lia. }
    rewrite Ht. split; [exact Ht | split].
    + rewrite append_length, take_length.
      change (String.length "...") with 3%nat. lia.
    + rewrite append_has_newline, (take_has_newline 69 core Hcore). reflexivity.
  - destruct (truthy core) eqn:Ht; [|exact Hdefault].
    split; [exact Ht | split; [exact Hshort | exact Hcore]].
Qed.

(** X12.  Whatever text the LLM gave, the commit message made of it is not
    empty, has at most 72 characters and holds no line break, the time
    stamp of the default message having at most 64 characters and no line
    break (it has 16). *)
Theorem clean_commit_message_fits (message stamp : string) :
  (String.length stamp <= 64)%nat ->
  has_newline stamp = false ->
  let m := clean_commit_message message stamp in
  truthy m = true
  /\ (String.length m <= 72)%nat
  /\ has_newline m = false.
Proof. exact (clean_commit_message_bounds message stamp). Qed.

Lemma clean_commit_message_fits_witness :
  truthy (clean_commit_message "" "2026-01-31 09:15") = true
  /\ (String.length (clean_commit_message "" "2026-01-31 09:15") <= 72)%nat
  /\ has_newline (clean_commit_message "" "2026-01-31 09:15") = false.
Proof.
  apply (clean_commit_message_fits "" "2026-01-31 09:15").
  - simpl. lia.
  - reflexivity.
Defined.

(* ----------------------------------------------------------------- *)
(** ** The fallback over the LLM providers *)

(** Trying one provider does not change what another would answer,
    whatever the two are sent. *)
Lemma answer_frame (p q : provider) (keys : Keys) (net : Net)
    (prompt prompt' : string) (system_prompt system_prompt' : option string) :
  p <> q ->
  answer p keys (snd (try_provider q keys net prompt' system_prompt'))
         prompt system_prompt
  = answer p keys net prompt system_prompt.
Proof.
  intro H. destruct p, q; try congruence;
    unfold answer, try_provider, _try_nvidia, _try_google, _try_openrouter;
    destruct (truthy (NIM_API_KEY keys)), (truthy (GOOGLE_API_KEY keys)),
             (truthy (OPENROUTER_API_KEY keys)); reflexivity.
Qed.

Lemma contacted_after (q : provider) (keys : Keys) (net : Net)
    (prompt : string) (system_prompt : option string) :
  contacted (snd (try_provider q keys net prompt system_prompt))
  = contacted net ++ (if has_key q keys then [q] else []).
Proof.
  destruct q; unfold try_provider, _try_nvidia, _try_google, _try_openrouter, has_key;
    match goal with |- context [truthy ?k] => destruct (truthy k) end;
    simpl; try reflexivity; symmetry; apply app_nil_r.
Qed.

Lemma generate_from_cons (p : provider) (rest : list provider) (keys : Keys)
    (net : Net) (prompt : string) (system_prompt : option string) :
  generate_from (p :: rest) keys net prompt system_prompt
  = if truthy_result (answer p keys net prompt system_prompt)
    then (text_of (answer p keys net prompt system_prompt),
          snd (try_provider p keys net prompt system_prompt))
    else generate_from rest keys
           (snd (try_provider p keys net prompt system_prompt))
           prompt system_prompt.
Proof.
  unfold answer. simpl generate_from.
  destruct (try_provider p keys net prompt system_prompt) as [[text|] net'];
    simpl; [|reflexivity].
  destruct (truthy text); reflexivity.
Qed.

Lemma generate_first_answer_eq (keys : Keys) (net : Net) (prompt : string)
    (system_prompt : option string) :
  fst (generate keys net prompt system_prompt)
  = (if truthy_result (answer Nvidia keys net prompt system_prompt)
     then text_of (answer Nvidia keys net prompt system_prompt)
     else if truthy_result (answer Google keys net prompt system_prompt)
     then text_of (answer Google keys net prompt system_prompt)
     else if truthy_result (answer OpenRouter keys net prompt system_prompt)
     then text_of (answer OpenRouter keys net prompt system_prompt)
     else EmptyString).
Proof.
  unfold generate, providers. rewrite generate_from_cons.
  destruct (truthy_result (answer Nvidia keys net prompt system_prompt));
    [reflexivity|].
  rewrite generate_from_cons.
  rewrite (answer_frame Google Nvidia) by discriminate.
  destruct (truthy_result (answer Google keys net prompt system_prompt));
    [reflexivity|].
  rewrite generate_from_cons.
  rewrite (answer_frame OpenRouter Google) by discriminate.
  rewrite (answer_frame OpenRouter Nvidia) by discriminate.
  destruct (truthy_result (answer OpenRouter keys net prompt system_prompt));
    reflexivity.
Qed.

(** X13.  [generate] returns the text of the first provider, in the order
    NVIDIA, Google, OpenRouter, whose answer to the request is a non-empty
    text; it returns the empty string exactly when no provider has such an
    answer. *)
Theorem generate_first_answer (keys : Keys) (net : Net) (prompt : string)
    (system_prompt : option string) :
  fst (generate keys net prompt system_prompt)
  = (if truthy_result (answer Nvidia keys net prompt system_prompt)
     then text_of (answer Nvidia keys net prompt system_prompt)
     else if truthy_result (answer Google keys net prompt system_prompt)
     then text_of (answer Google keys net prompt system_prompt)
     else if truthy_result (answer OpenRouter keys net prompt system_prompt)
     then text_of (answer OpenRouter keys net prompt system_prompt)
     else EmptyString)
  /\ (fst (generate keys net prompt system_prompt) = EmptyString
      <-> forall p, truthy_result (answer p keys net prompt system_prompt) = false).
Proof.
  assert (Hnonempty : forall r, truthy_result r = true -> text_of r <> EmptyString).
  { intros [[|c t]|] H; simpl in *; discriminate. }
  pose proof (generate_first_answer_eq keys net prompt system_prompt) as E.
  split; [exact E|].
  rewrite E. split.
  - intros H p.
    destruct (truthy_result (answer Nvidia keys net prompt system_prompt)) eqn:E1;
      [exfalso; apply (Hnonempty _ E1 H)|].
    destruct (truthy_result (answer Google keys net prompt system_prompt)) eqn:E2;
      [exfalso; apply (Hnonempty _ E2 H)|].
    destruct (truthy_result (answer OpenRouter keys net prompt system_prompt)) eqn:E3;
      [exfalso; apply (Hnonempty _ E3 H)|].
    destruct p; assumption.
  - intro H. rewrite (H Nvidia), (H Google), (H OpenRouter). reflexivity.
Qed.

Lemma generate_from_contacts (ps : list provider) :
  forall (keys : Keys) (net : Net) (prompt : string)
         (system_prompt : option string) (p : provider),
    In p (contacted (snd (generate_from ps keys net prompt system_prompt))) ->
    In p (contacted net) \/ (In p ps /\ has_key p keys = true).
Proof.
  induction ps as [|q ps IH]; intros keys net prompt system_prompt p H.
  - left. exact H.
  - rewrite generate_from_cons in H.
    assert (Hq : In p (contacted (snd (try_provider q keys net prompt system_prompt))) ->
                 In p (contacted net) \/ (In p (q :: ps) /\ has_key p keys = true)).
    { rewrite contacted_after. intro Hin. apply in_app_or in Hin.
      destruct Hin as [Hin|Hin]; [left; exact Hin|].
      destruct (has_key q keys) eqn:Hk; [|contradiction].
      destruct Hin as [Heq|[]]. subst. right. split; [left; reflexivity | exact Hk]. }
    destruct (truthy_result (answer q keys net prompt system_prompt)).
    + apply Hq. exact H.
    + apply IH in H. destruct H as [H|[H1 H2]].
      * apply Hq. exact H.
      * right. split; [right; exact H1 | exact H2].
Qed.

Lemma test_each_contacts (ps : list provider) :
  forall (keys : Keys) (net : Net) (p : provider),
    In p (contacted (snd (test_each ps keys net))) ->
    In p (contacted net) \/ (In p ps /\ has_key p keys = true).
Proof.
  induction ps as [|q ps IH]; intros keys net p H.
  - left. exact H.
  - simpl in H.
    pose proof (contacted_after q keys net test_prompt None) as C.
    destruct (try_provider q keys net test_prompt None) as [r1 n1]. simpl in C.
    destruct (test_each ps keys n1) as [results n2] eqn:E.
    simpl in H.
    specialize (IH keys n1 p). rewrite E in IH. simpl in IH.
    destruct (IH H) as [Hin|[H1 H2]].
    + rewrite C in Hin. apply in_app_or in Hin.
      destruct Hin as [Hin|Hin]; [left; exact Hin|].
      destruct (has_key q keys) eqn:Hk; [|contradiction].
      destruct Hin as [Heq|[]]. subst. right. split; [left; reflexivity | exact Hk].
    + right. split; [right; exact H1 | exact H2].
Qed.

(** X14.  Neither [generate], whatever it is asked, nor [test_connection]
    sends a request to a provider whose API key is not configured. *)
Theorem no_key_no_request (keys : Keys) (net : Net) (prompt : string)
    (system_prompt : option string) (p : provider) :
  has_key p keys = false ->
  ~ In p (contacted net) ->
  ~ In p (contacted (snd (generate keys net prompt system_prompt)))
  /\ ~ In p (contacted (snd (test_connection keys net))).
Proof.
  intros Hk Hnot. split.
  - intro H. apply generate_from_contacts in H.
    destruct H as [H|[_ H]]; [contradiction | congruence].
  - intro H. apply test_each_contacts in H.
    destruct H as [H|[_ H]]; [contradiction | congruence].
Qed.

Lemma no_key_no_request_witness :
  ~ In Google
      (contacted (snd (generate
         {| NIM_API_KEY := "k1"; GOOGLE_API_KEY := ""; OPENROUTER_API_KEY := "k3" |}
         {| nvidia_replies := [fun _ => Response 500 None];
            google_replies := [fun _ => Text "hi"];
            openrouter_replies := [fun _ => Response 200 (Some "ok"%string)];
            contacted := [] |}
         "Write a title" (Some "You are terse"%string))))
  /\ ~ In Google
      (contacted (snd (test_connection
         {| NIM_API_KEY := "k1"; GOOGLE_API_KEY := ""; OPENROUTER_API_KEY := "k3" |}
         {| nvidia_replies := [fun _ => Response 500 None];
            google_replies := [fun _ => Text "hi"];
            openrouter_replies := [fun _ => Response 200 (Some "ok"%string)];
            contacted := [] |}))).
Proof.
  apply (no_key_no_request
           {| NIM_API_KEY := "k1"; GOOGLE_API_KEY := ""; OPENROUTER_API_KEY := "k3" |}
           {| nvidia_replies := [fun _ => Response 500 None];
              google_replies := [fun _ => Text "hi"];
              openrouter_replies := [fun _ => Response 200 (Some "ok"%string)];
              contacted := [] |}
           "Write a title" (Some "You are terse"%string) Google).
  - reflexivity.
  - simpl. intro H. exact H.
Defined.

Lemma test_each_results (ps : list provider) :
  forall (keys : Keys) (net : Net),
    NoDup ps ->
    fst (test_each ps keys net)
    = map (fun p => (p, truthy_result (answer p keys net test_prompt None))) ps.
Proof.
  induction ps as [|q ps IH]; intros keys net Hnd; [reflexivity|].
  inversion Hnd as [|? ? Hnotin Hnd']; subst.
  simpl test_each.
  pose proof (fun p => answer_frame p q keys net test_prompt test_prompt None None) as F.
  cbn [map].
  change (answer q keys net test_prompt None)
    with (fst (try_provider q keys net test_prompt None)).
  destruct (try_provider q keys net test_prompt None) as [r1 n1]. simpl in F.
  specialize (IH keys n1 Hnd').
  destruct (test_each ps keys n1) as [results n2]. simpl in IH. simpl.
  f_equal. rewrite IH. apply map_ext_in.
  intros p Hp. rewrite F; [reflexivity|].
  intro Heq. subst. contradiction.
Qed.

(** X15.  [test_connection] reports the three providers in their order,
    each as working exactly when its answer to the test prompt, sent
    without a system prompt, is a non-empty text.  Asked that same prompt
    in the same state of the services, [generate] returns a non-empty text
    exactly when [test_connection] reports some provider as working. *)
Theorem test_connection_matches_generate (keys : Keys) (net : Net) :
  fst (test_connection keys net)
  = map (fun p => (p, truthy_result (answer p keys net test_prompt None))) providers
  /\ truthy (fst (generate keys net test_prompt None))
     = existsb snd (fst (test_connection keys net)).
Proof.
  assert (E : fst (test_connection keys net)
              = map (fun p => (p, truthy_result (answer p keys net test_prompt None)))
                    providers).
  { unfold test_connection. apply test_each_results.
    unfold providers. repeat constructor; simpl; intuition discriminate. }
  split; [exact E|].
  rewrite E. rewrite (generate_first_answer_eq keys net test_prompt None).
  unfold providers. simpl.
  destruct (answer Nvidia keys net test_prompt None) as [[|c1 t1]|];
    destruct (answer Google keys net test_prompt None) as [[|c2 t2]|];
    destruct (answer OpenRouter keys net test_prompt None) as [[|c3 t3]|];
    reflexivity.
Qed.

(** Of another prompt nothing follows from [test_connection]: on
    [net_greeter] the provider is reported as working, and [generate]
    returns the empty string for the prompt of a commit message. *)
Remark test_connection_other_prompt :
  existsb snd (fst (test_connection keys_nvidia net_greeter)) = true
  /\ fst (generate keys_nvidia net_greeter (commit_prompt EmptyString) None)
     = EmptyString.
Proof. split; vm_compute; reflexivity. Qed.

(* ----------------------------------------------------------------- *)
(** ** Setting the agent up *)

(** X16.  [initialize] succeeds exactly when the directory can be made and
    the repository can be cloned or opened or, failing that, initialised
    anew.  After a success the handle is open and the agent is marked
    initialised, and the repository is believed non-empty exactly when it
    was cloned or opened with at least one commit; after a failure the
    agent is as it was. *)
Theorem initialize_outcome (self self' : Handle) (disk : Disk) (ok : bool) :
  initialize self disk = (ok, self') ->
  let primary := if git_dir_exists disk then open_repo disk else clone_from disk in
  (ok = true <-> mkdir_ok disk = true /\ (primary <> None \/ init_ok disk = true))
  /\ (ok = true ->
      repo self' = true
      /\ initialized self' = true
      /\ initial_commit_done (agent_flags self')
         = initial_commit_done (agent_flags self)
      /\ (is_empty_repo (agent_flags self') = false
          <-> exists n, primary = Some (Commits (S n))))
  /\ (ok = false -> self' = self).
Proof.
  unfold initialize, _setup, _initialize_new_repo. cbn zeta. intro H.
  destruct (mkdir_ok disk); simpl in H.
  - destruct (if git_dir_exists disk then open_repo disk else clone_from disk)
      as [h|] eqn:Hp.
    + inversion H; subst; clear H. simpl.
      split; [split; [intros _; split; [reflexivity | left; discriminate]
                     | reflexivity]|].
      split; [|discriminate].
      intros _. repeat split; try reflexivity.
      * intro He. destruct h as [[|n]| |]; simpl in He; try discriminate.
        exists n. reflexivity.
      * intros [n Hn]. inversion Hn; subst. reflexivity.
    + destruct (init_ok disk); inversion H; subst; clear H; simpl.
      * split; [split; [intros _; split; [reflexivity | right; reflexivity]
                       | reflexivity]|].
        split; [|discriminate].
        intros _. repeat split; try reflexivity; try discriminate.
        intros [n Hn]. discriminate Hn.
      * split; [split; [discriminate|]|].
        -- intros [_ [Hn|Hn]]; [contradiction | discriminate].
        -- split; [discriminate | reflexivity].
  - inversion H; subst; clear H.
    split; [split; [discriminate | intros [Hm _]; discriminate]|].
    split; [discriminate | reflexivity].
Qed.

Lemma initialize_outcome_witness :
  let disk := {| mkdir_ok := true; git_dir_exists := false;
                 clone_from := None; open_repo := None; init_ok := true |} in
  let self' := {| agent_flags := {| is_empty_repo := true;
                                    initial_commit_done := false |};
                  repo := true; initialized := true |} in
  (true = true <-> mkdir_ok disk = true /\ (clone_from disk <> None \/ init_ok disk = true))
  /\ (true = true ->
      repo self' = true
      /\ initialized self' = true
      /\ initial_commit_done (agent_flags self')
         = initial_commit_done (agent_flags GitHubAgent_init)
      /\ (is_empty_repo (agent_flags self') = false
          <-> exists n, clone_from disk = Some (Commits (S n))))
  /\ (true = false -> self' = GitHubAgent_init).
Proof.
  apply (initialize_outcome GitHubAgent_init
           {| agent_flags := {| is_empty_repo := true; initial_commit_done := false |};
              repo := true; initialized := true |}
           {| mkdir_ok := true; git_dir_exists := false;
              clone_from := None; open_repo := None; init_ok := true |} true).
  reflexivity.
Defined.

(* ----------------------------------------------------------------- *)
(** ** What the calls leave in the log *)

Lemma git_log (c : call) (w w' : World) (r : string + failure) :
  git c w = (r, w') -> log w' = log w ++ [c].
Proof.
  unfold git, perform.
  destruct (script w) as [|[out|e] rest]; intro H; inversion H; subst; reflexivity.
Qed.

(** X17.  [create_initial_commit] is all or nothing for the agent: when it
    returns [True] the repository is marked non-empty with its initial
    commit done, after exactly the three calls: README written, everything
    staged, one commit with the fixed message; when it returns [False] the
    flags are as they were. *)
Theorem create_initial_commit_all_or_nothing (self self' : GitHubAgent)
    (w w' : World) (created : bool) :
  create_initial_commit self w = (created, self', w') ->
  (created = true ->
     self' = {| is_empty_repo := false; initial_commit_done := true |}
     /\ log w' = log w ++ [WriteReadme; GitAddAll;
                           IndexCommit "Initial commit: Setup repository structure"])
  /\ (created = false -> self' = self).
Proof.
  unfold create_initial_commit, create_initial_commit_body, bind. intro H.
  destruct (git WriteReadme w) as [[o1|e1] w1] eqn:E1;
    [|inversion H; subst; split; [discriminate | reflexivity]].
  destruct (git GitAddAll w1) as [[o2|e2] w2] eqn:E2;
    [|inversion H; subst; split; [discriminate | reflexivity]].
  destruct (git (IndexCommit "Initial commit: Setup repository structure") w2)
    as [[o3|e3] w3] eqn:E3;
    [|inversion H; subst; split; [discriminate | reflexivity]].
  unfold ret in H. inversion H; subst; clear H.
  split; [|discriminate]. intros _. split; [reflexivity|].
  rewrite (git_log _ _ _ _ E3), (git_log _ _ _ _ E2), (git_log _ _ _ _ E1).
  rewrite <- !app_assoc. reflexivity.
Qed.

Lemma create_initial_commit_all_or_nothing_witness :
  (true = true ->
     {| is_empty_repo := false; initial_commit_done := true |}
     = {| is_empty_repo := false; initial_commit_done := true |}
     /\ [WriteReadme; GitAddAll;
         IndexCommit "Initial commit: Setup repository structure"]
        = [] ++ [WriteReadme; GitAddAll;
                 IndexCommit "Initial commit: Setup repository structure"])
  /\ (true = false ->
      {| is_empty_repo := false; initial_commit_done := true |}
      = {| is_empty_repo := true; initial_commit_done := false |}).
Proof.
  apply (create_initial_commit_all_or_nothing
           {| is_empty_repo := true; initial_commit_done := false |}
           {| is_empty_repo := false; initial_commit_done := true |}
           {| script := []; log := [] |}
           {| script := [];
              log := [WriteReadme; GitAddAll;
                      IndexCommit "Initial commit: Setup repository structure"] |}
           true).
  reflexivity.
Defined.

Lemma git_script (c : call) (w w' : World) (r : string + failure) :
  git c w = (r, w') -> script w' = tl (script w).
Proof.
  unfold git, perform.
  destruct (script w) as [|[out|e] rest]; intro H; inversion H; subst; reflexivity.
Qed.

Lemma git_raises (c : call) (w w' : World) (e : failure) :
  git c w = (inr e, w') -> nth_error (script w) 0 = Some (Raises e).
Proof.
  unfold git, perform.
  destruct (script w) as [|[out|e'] rest]; intro H; inversion H; subst; reflexivity.
Qed.

Lemma nth_error_tl {A : Type} (l : list A) (n : nat) :
  nth_error (tl l) n = nth_error l (S n).
Proof. destruct l; [destruct n|]; reflexivity. Qed.

(** X18.  [pull_latest] never lets a [GitCommandError] out; on a repository
    believed empty it returns [True] without any call; otherwise its calls
    are, in this order and up to the first that raises, a look at the
    remotes, a second look at them for [origin], and the pull, the last
    two only when the first look found a remote; and it returns [False]
    only when the last call made raised a [GitCommandError] whose text
    does not say that there is no upstream branch. *)
Theorem pull_latest_outcome (self : GitHubAgent) (w w' : World)
    (r : bool + failure) :
  pull_latest self w = (r, w') ->
  (forall e, r <> inr (GitCommandError e))
  /\ (is_empty_repo self = true -> r = inl true /\ w' = w)
  /\ (is_empty_repo self = false ->
      exists n,
        (1 <= n <= 3)%nat
        /\ log w' = log w ++ firstn n [Remotes; Remotes; Pull]
        /\ (2 <= n ->
            exists remotes w1,
              git Remotes w = (inl remotes, w1) /\ truthy remotes = true)%nat
        /\ (r = inl false ->
            exists e,
              nth_error (script w) (n - 1) = Some (Raises (GitCommandError e))
              /\ contains "no upstream branch" (lower e) = false)).
Proof.
  unfold pull_latest. intro H.
  destruct (is_empty_repo self).
  - unfold ret in H. inversion H; subst; clear H.
    split; [discriminate|]. split; [intros _; split; reflexivity | discriminate].
  - unfold bind in H.
    split; [|split; [discriminate|intros _]].
    + destruct (git Remotes w) as [[remotes|[e|e]] w1];
        [destruct (negb (truthy remotes));
           [|destruct (git Remotes w1) as [[origin|[e|e]] w2];
               [destruct (git Pull w2) as [[out|[e|e]] w3]| |]]| |];
        inversion H; subst; intros e0 He0; discriminate He0.
    + destruct (git Remotes w) as [[remotes|[e|e]] w1] eqn:E1;
        pose proof (git_log _ _ _ _ E1) as L1;
        pose proof (git_script _ _ _ _ E1) as S1.
      * destruct (negb (truthy remotes)) eqn:T.
        { unfold ret in H. inversion H; subst; clear H.
          exists 1%nat. split; [lia|]. split; [exact L1|].
          split; [intro Hn; lia | discriminate]. }
        apply negb_false_iff in T.
        destruct (git Remotes w1) as [[origin|[e|e]] w2] eqn:E2;
          pose proof (git_log _ _ _ _ E2) as L2;
          pose proof (git_script _ _ _ _ E2) as S2.
        -- destruct (git Pull w2) as [[out|[e|e]] w3] eqn:E3;
             pose proof (git_log _ _ _ _ E3) as L3;
             inversion H; subst; clear H;
             exists 3%nat; (split; [lia|]);
             (split; [rewrite L3, L2, L1, <- !app_assoc; reflexivity|]);
             (split; [intros _; exists remotes, w1; split; [reflexivity | exact T]|]);
             try discriminate.
           intro Hr. injection Hr as Hc. exists e. split; [|exact Hc].
           apply git_raises in E3. rewrite S2, S1, !nth_error_tl in E3. exact E3.
        -- inversion H; subst; clear H.
           exists 2%nat. split; [lia|].
           split; [rewrite L2, L1, <- !app_assoc; reflexivity|].
           split; [intros _; exists remotes, w1; split; [reflexivity | exact T]|].
           intro Hr. injection Hr as Hc. exists e. split; [|exact Hc].
           apply git_raises in E2. rewrite S1, !nth_error_tl in E2. exact E2.
        -- inversion H; subst; clear H.
           exists 2%nat. split; [lia|].
           split; [rewrite L2, L1, <- !app_assoc; reflexivity|].
           split; [intros _; exists remotes, w1; split; [reflexivity | exact T]|].
           discriminate.
      * inversion H; subst; clear H.
        exists 1%nat. split; [lia|]. split; [exact L1|].
        split; [intro Hn; lia|].
        intro Hr. injection Hr as Hc. exists e. split; [|exact Hc].
        apply git_raises in E1. exact E1.
      * inversion H; subst; clear H.
        exists 1%nat. split; [lia|]. split; [exact L1|].
        split; [intro Hn; lia | discriminate].
Qed.

Lemma pull_latest_outcome_witness :
  exists w',
    pull_latest agent_nonempty world_with_remote = (inl true, w')
    /\ is_empty_repo agent_nonempty = false
    /\ exists n,
         (1 <= n <= 3)%nat
         /\ log w' = log world_with_remote ++ firstn n [Remotes; Remotes; Pull].
Proof.
  eexists.
  assert (H : pull_latest agent_nonempty world_with_remote = (inl true, _))
    by reflexivity.
  split; [exact H|]. split; [reflexivity|].
  destruct (pull_latest_outcome agent_nonempty world_with_remote _ _ H)
    as [_ [_ Hcalls]].
  destruct (Hcalls eq_refl) as [n [Hn [Hlog _]]].
  exists n. split; [exact Hn | exact Hlog].
Defined.

(* ----------------------------------------------------------------- *)
(** ** commit_and_push, continued *)

Lemma count_calls_snoc (p : call -> bool) (l : list call) (c : call) :
  count_calls p (l ++ [c])
  = (count_calls p l + if p c then 1 else 0)%nat.
Proof.
  unfold count_calls. rewrite filter_app, length_app. simpl.
  destruct (p c); reflexivity.
Qed.

Lemma keeping_ret {A : Type} (p : call -> bool) (a : A) : keeping p (ret a).
Proof. intros w r w' H. unfold ret in H. inversion H; subst. lia. Qed.

Lemma keeping_git (p : call -> bool) (c : call) : keeping p (git c).
Proof.
  intros w r w' H. rewrite (git_log _ _ _ _ H), count_calls_snoc. lia.
Qed.

Lemma keeping_bind {A B : Type} (p : call -> bool) (m : Git A) (f : A -> Git B) :
  keeping p m -> (forall a, keeping p (f a)) -> keeping p (bind m f).
Proof.
  intros Hm Hf w r w' H. unfold bind in H.
  destruct (m w) as [[a|e] w1] eqn:E.
  - pose proof (Hm _ _ _ E). pose proof (Hf a _ _ _ H). lia.
  - inversion H; subst. apply (Hm _ _ _ E).
Qed.

Lemma silent_keeping {A : Type} (p : call -> bool) (m : Git A) :
  silent p m -> keeping p m.
Proof. intros H w r w' E. rewrite (H _ _ _ E). lia. Qed.

Lemma silent_push_origin (p : call -> bool) :
  p Push = false -> p ActiveBranch = false ->
  (forall b, p (PushUpstream b) = false) ->
  silent p push_origin.
Proof.
  intros H1 H2 H3 w r w' H. unfold push_origin in H.
  destruct (git Push w) as [[out|[pe|oe]] w1] eqn:E;
    pose proof (silent_git p Push H1 _ _ _ E) as Hs.
  - inversion H; subst. exact Hs.
  - destruct (contains "no upstream branch" (lower pe)).
    + assert (S : silent p (current_branch <- git ActiveBranch ;;
                            git (PushUpstream current_branch) ;;; ret tt)).
      { apply silent_bind; [apply silent_git; exact H2|]. intro b.
        apply silent_bind; [apply silent_git; apply H3|]. intros _. apply silent_ret. }
      rewrite (S _ _ _ H). exact Hs.
    + inversion H; subst. exact Hs.
  - inversion H; subst. exact Hs.
Qed.

Lemma keeping_commit_and_push_body (commit_message : string)
    (files : option (list string)) :
  keeping is_commit (commit_and_push_body commit_message files).
Proof.
  unfold commit_and_push_body.
  apply keeping_bind;
    [apply silent_keeping, silent_stage; [intro; reflexivity | reflexivity] | intros _].
  apply keeping_bind; [apply keeping_git | intro status_output].
  destruct (negb (truthy (strip status_output))); [apply keeping_ret|].
  apply keeping_bind; [apply keeping_git | intros _].
  apply keeping_bind; [apply keeping_git | intro remotes].
  destruct (truthy remotes); [|apply keeping_ret].
  apply keeping_bind; [apply keeping_git | intros _].
  apply keeping_bind; [|intros _; apply keeping_ret].
  apply silent_keeping, silent_push_origin; try reflexivity;
    intro; reflexivity.
Qed.

Lemma commit_and_push_body_success (commit_message : string)
    (files : option (list string)) (w w' : World) (m : string) :
  commit_and_push_body commit_message files w = (inl (true, m), w') ->
  count_calls is_commit (log w') = S (count_calls is_commit (log w))
  /\ (m = commit_message \/ m = (commit_message ++ " (local only)")%string).
Proof.
  unfold commit_and_push_body, bind. intro H.
  destruct (stage files w) as [[u|e] w1] eqn:E1; [|discriminate H].
  pose proof (silent_stage is_commit files (fun _ => eq_refl) eq_refl _ _ _ E1) as S1.
  destruct (git GitStatus w1) as [[status_output|e] w2] eqn:E2; [|discriminate H].
  pose proof (silent_git is_commit GitStatus eq_refl _ _ _ E2) as S2.
  destruct (negb (truthy (strip status_output))); [discriminate H|].
  destruct (git (IndexCommit commit_message) w2) as [[o|e] w3] eqn:E3;
    [|discriminate H].
  pose proof (git_log _ _ _ _ E3) as L3.
  destruct (git Remotes w3) as [[remotes|e] w4] eqn:E4; [|discriminate H].
  pose proof (silent_git is_commit Remotes eq_refl _ _ _ E4) as S4.
  assert (Hcount : count_calls is_commit (log w4) = S (count_calls is_commit (log w))).
  { rewrite S4, L3, count_calls_snoc, S2, S1. simpl. lia. }
  destruct (truthy remotes).
  - destruct (git Remotes w4) as [[origin|e] w4'] eqn:E4'; [|discriminate H].
    pose proof (silent_git is_commit Remotes eq_refl _ _ _ E4') as S4'.
    destruct (push_origin w4') as [[u5|e] w5] eqn:E5; [|discriminate H].
    unfold ret in H. inversion H; subst.
    rewrite (silent_push_origin is_commit eq_refl eq_refl (fun _ => eq_refl) _ _ _ E5).
    split; [rewrite S4'; exact Hcount | left; reflexivity].
  - unfold ret in H. inversion H; subst.
    split; [exact Hcount | right; reflexivity].
Qed.

Lemma keeping_create_initial_commit (self self' : GitHubAgent) (w w' : World)
    (created : bool) :
  create_initial_commit self w = (created, self', w') ->
  (count_calls is_commit (log w) <= count_calls is_commit (log w'))%nat.
Proof.
  unfold create_initial_commit. intro H.
  assert (K : keeping is_commit create_initial_commit_body).
  { unfold create_initial_commit_body.
    repeat (apply keeping_bind; [apply keeping_git | intros _]).
    apply keeping_ret. }
  destruct (create_initial_commit_body w) as [[u|e] w1] eqn:E;
    inversion H; subst; apply (K _ _ _ E).
Qed.

Lemma commit_and_push_success_aux (fuel : nat) :
  forall (self self' : GitHubAgent) (w w' : World) (commit_message m : string)
         (files : option (list string)),
    commit_and_push fuel self w commit_message files = Some ((true, m), self', w') ->
    (count_calls is_commit (log w) < count_calls is_commit (log w'))%nat
    /\ (m = commit_message \/ m = (commit_message ++ " (local only)")%string).
Proof.
  induction fuel as [|fuel IH]; intros self self' w w' commit_message m files H;
    [discriminate H|].
  simpl in H.
  destruct (commit_and_push_body commit_message files w) as [[r|[e|e]] w1] eqn:E.
  - inversion H; subst.
    destruct (commit_and_push_body_success _ _ _ _ _ E) as [Hc Hm].
    split; [lia | exact Hm].
  - pose proof (keeping_commit_and_push_body _ _ _ _ _ E) as K1.
    destruct (head_unresolved e); [|discriminate H].
    destruct (create_initial_commit _ w1) as [[created self2] w2] eqn:C.
    pose proof (keeping_create_initial_commit _ _ _ _ _ C) as K2.
    destruct created; [|discriminate H].
    destruct (IH _ _ _ _ _ _ _ H) as [Hc Hm].
    split; [lia | exact Hm].
  - discriminate H.
Qed.



Lemma commit_and_push_flags_aux (fuel : nat) :
  forall (self self' : GitHubAgent) (w w' : World) (commit_message : string)
         (files : option (list string)) (r : bool * string),
    commit_and_push fuel self w commit_message files = Some (r, self', w') ->
    (initial_commit_done self = true -> initial_commit_done self' = true)
    /\ (is_empty_repo self = false -> is_empty_repo self' = true ->
        r = (false, "Failed to create initial commit"%string)).
Proof.
  induction fuel as [|fuel IH]; intros self self' w w' commit_message files r H;
    [discriminate H|].
  simpl in H.
  destruct (commit_and_push_body commit_message files w) as [[r0|[e|e]] w1] eqn:E.
  - inversion H; subst. split; [auto | intros H1 H2; congruence].
  - destruct (head_unresolved e);
      [|inversion H; subst; split; [auto | intros H1 H2; congruence]].
    destruct (create_initial_commit _ w1) as [[created self2] w2] eqn:C.
    unfold create_initial_commit in C.
    destruct (create_initial_commit_body w1) as [[u|e'] w3];
      inversion C; subst; clear C.
    + destruct (IH _ _ _ _ _ _ _ H) as [A B].
      split; [intros _; apply A; reflexivity | intros _ Hemp; apply B; [reflexivity | exact Hemp]].
    + inversion H; subst. simpl. split; [auto | intros _ _; reflexivity].
  - inversion H; subst. split; [auto | intros H1 H2; congruence].
Qed.

(** X20.  [commit_and_push] never clears [initial_commit_done], and it
    leaves a repository that was believed non-empty marked empty only when
    it returns [(False, "Failed to create initial commit")], the recovery
    from an unresolved HEAD having failed. *)
Theorem commit_and_push_flags (fuel : nat) :
  forall (self self' : GitHubAgent) (w w' : World) (commit_message : string)
         (files : option (list string)) (r : bool * string),
    commit_and_push fuel self w commit_message files = Some (r, self', w') ->
    (initial_commit_done self = true -> initial_commit_done self' = true)
    /\ (is_empty_repo self = false -> is_empty_repo self' = true ->
        r = (false, "Failed to create initial commit"%string)).
Proof. exact (commit_and_push_flags_aux fuel). Qed.

Lemma commit_and_push_flags_witness :
  exists r self' w',
    commit_and_push 2 agent_bootstrapped world_unrecoverable "Update notes" None
    = Some (r, self', w')
    /\ initial_commit_done agent_bootstrapped = true
    /\ initial_commit_done self' = true
    /\ is_empty_repo agent_bootstrapped = false
    /\ is_empty_repo self' = true
    /\ r = (false, "Failed to create initial commit"%string)
    /\ log w' = [GitAddAll; GitStatus; IndexCommit "Update notes"; WriteReadme].
Proof.
  do 3 eexists.
  assert (H : commit_and_push 2 agent_bootstrapped world_unrecoverable
                "Update notes" None
              = Some (_, {| is_empty_repo := true; initial_commit_done := true |}, _))
    by (vm_compute; reflexivity).
  destruct (commit_and_push_flags 2 _ _ _ _ _ _ _ H) as [Hdone Hempty].
  split; [exact H|].
  split; [reflexivity|].
  split; [exact (Hdone eq_refl)|].
  split; [reflexivity|].
  split; [reflexivity|].
  split; [exact (Hempty eq_refl eq_refl) | reflexivity].
Defined.

(* ----------------------------------------------------------------- *)
(** ** The commit cycle *)

Lemma first_commit_log (commit_message : string) (w w' : World) :
  first_commit commit_message w = (inl tt, w') ->
  log w' = log w ++ [WriteReadme; GitAddAll; IndexCommit commit_message].
Proof.
  unfold first_commit, bind. intro H.
  destruct (git WriteReadme w) as [[o1|e1] w1] eqn:E1; [|discriminate H].
  destruct (git GitAddAll w1) as [[o2|e2] w2] eqn:E2; [|discriminate H].
  destruct (git (IndexCommit commit_message) w2) as [[o3|e3] w3] eqn:E3;
    [|discriminate H].
  unfold ret in H. inversion H; subst.
  rewrite (git_log _ _ _ _ E3), (git_log _ _ _ _ E2), (git_log _ _ _ _ E1).
  rewrite <- !app_assoc. reflexivity.
Qed.

Lemma silent_first_commit (p : call -> bool) (commit_message : string) :
  p WriteReadme = false -> p GitAddAll = false ->
  p (IndexCommit commit_message) = false ->
  silent p (first_commit commit_message).
Proof.
  intros H1 H2 H3. unfold first_commit.
  apply silent_bind; [apply silent_git; exact H1 | intros _].
  apply silent_bind; [apply silent_git; exact H2 | intros _].
  apply silent_bind; [apply silent_git; exact H3 | intros _].
  apply silent_ret.
Qed.

Lemma silent_first_push (p : call -> bool) :
  p ActiveBranch = false -> (forall b, p (PushUpstream b) = false) ->
  silent p first_push.
Proof.
  intros H1 H2. unfold first_push.
  apply silent_bind; [apply silent_git; exact H1 | intro b].
  apply silent_bind; [apply silent_git; apply H2 | intros _].
  apply silent_ret.
Qed.

Lemma first_push_log (w w' : World) (r : unit + failure) :
  first_push w = (r, w') ->
  exists n branch,
    (1 <= n <= 2)%nat
    /\ log w' = log w ++ firstn n [ActiveBranch; PushUpstream branch]
    /\ (forall u, r = inl u -> n = 2%nat).
Proof.
  unfold first_push, bind, ret. intro H.
  destruct (git ActiveBranch w) as [[b|eb] wb] eqn:Eb.
  - destruct (git (PushUpstream b) wb) as [[o|eo] wo] eqn:Eo;
      inversion H; subst; exists 2%nat, b;
      (split; [lia|]);
      (split; [rewrite (git_log _ _ _ _ Eo), (git_log _ _ _ _ Eb), <- app_assoc;
               reflexivity|]);
      intros u Hu; [reflexivity | discriminate Hu].
  - inversion H; subst. exists 1%nat, EmptyString.
    split; [lia|]. split; [apply (git_log _ _ _ _ Eb)|].
    intros u Hu. discriminate Hu.
Qed.

(** The content step either fails with the content agent, before any
    call, or makes one call, the write of the file of the cycle, and
    gives the summary of the changes, whether or not the write went
    well. *)
Lemma produce_content_outcome (env : CycleEnv) (w w' : World)
    (r : string + failure) :
  produce_content env w = (r, w') ->
  (exists msg, content_agent env = Some (ContentFails msg)
               /\ r = inr (OtherException msg) /\ w' = w)
  \/ (r = inl (changes_summary_of env)
      /\ log w' = log w ++ [CreateFile (fst (cycle_file env)) (snd (cycle_file env))]).
Proof.
  unfold produce_content, changes_summary_of, cycle_file, create_file, bind, ret.
  destruct (content_agent env) as [[content fname|msg]|].
  - destruct (truthy content && truthy fname); cbn [fst snd]; intro H;
      match type of H with
      | context [git ?c w] => destruct (git c w) as [[o|e] w1] eqn:E
      end;
      inversion H; subst; right; (split; [reflexivity | apply (git_log _ _ _ _ E)]).
  - intro H. inversion H; subst. left. exists msg. repeat split; reflexivity.
  - cbn [fst snd]. intro H.
    match type of H with
    | context [git ?c w] => destruct (git c w) as [[o|e] w1] eqn:E
    end;
      inversion H; subst; right; (split; [reflexivity | apply (git_log _ _ _ _ E)]).
Qed.

Lemma silent_produce_content (p : call -> bool) (env : CycleEnv) :
  (forall f c, p (CreateFile f c) = false) -> silent p (produce_content env).
Proof.
  intros Hp w r w' H.
  destruct (produce_content_outcome _ _ _ _ H) as [[msg [_ [_ E]]]|[_ L]].
  - subst. reflexivity.
  - rewrite L, count_calls_snoc, Hp. lia.
Qed.

Lemma count_calls_app (p : call -> bool) (l l' : list call) :
  count_calls p (l ++ l') = (count_calls p l + count_calls p l')%nat.
Proof. unfold count_calls. rewrite filter_app, length_app. reflexivity. Qed.

Lemma execute_bootstrap_aux (self self' : Handle) (env : CycleEnv)
    (keys : Keys) (net net' : Net) (w w' : World) (r : bool * string) :
  repo self = true ->
  is_empty_repo (agent_flags self) = true ->
  execute self env keys net w = Some (r, self', w', net') ->
  let commit_message :=
    fst (generate_commit_message keys net (changes_summary_of env)
           (minute_stamp env)) in
  count_calls is_push (log w') = count_calls is_push (log w)
  /\ ((self' = self /\ fst r = false)
      \/ (self' = {| agent_flags := {| is_empty_repo := false;
                                      initial_commit_done := true |};
                     repo := true;
                     initialized := initialized self |}
          /\ count_calls is_commit (log w') = S (count_calls is_commit (log w))
          /\ exists n branch,
               (1 <= n <= 4)%nat
               /\ log w'
                  = log w
                    ++ [CreateFile (fst (cycle_file env)) (snd (cycle_file env));
                        WriteReadme; GitAddAll; IndexCommit commit_message]
                    ++ firstn n [Remotes; Remotes; ActiveBranch;
                                 PushUpstream branch]))
  /\ (fst r = true ->
      snd r = commit_message /\ is_empty_repo (agent_flags self') = false).
Proof.
  intros Hrepo Hempty H. cbn zeta. unfold execute in H.
  rewrite Hrepo, Hempty in H. cbn [negb] in H.
  destruct (produce_content env w) as [[summary|e] w0] eqn:PC.
  2:{ inversion H; subst.
      split; [apply (silent_produce_content is_push env (fun _ _ => eq_refl) _ _ _ PC)|].
      split; [left; split; reflexivity | discriminate]. }
  destruct (produce_content_outcome _ _ _ _ PC) as [[msg [_ [Hr _]]]|[Hs L0]];
    [discriminate Hr|].
  injection Hs as Hs. subst summary.
  destruct (generate_commit_message keys net (changes_summary_of env)
              (minute_stamp env)) as [msg net1].
  cbn [fst].
  destruct (first_commit msg w0) as [[[]|e1] w1] eqn:F.
  2:{ inversion H; subst.
      split.
      - rewrite (silent_first_commit is_push msg eq_refl eq_refl eq_refl _ _ _ F).
        apply (silent_produce_content is_push env (fun _ _ => eq_refl) _ _ _ PC).
      - split; [left; split; reflexivity | discriminate]. }
  pose proof (first_commit_log _ _ _ F) as L1.
  assert (Hshape : forall n branch wf,
            (1 <= n <= 4)%nat ->
            log wf = log w1 ++ firstn n [Remotes; Remotes; ActiveBranch;
                                         PushUpstream branch] ->
            count_calls is_push (log wf) = count_calls is_push (log w)
            /\ count_calls is_commit (log wf) = S (count_calls is_commit (log w))
            /\ exists n branch,
                 (1 <= n <= 4)%nat
                 /\ log wf
                    = log w
                      ++ [CreateFile (fst (cycle_file env)) (snd (cycle_file env));
                          WriteReadme; GitAddAll; IndexCommit msg]
                      ++ firstn n [Remotes; Remotes; ActiveBranch;
                                   PushUpstream branch]).
  { intros n branch wf Hn Hlog.
    assert (E : log wf
                = log w
                  ++ [CreateFile (fst (cycle_file env)) (snd (cycle_file env));
                      WriteReadme; GitAddAll; IndexCommit msg]
                  ++ firstn n [Remotes; Remotes; ActiveBranch; PushUpstream branch]).
    { rewrite Hlog, L1, L0, <- !app_assoc. reflexivity. }
    split; [|split].
    - rewrite E, !count_calls_app.
      destruct n as [|[|[|[|[|n]]]]]; try lia; unfold count_calls; simpl; lia.
    - rewrite E, !count_calls_app.
      destruct n as [|[|[|[|[|n]]]]]; try lia; unfold count_calls; simpl; lia.
    - exists n, branch. split; [exact Hn | exact E]. }
  destruct (git Remotes w1) as [[remotes|e2] w2] eqn:R1;
    pose proof (git_log _ _ _ _ R1) as L2.
  2:{ inversion H; subst.
      destruct (Hshape 1%nat EmptyString w' ltac:(lia) L2) as [A [B C]].
      split; [exact A|]. split; [|discriminate].
      right. split; [reflexivity | split; [exact B | exact C]]. }
  destruct (truthy remotes).
  2:{ inversion H; subst.
      destruct (Hshape 1%nat EmptyString w' ltac:(lia) L2) as [A [B C]].
      split; [exact A|]. split.
      - right. split; [reflexivity | split; [exact B | exact C]].
      - intros _. split; reflexivity. }
  destruct (git Remotes w2) as [[origin|e3] w3] eqn:R2;
    pose proof (git_log _ _ _ _ R2) as L3.
  2:{ inversion H; subst.
      assert (E : log w' = log w1 ++ firstn 2 [Remotes; Remotes; ActiveBranch;
                                                PushUpstream EmptyString]).
      { rewrite L3, L2, <- app_assoc. reflexivity. }
      destruct (Hshape 2%nat EmptyString w' ltac:(lia) E) as [A [B C]].
      split; [exact A|]. split; [|discriminate].
      right. split; [reflexivity | split; [exact B | exact C]]. }
  destruct (first_push w3) as [[[]|e4] w4] eqn:P;
    destruct (first_push_log _ _ _ P) as [n [branch [Hn [L4 Hok]]]];
    assert (E : log w4 = log w1 ++ firstn (2 + n) [Remotes; Remotes; ActiveBranch;
                                                   PushUpstream branch])
      by (rewrite L4, L3, L2, <- !app_assoc; reflexivity);
    destruct (Hshape (2 + n)%nat branch w4 ltac:(lia) E) as [A [B C]];
    inversion H; subst.
  - split; [exact A|]. split.
    + right. split; [reflexivity | split; [exact B | exact C]].
    + intros _. split; reflexivity.
  - split; [exact A|]. split; [|discriminate].
    right. split; [reflexivity | split; [exact B | exact C]].
Qed.



Lemma silent_pull_latest (p : call -> bool) (self : GitHubAgent) :
  p Remotes = false -> p Pull = false -> silent p (pull_latest self).
Proof.
  intros Hp Hq w r w' H.
  destruct (is_empty_repo self) eqn:Hempty.
  - destruct (pull_latest_outcome _ _ _ _ H) as [_ [A _]].
    destruct (A Hempty) as [_ E]. subst. reflexivity.
  - destruct (pull_latest_outcome _ _ _ _ H) as [_ [_ A]].
    destruct (A Hempty) as [n [Hn [L _]]].
    rewrite L, count_calls_app.
    assert (Z0 : count_calls p (firstn n [Remotes; Remotes; Pull]) = 0%nat).
    { destruct n as [|[|[|[|n]]]]; try lia; unfold count_calls; simpl;
        rewrite ?Hp, ?Hq; reflexivity. }
    lia.
Qed.

(** X22.  A cycle that reports success, on an empty repository or not, has
    called [repo.index.commit], leaves the repository believed non-empty,
    and returns the generated commit message itself (without the
    [ (local only)] of [commit_and_push]): a non-empty text of at most 72
    characters on one line, the time stamp having at most 64 characters and
    no line break. *)
Theorem execute_success (self self' : Handle) (env : CycleEnv)
    (keys : Keys) (net net' : Net) (w w' : World) (m : string) :
  (String.length (minute_stamp env) <= 64)%nat ->
  has_newline (minute_stamp env) = false ->
  execute self env keys net w = Some ((true, m), self', w', net') ->
  m = fst (generate_commit_message keys net (changes_summary_of env)
             (minute_stamp env))
  /\ truthy m = true
  /\ (String.length m <= 72)%nat
  /\ has_newline m = false
  /\ is_empty_repo (agent_flags self') = false
  /\ (count_calls is_commit (log w) < count_calls is_commit (log w'))%nat.
Proof.
  intros Hlen Hnl H.
  assert (Hfits : forall msg,
            msg = fst (generate_commit_message keys net (changes_summary_of env)
                         (minute_stamp env)) ->
            truthy msg = true /\ (String.length msg <= 72)%nat /\ has_newline msg = false).
  { intros msg Hmsg. subst msg. unfold generate_commit_message.
    destruct (generate keys net (commit_prompt (changes_summary_of env)) None)
      as [text net1]. simpl.
    apply clean_commit_message_bounds; assumption. }
  assert (Hm : m = fst (generate_commit_message keys net (changes_summary_of env)
                          (minute_stamp env))
               /\ is_empty_repo (agent_flags self') = false
               /\ (count_calls is_commit (log w) < count_calls is_commit (log w'))%nat).
  { destruct (repo self) eqn:Hrepo.
    2:{ unfold execute in H. rewrite Hrepo in H. simpl in H. discriminate H. }
    destruct (is_empty_repo (agent_flags self)) eqn:Hempty.
    - destruct (execute_bootstrap_aux _ _ _ _ _ _ _ _ _ Hrepo Hempty H)
        as [_ [Hcase Hok]].
      destruct (Hok eq_refl) as [Hmsg Hne]. simpl in Hmsg.
      split; [exact Hmsg | split; [exact Hne|]].
      destruct Hcase as [[_ Hf]|[_ [Hc _]]]; [discriminate Hf | lia].
    - unfold execute in H. rewrite Hrepo, Hempty in H. cbn [negb] in H.
      destruct (pull_latest (agent_flags self) w) as [[b|e] w1] eqn:Hpull;
        [|discriminate H].
      pose proof (silent_pull_latest is_commit _ eq_refl eq_refl _ _ _ Hpull) as S1.
      destruct (produce_content env w1) as [[summary|e] w2] eqn:PC;
        [|discriminate H].
      pose proof (silent_produce_content is_commit env (fun _ _ => eq_refl) _ _ _ PC)
        as S2.
      destruct (produce_content_outcome _ _ _ _ PC) as [[msg0 [_ [Hr _]]]|[Hs _]];
        [discriminate Hr|].
      injection Hs as Hs. subst summary.
      destruct (generate_commit_message keys net (changes_summary_of env)
                  (minute_stamp env)) as [msg net1].
      destruct (commit_and_push_run (agent_flags self) w2 msg None)
        as [[[[success result_message] flags'] w3]|] eqn:Hrun; [|discriminate H].
      destruct success; [|discriminate H].
      inversion H; subst; clear H.
      unfold commit_and_push_run in Hrun.
      destruct (commit_and_push_success_aux _ _ _ _ _ _ _ _ Hrun) as [Hc _].
      destruct (commit_and_push_flags_aux _ _ _ _ _ _ _ _ Hrun) as [_ Hflags].
      split; [reflexivity|]. simpl. split; [|lia].
      destruct (is_empty_repo flags') eqn:Hf; [|reflexivity].
      specialize (Hflags Hempty eq_refl). discriminate Hflags. }
  destruct Hm as [Hmsg [Hne Hc]].
  destruct (Hfits m Hmsg) as [A [B C]].
  repeat split; assumption.
Qed.

Lemma execute_success_witness :
  exists self' w' net',
    execute handle_nonempty env_plain keys_nvidia net_quoted world_pushing
    = Some ((true, "Add notes"%string), self', w', net')
    /\ truthy "Add notes" = true
    /\ (String.length "Add notes" <= 72)%nat
    /\ is_empty_repo (agent_flags self') = false
    /\ (count_calls is_commit (log world_pushing) < count_calls is_commit (log w'))%nat.
Proof.
  do 3 eexists.
  assert (H : execute handle_nonempty env_plain keys_nvidia net_quoted world_pushing
              = Some ((true, "Add notes"%string), _, _, _)) by (vm_compute; reflexivity).
  split; [exact H|].
  assert (Hlen : (String.length (minute_stamp env_plain) <= 64)%nat)
    by (simpl; lia).
  destruct (execute_success _ _ _ _ _ _ _ _ _ Hlen eq_refl H)
    as [_ [A [B [_ [D E]]]]].
  repeat split; assumption.
Defined.

(* ----------------------------------------------------------------- *)
(** ** The whole run *)

Lemma count_actions_app (p : action -> bool) (l1 l2 : list action) :
  count_actions p (l1 ++ l2) = count_actions p l1 + count_actions p l2.
Proof.
  unfold count_actions, len. rewrite filter_app, length_app. lia.
Qed.

Lemma count_actions_nonneg (p : action -> bool) (l : list action) :
  0 <= count_actions p l.
Proof. unfold count_actions. apply len_nonneg. Qed.

Lemma count_success_le_marks (l : list action) :
  count_actions is_success_mark l <= count_actions is_mark_action l.
Proof.
  induction l as [|a l IH]; [unfold count_actions, len; simpl; lia|].
  unfold count_actions, len in *.
  destruct a as [d| |[|]|d]; cbn [filter is_success_mark is_mark_action List.length];
    lia.
Qed.

Lemma handle_marks (e : exn) (t : Tick) (scheduler : SchedulerManager)
    (k : nat) (done : list action) :
  match handle e t scheduler k done with
  | Continue scheduler' _ done' =>
      scheduler' = scheduler
      /\ forall p, p (Pause 5) = false -> count_actions p done' = count_actions p done
  | Exit _ done' =>
      forall p, p (Pause 5) = false -> count_actions p done' = count_actions p done
  end.
Proof.
  assert (Hp : forall p, p (Pause 5) = false ->
                 count_actions p (done ++ [Pause 5]) = count_actions p done).
  { intros p Hp. rewrite count_actions_app. unfold count_actions at 2, len.
    simpl. rewrite Hp. simpl. lia. }
  unfold handle. destruct e; try (intros; reflexivity);
    destruct (pause_cancelled t); try split; try reflexivity; exact Hp.
Qed.

(** What one pass of the loop does to the scheduler and how many cycles and
    marks it performs. *)
Lemma loop_step_accounts (rnd : nat -> Q) (scheduler : SchedulerManager)
    (k : nat) (t : Tick) :
  match loop_step rnd scheduler k t with
  | Exit _ done => count_actions is_mark_action done = 0
  | Continue scheduler' _ done =>
      (scheduler' = scheduler /\ count_actions is_mark_action done = 0)
      \/ (exists success,
            scheduler' = mark_commit_completed scheduler success
            /\ next_commit_idx scheduler < len (schedule scheduler)
            /\ count_actions is_mark_action done = 1
            /\ count_actions is_cycle_action done = 1
            /\ count_actions is_success_mark done = (if success then 1 else 0))
  end.
Proof.
  assert (Hsleep : forall (o : option Q) (p : action -> bool),
            (forall d, p (Sleep d) = false) ->
            count_actions p (match o with Some d => [Sleep d] | None => [] end) = 0).
  { intros [d|] p Hp; unfold count_actions, len; simpl; [rewrite Hp|]; reflexivity. }
  unfold loop_step.
  destruct (running_flag t); simpl; [|reflexivity].
  destruct (should_stop scheduler (now_stop t)); [reflexivity|].
  destruct (wait_for_next_commit rnd scheduler (now_wait t) k) as [[w|e] k'] eqn:Hw.
  - assert (Hrest :
      match
        match returned w with
        | None => Exit NoMoreCommits
                    match slept w with Some d => [Sleep d] | None => [] end
        | Some _ =>
            match cycle t with
            | Completed success _ =>
                Continue (mark_commit_completed scheduler success) k'
                  (match slept w with Some d => [Sleep d] | None => [] end
                   ++ [Cycle; Mark success])
            | CycleRaises e =>
                handle e t scheduler k'
                  (match slept w with Some d => [Sleep d] | None => [] end
                   ++ [Cycle])
            end
        end
      with
      | Exit _ done => count_actions is_mark_action done = 0
      | Continue scheduler' _ done =>
          (scheduler' = scheduler /\ count_actions is_mark_action done = 0)
          \/ (exists success,
                scheduler' = mark_commit_completed scheduler success
                /\ next_commit_idx scheduler < len (schedule scheduler)
                /\ count_actions is_mark_action done = 1
                /\ count_actions is_cycle_action done = 1
                /\ count_actions is_success_mark done = (if success then 1 else 0))
      end).
    { destruct (returned w) as [nt|] eqn:Hr.
      - destruct (cycle t) as [success message|e].
        + right. exists success.
          split; [reflexivity|].
          split; [eapply wait_for_next_commit_some; eauto|].
          rewrite !count_actions_app, !Hsleep by (intro; reflexivity).
          destruct success; unfold count_actions, len; simpl; repeat split; lia.
        + pose proof (handle_marks e t scheduler k'
                        (match slept w with Some d => [Sleep d] | None => [] end
                         ++ [Cycle])) as Hh.
          destruct (handle e t scheduler k' _) as [s' k'' done'|r done'].
          * destruct Hh as [Hs Hc]. left. split; [exact Hs|].
            rewrite (Hc is_mark_action eq_refl), count_actions_app,
              Hsleep by (intro; reflexivity).
            reflexivity.
          * rewrite (Hh is_mark_action eq_refl), count_actions_app,
              Hsleep by (intro; reflexivity).
            reflexivity.
      - apply Hsleep. intro; reflexivity. }
    destruct (slept w) as [d|]; [destruct (wait_cancelled t)|];
      try exact Hrest.
    reflexivity.
  - pose proof (handle_marks e t scheduler k' []) as Hh.
    destruct (handle e t scheduler k' []) as [s' k'' done'|r done'].
    + destruct Hh as [Hs Hc]. left. split; [exact Hs|].
      rewrite (Hc is_mark_action eq_refl). reflexivity.
    + rewrite (Hh is_mark_action eq_refl). reflexivity.
Qed.

Lemma run_loop_accounts_aux (rnd : nat -> Q) (ticks : list Tick) :
  forall (scheduler final : SchedulerManager) (k : nat)
         (acts : list action) (r : option exit_reason),
    run_loop rnd ticks scheduler k = (acts, r, final) ->
    schedule final = schedule scheduler
    /\ start_time final = start_time scheduler
    /\ next_commit_idx final
       = next_commit_idx scheduler + count_actions is_mark_action acts
    /\ total_commits final
       = total_commits scheduler + count_actions is_mark_action acts
    /\ successful_commits final
       = successful_commits scheduler + count_actions is_success_mark acts
    /\ count_actions is_mark_action acts <= count_actions is_cycle_action acts
    /\ (next_commit_idx scheduler <= len (schedule scheduler) ->
        next_commit_idx final <= len (schedule final)).
Proof.
  induction ticks as [|t ticks IH]; intros scheduler final k acts r H.
  - simpl in H. inversion H; subst. unfold count_actions, len. simpl.
    repeat split; lia.
  - simpl in H. pose proof (loop_step_accounts rnd scheduler k t) as Hstep.
    destruct (loop_step rnd scheduler k t) as [s' k' done|reason done].
    + destruct (run_loop rnd ticks s' k') as [[acts' r'] final'] eqn:Hrun.
      inversion H; subst; clear H.
      destruct (IH _ _ _ _ _ Hrun) as [A [B [C [D [E [F G]]]]]].
      rewrite !count_actions_app.
      pose proof (count_actions_nonneg is_cycle_action done) as Hcyc.
      pose proof (count_success_le_marks done) as Hsm.
      pose proof (count_actions_nonneg is_success_mark done) as Hs0.
      destruct Hstep as [[Hs Hm]|[success [Hs [Hlt [Hm [Hc Hsu]]]]]]; subst s'.
      * rewrite Hm in *. assert (Hz : count_actions is_success_mark done = 0) by lia.
        rewrite Hz. repeat split; try assumption; try lia.
      * rewrite Hm, Hc, Hsu. simpl in A, B, C, D, E, G.
        destruct success; repeat split; try assumption; try lia.
    + inversion H; subst; clear H. rewrite Hstep.
      pose proof (count_actions_nonneg is_cycle_action acts) as Hcyc.
      pose proof (count_success_le_marks acts) as Hsm.
      pose proof (count_actions_nonneg is_success_mark acts) as Hs0.
      rewrite Hstep in Hsm.
      assert (Hz : count_actions is_success_mark acts = 0) by lia.
      rewrite Hz. repeat split; lia.
Qed.

(** X23.  Over any run of the loop the scheduler keeps its schedule; its
    cursor and [total_commits] advance by the number of marks made and
    [successful_commits] by the number of successful ones; every mark
    follows a cycle of its own, so there are never more marks than cycles;
    and the cursor never passes the end of the schedule: no more commits
    are marked than were scheduled. *)
Theorem run_loop_accounts (rnd : nat -> Q) (ticks : list Tick)
    (scheduler final : SchedulerManager) (k : nat)
    (acts : list action) (r : option exit_reason) :
  run_loop rnd ticks scheduler k = (acts, r, final) ->
  schedule final = schedule scheduler
  /\ start_time final = start_time scheduler
  /\ next_commit_idx final
     = next_commit_idx scheduler + count_actions is_mark_action acts
  /\ total_commits final
     = total_commits scheduler + count_actions is_mark_action acts
  /\ successful_commits final
     = successful_commits scheduler + count_actions is_success_mark acts
  /\ count_actions is_mark_action acts <= count_actions is_cycle_action acts
  /\ (next_commit_idx scheduler <= len (schedule scheduler) ->
      next_commit_idx final <= len (schedule final)).
Proof. exact (run_loop_accounts_aux rnd ticks scheduler final k acts r). Qed.

Lemma run_loop_accounts_witness :
  let final := mark_commit_completed (mark_commit_completed fresh_manager false) true in
  let acts := [Cycle; Pause 5; Cycle; Mark false; Cycle; Mark true] in
  schedule final = schedule fresh_manager
  /\ start_time final = start_time fresh_manager
  /\ next_commit_idx final
     = next_commit_idx fresh_manager + count_actions is_mark_action acts
  /\ total_commits final
     = total_commits fresh_manager + count_actions is_mark_action acts
  /\ successful_commits final
     = successful_commits fresh_manager + count_actions is_success_mark acts
  /\ count_actions is_mark_action acts <= count_actions is_cycle_action acts
  /\ (next_commit_idx fresh_manager <= len (schedule fresh_manager) ->
      next_commit_idx final <= len (schedule final)).
Proof.
  apply (run_loop_accounts half eventful_run fresh_manager _ 0%nat _ (Some ShouldStop)).
  vm_compute. reflexivity.
Defined.

(** X24.  A session started on a new [SchedulerManager] ends with consistent
    statistics: [completed] is the number of cycles marked and equals
    [total_commits], [successful] is the number marked successful, the
    failed count [completed - successful] printed at the end is not
    negative, and [completed] is at most [total_scheduled]. *)
Theorem run_scheduled_commits_statistics (rnd : nat -> Q) (fuel : nat)
    (lo hi : Z) (now now' : datetime) (ticks : list Tick) (k : nat)
    (acts : list action) (r : option exit_reason) (final : SchedulerManager) :
  run_scheduled_commits rnd fuel (SchedulerManager_init lo hi) now ticks k
    = Some (Ok (acts, r, final)) ->
  let p := get_schedule_progress final now' in
  p_completed p = count_actions is_mark_action acts
  /\ p_completed p = total_commits final
  /\ p_successful p = count_actions is_success_mark acts
  /\ 0 <= p_completed p - p_successful p
  /\ p_completed p <= p_total_scheduled p
  /\ p_window_end p = Some (now + timedelta_hours COMMIT_WINDOW_HOURS)%Q.
Proof.
  unfold run_scheduled_commits, generate_new_schedule. intro H. cbn zeta.
  destruct (generate_commit_schedule rnd fuel _ now k) as [[[sched|e] k1]|];
    try discriminate H.
  inversion H as [Hrun]; clear H.
  destruct (run_loop_accounts_aux rnd ticks _ _ _ _ _ Hrun)
    as [A [B [C [D [E [_ G]]]]]].
  simpl in A, B, C, D, E, G.
  pose proof (count_success_le_marks acts) as Hsm.
  unfold get_schedule_progress. simpl. rewrite B.
  assert (Hle : next_commit_idx final <= len (schedule final))
    by (apply G; apply len_nonneg).
  repeat split; try lia. 
Qed.

Lemma run_scheduled_commits_statistics_witness :
  exists acts r final,
    run_scheduled_commits half 2 (SchedulerManager_init 2 2) 0%Q eventful_run 0%nat
    = Some (Ok (acts, r, final))
    /\ p_completed (get_schedule_progress final 28800%Q)
       = count_actions is_mark_action acts
    /\ p_completed (get_schedule_progress final 28800%Q) = total_commits final
    /\ 0 <= p_completed (get_schedule_progress final 28800%Q)
            - p_successful (get_schedule_progress final 28800%Q).
Proof.
  do 3 eexists.
  assert (H : run_scheduled_commits half 2 (SchedulerManager_init 2 2) 0%Q
                eventful_run 0%nat = Some (Ok (_, _, _))) by (vm_compute; reflexivity).
  split; [exact H|].
  destruct (run_scheduled_commits_statistics half 2 2 2 0%Q 28800%Q eventful_run
              0%nat _ _ _ H) as [A [B [_ [D _]]]].
  split; [exact A | split; [exact B | exact D]].
Defined.

(* ----------------------------------------------------------------- *)
(** ** Edges of the generator and the start of a window *)

Lemma generate_commit_schedule_within (rnd : nat -> Q) (fuel : nat)
    (self : CommitPatternGenerator) (start : datetime) (k k' : nat)
    (times : list datetime) :
  unit_draws rnd ->
  randomize self = true ->
  0 <= min_commits self <= max_commits self ->
  0 <= window_hours self ->
  (Z.to_nat (max_commits self) <= fuel)%nat ->
  generate_commit_schedule rnd fuel self start k = Some (Ok times, k') ->
  within start (start + timedelta_hours (window_hours self))%Q times
  /\ min_commits self <= len times.
Proof.
  intros Hrnd Hrand Hcounts Hw Hfuel Hgen.
  destruct (generate_commit_schedule_pipeline rnd fuel self start k
              Hrnd Hrand Hcounts Hw Hfuel)
    as [num [ts [k2 [_ [Hrange [Hts [Hlen Heq]]]]]]].
  rewrite Heq in Hgen. inversion Hgen; subst times k'; clear Hgen.
  destruct (sort_times_spec _ _ ts Hts) as [Hsorted Hslen].
  destruct (jitter_times rnd start (start + timedelta_hours (window_hours self))%Q
              (sort_times ts) k2) as [times k3] eqn:Hjit.
  destruct (jitter_times_spec rnd Hrnd _ _ _ _ _ _ Hjit Hsorted) as [A [B _]].
  simpl. split; [exact A | lia].
Qed.

(** X25.  In a window of no length every commit of a random schedule is
    scheduled at the start time itself. *)
Theorem generate_commit_schedule_empty_window (rnd : nat -> Q) (fuel : nat)
    (self : CommitPatternGenerator) (start : datetime) (k k' : nat)
    (times : list datetime) :
  unit_draws rnd ->
  randomize self = true ->
  0 <= min_commits self <= max_commits self ->
  window_hours self = 0 ->
  (Z.to_nat (max_commits self) <= fuel)%nat ->
  generate_commit_schedule rnd fuel self start k = Some (Ok times, k') ->
  Forall (fun t => (t == start)%Q) times.
Proof.
  intros Hrnd Hrand Hcounts Hw Hfuel Hgen.
  destruct (generate_commit_schedule_within rnd fuel self start k k' times
              Hrnd Hrand Hcounts) as [Hin _]; try assumption; [lia|].
  rewrite Hw in Hin. unfold within in Hin.
  eapply Forall_impl; [|exact Hin].
  intros t [H1 H2]. unfold timedelta_hours in H2. simpl in H2.
  apply Qle_antisym; [|exact H1].
  assert (E : (start + inject_Z 0 == start)%Q) by (unfold inject_Z; lra).
  rewrite E in H2. exact H2.
Qed.

Lemma generate_commit_schedule_empty_window_witness :
  exists times k',
    generate_commit_schedule half 1
      {| min_commits := 1; max_commits := 1; window_hours := 0; randomize := true |}
      7%Q 0%nat = Some (Ok times, k')
    /\ Forall (fun t => (t == 7)%Q) times.
Proof.
  do 2 eexists.
  assert (H : generate_commit_schedule half 1
                {| min_commits := 1; max_commits := 1; window_hours := 0;
                   randomize := true |} 7%Q 0%nat = Some (Ok _, _))
    by (vm_compute; reflexivity).
  split; [exact H|].
  apply (generate_commit_schedule_empty_window half 1
           {| min_commits := 1; max_commits := 1; window_hours := 0;
              randomize := true |} 7%Q 0%nat 3%nat).
  - exact unit_draws_half.
  - reflexivity.
  - simpl. lia.
  - reflexivity.
  - simpl. lia.
  - exact H.
Defined.

(** X26.  The deterministic branch at its edges: with [max_commits = 0] the
    interval is a division by zero and [ZeroDivisionError] is raised; with a
    negative [max_commits] the schedule is empty. *)
Theorem even_schedule_edges (self : CommitPatternGenerator) (start : datetime) :
  (max_commits self = 0 -> even_schedule self start = Raise ZeroDivisionError)
  /\ (max_commits self < 0 -> even_schedule self start = Ok []).
Proof.
  unfold even_schedule. split; intro H.
  - rewrite H. reflexivity.
  - destruct (Z.eqb_spec (max_commits self) 0); [lia|].
    unfold range. destruct (max_commits self); try lia. reflexivity.
Qed.

(** X27.  A window opened on a new [SchedulerManager] with at least one
    commit to make does not stop at once: right after
    [generate_new_schedule], at the window start, [should_stop] is false
    and [get_next_commit_time] gives a time between the window start and
    the window end that [get_schedule_progress] reports. *)
Theorem fresh_window_is_open (rnd : nat -> Q) (fuel : nat) (lo hi : Z)
    (now : datetime) (k k' : nat) (sched : list datetime)
    (self' : SchedulerManager) :
  unit_draws rnd ->
  1 <= lo <= hi ->
  (Z.to_nat hi <= fuel)%nat ->
  generate_new_schedule rnd fuel (SchedulerManager_init lo hi) (Some now) now k
    = Some (Ok sched, self', k') ->
  should_stop self' now = false
  /\ exists t window_end,
       get_next_commit_time self' = Ok (Some t)
       /\ p_window_end (get_schedule_progress self' now) = Some window_end
       /\ (now <= t /\ t <= window_end)%Q.
Proof.
  intros Hrnd Hcounts Hfuel H.
  unfold generate_new_schedule in H.
  destruct (generate_commit_schedule rnd fuel
              (pattern_generator (SchedulerManager_init lo hi)) now k)
    as [[[l|e] k0]|] eqn:Hgen; inversion H; subst; clear H.
  assert (Hc : 0 <= min_commits (pattern_generator (SchedulerManager_init lo hi))
                 <= max_commits (pattern_generator (SchedulerManager_init lo hi)))
    by (simpl; lia).
  assert (Hw : 0 <= window_hours (pattern_generator (SchedulerManager_init lo hi)))
    by (simpl; unfold COMMIT_WINDOW_HOURS; lia).
  destruct (generate_commit_schedule_within rnd fuel
              (pattern_generator (SchedulerManager_init lo hi)) now k k' sched Hrnd
              eq_refl Hc Hw Hfuel Hgen) as [Hin Hlen].
  simpl in Hin, Hlen.
  destruct sched as [|t rest]; [unfold len in Hlen; simpl in Hlen; lia|].
  inversion Hin as [|? ? Ht _]; subst.
  split.
  - unfold should_stop. simpl.
    assert (Hend : Qle_bool (now + timedelta_hours COMMIT_WINDOW_HOURS) now = false).
    { apply Qle_bool_false_iff. unfold timedelta_hours, COMMIT_WINDOW_HOURS.
      simpl. unfold inject_Z. lra. }
    rewrite Hend. simpl. unfold len. cbn [List.length].
    destruct (Z.leb_spec (Z.of_nat (S (List.length rest))) 0); [lia | reflexivity].
  - exists t, (now + timedelta_hours COMMIT_WINDOW_HOURS)%Q.
    split; [|split; [reflexivity | exact Ht]].
    unfold get_next_commit_time. simpl. unfold len. cbn [List.length].
    destruct (Z.ltb_spec 0 (Z.of_nat (S (List.length rest)))); [|lia].
    unfold py_index. simpl. unfold len. cbn [List.length].
    destruct (Z.ltb_spec 0 (Z.of_nat (S (List.length rest)))); [|lia].
    reflexivity.
Qed.

Lemma fresh_window_is_open_witness :
  exists sched self',
    generate_new_schedule half 2 (SchedulerManager_init 2 2) (Some 0%Q) 0%Q 0%nat
    = Some (Ok sched, self', 9%nat)
    /\ should_stop self' 0%Q = false.
Proof.
  do 2 eexists.
  assert (H : generate_new_schedule half 2 (SchedulerManager_init 2 2) (Some 0%Q)
                0%Q 0%nat = Some (Ok _, _, _)) by (vm_compute; reflexivity).
  split; [exact H|].
  assert (Hc : 1 <= 2 <= 2) by lia.
  assert (Hf : (Z.to_nat 2 <= 2)%nat) by (simpl; lia).
  destruct (fresh_window_is_open half 2 2 2 0%Q 0%nat _ _ _ unit_draws_half Hc Hf H)
    as [A _].
  exact A.
Defined.
